(** * Forecasting-and-exceedance engine of the NASA POWER scripts

    A shallow embedding of [scripts/forecast_power.py] and
    [scripts/forecast_multivariate.py].

    Conventions of the embedding.
    - A Python [float] that is a number is an exact rational ([Q]); the
      rounding of IEEE arithmetic is not modelled.  Where the code can hold
      a not-a-number or a missing cell, the value is a [pyfloat] or an
      [option Q].
    - A calendar day (a [pd.Timestamp] normalised to midnight) is its
      proleptic Gregorian ordinal, a [Z]; [pd.Timedelta(days=k)] adds [k].
    - A library call that can raise returns an [option]; [None] is the
      exception.
    - The optional imports ([pmdarima], [statsmodels], [prophet]) are the
      fields of a capability record, [None] when the import failed.
    - The process-wide NumPy generator, which neither script seeds, is a
      state that the run threads through every call that draws from it:
      the Monte-Carlo sampling of both scripts and [Prophet.predict]. *)

From Stdlib Require Import ZArith QArith Qabs Qround Qminmax.
From Stdlib Require Import List String Ascii Bool.
From Stdlib Require Import DecimalString Sorted Permutation Lia Lra Psatz.
Import ListNotations.

Open Scope Q_scope.

(** ** Numbers *)

Module Num.

(** A float that may be not-a-number. *)
Inductive pyfloat : Type :=
| Fin (q : Q)
| NaN.

Definition Qltb (a b : Q) : bool := negb (Qle_bool b a).

(** Python's built-in [max(a, b)] and [min(a, b)] on two numbers: the
    first argument is kept unless the second is strictly larger
    (smaller). *)
Definition py_max (a b : Q) : Q := if Qltb a b then b else a.
Definition py_min (a b : Q) : Q := if Qltb b a then b else a.

(** Python 3 [round(x)] with one argument: nearest integer, ties to the
    even one. *)
Definition py_round (x : Q) : Z :=
  let f := Qfloor x in
  match Qcompare (x - inject_Z f) (1 # 2) with
  | Lt => f
  | Gt => (f + 1)%Z
  | Eq => if Z.even f then f else (f + 1)%Z
  end.

Fixpoint Qsum (l : list Q) : Q :=
  match l with
  | [] => 0
  | x :: r => x + Qsum r
  end.

Definition Qlen (l : list Q) : Q := inject_Z (Z.of_nat (List.length l)).

(** [Series.mean()] / [np.nanmean] on a sequence without missing cells;
    callers guard the empty case. *)
Definition mean (l : list Q) : Q := Qsum l / Qlen l.

(** [np.var(a, ddof=1)]. *)
Definition var_ddof1 (l : list Q) : Q :=
  let m := mean l in
  Qsum (map (fun x => (x - m) * (x - m)) l) / (Qlen l - 1).

(** [df['value'].tail(k)]. *)
Definition tail {A : Type} (k : nat) (l : list A) : list A :=
  skipn (List.length l - k) l.

Fixpoint insert_sorted (x : Q) (l : list Q) : list Q :=
  match l with
  | [] => [x]
  | y :: r => if Qle_bool x y then x :: l else y :: insert_sorted x r
  end.

(** Ascending sort, as [np.sort] / [sorted]. *)
Definition sort (l : list Q) : list Q := fold_right insert_sorted [] l.

(** [np.percentile(a, pct)] with the default linear interpolation: the
    virtual index is [(n-1) * pct / 100]. *)
Definition percentile (l : list Q) (pct : Q) : Q :=
  let s := sort l in
  let pos := (Qlen l - 1) * pct / 100 in
  let i := Z.to_nat (Qfloor pos) in
  let frac := pos - inject_Z (Qfloor pos) in
  let a := nth i s 0 in
  let b := nth (S i) s a in
  a + frac * (b - a).

(** [np.median(a)]. *)
Definition median (l : list Q) : Q :=
  let s := sort l in
  let n := List.length l in
  if Nat.even n
  then (nth (n / 2 - 1) s 0 + nth (n / 2) s 0) / 2
  else nth (n / 2) s 0.

End Num.

(** ** Calendar days *)

Module Calendar.

Local Open Scope Z_scope.

(** The year, month and day attributes of a timestamp. *)
Record civil : Type := mkCivil { year : Z; month : Z; day : Z }.

Definition is_leap (y : Z) : bool :=
  (y mod 4 =? 0) && (negb (y mod 100 =? 0) || (y mod 400 =? 0)).

Definition days_in_month (y m : Z) : Z :=
  if m =? 2 then (if is_leap y then 29 else 28)
  else if (m =? 4) || (m =? 6) || (m =? 9) || (m =? 11) then 30
  else 31.

Definition days_before_year (y : Z) : Z :=
  let p := y - 1 in p * 365 + p / 4 - p / 100 + p / 400.

Definition days_before_month (y m : Z) : Z :=
  fold_right Z.add 0
    (map (fun i => days_in_month y (Z.of_nat i)) (seq 1 (Z.to_nat (m - 1)))).

(** [pd.Timestamp(year=y, month=m, day=d)]: the ordinal of the day, or
    [None] where the constructor raises (no such calendar day). *)
Definition timestamp (y m d : Z) : option Z :=
  if (1 <=? m) && (m <=? 12) && (1 <=? d) && (d <=? days_in_month y m)
  then Some (days_before_year y + days_before_month y m + d)
  else None.

(** The [year], [month] and [day] attributes of the timestamp with a
    given ordinal (the inverse of [timestamp]). *)
Definition civil_of_ordinal (ordinal : Z) : civil :=
  let n := ordinal - 1 in
  let n400 := n / 146097 in
  let n := n mod 146097 in
  let n100 := n / 36524 in
  let n := n mod 36524 in
  let n4 := n / 1461 in
  let n := n mod 1461 in
  let n1 := n / 365 in
  let n := n mod 365 in
  let y := n400 * 400 + 1 + n100 * 100 + n4 * 4 + n1 in
  if (n1 =? 4) || (n100 =? 4) then mkCivil (y - 1) 12 31
  else
    let m0 := Z.shiftr (n + 50) 5 in
    let m := if n <? days_before_month y m0 then m0 - 1 else m0 in
    mkCivil y m (n - days_before_month y m + 1).

(** [range(a, b)]. *)
Definition zrange (a b : Z) : list Z :=
  map (fun i => a + Z.of_nat i) (seq 0 (Z.to_nat (b - a))).

(** [pd.date_range(start=s, periods=n, freq='D')]. *)
Definition date_range (s : Z) (n : nat) : list Z :=
  map (fun i => s + Z.of_nat i) (seq 0 n).

(** A list of days is a run of consecutive days that begins at [s]. *)
Fixpoint contiguous_from (s : Z) (l : list Z) : Prop :=
  match l with
  | [] => True
  | d :: r => d = s /\ contiguous_from (s + 1) r
  end.

Fixpoint strictly_increasing (l : list Z) : Prop :=
  match l with
  | [] => True
  | d :: r =>
      match r with
      | [] => True
      | e :: _ => d < e
      end /\ strictly_increasing r
  end.

End Calendar.

(** ** Pieces shared by the two scripts *)

Module Frames.

Import Num.

(** Rows of a date-indexed one-column frame whose cells may be missing
    ([None] is [np.nan]). *)
Definition raw_frame : Type := list (Z * option Q).

(** The same after [dropna]: every cell is a number. *)
Definition frame : Type := list (Z * Q).

Definition values (df : frame) : list Q := map snd df.
Definition index (df : frame) : list Z := map fst df.

(** [df.dropna(subset=[col])]. *)
Fixpoint dropna (rows : raw_frame) : frame :=
  match rows with
  | [] => []
  | (d, Some v) :: r => (d, v) :: dropna r
  | (_, None) :: r => dropna r
  end.

Fixpoint insert_row {A : Type} (x : Z * A) (l : list (Z * A)) : list (Z * A) :=
  match l with
  | [] => [x]
  | y :: r => if (fst x <=? fst y)%Z then x :: l else y :: insert_row x r
  end.

(** [sort_values('date')] / [sort_index()]: a sort on the day that keeps
    rows of the same day in the order they had. *)
Definition sort_rows {A : Type} (l : list (Z * A)) : list (Z * A) :=
  fold_right insert_row [] l.

(** [index.max()] of a non-empty index. *)
Definition index_max (l : list Z) : option Z :=
  match l with
  | [] => None
  | d :: r => Some (fold_left Z.max r d)
  end.

(** [index.min()] of a non-empty index. *)
Definition index_min (l : list Z) : option Z :=
  match l with
  | [] => None
  | d :: r => Some (fold_left Z.min r d)
  end.

(** The provider's fill value test of the fetch routines:
    [vv <= -900]. *)
Definition is_sentinel (v : Q) : bool := Qle_bool v (-900).

(** [df.loc[df[col] <= -900, col] = np.nan] on one cell. *)
Definition mask_sentinel (c : option Q) : option Q :=
  match c with
  | Some v => if is_sentinel v then None else Some v
  | None => None
  end.

Definition upper_ascii (c : ascii) : ascii :=
  let n := nat_of_ascii c in
  if ((97 <=? n) && (n <=? 122))%nat then ascii_of_nat (n - 32) else c.

(** [str.upper()] on ASCII names. *)
Fixpoint upper (s : string) : string :=
  match s with
  | EmptyString => EmptyString
  | String c r => String (upper_ascii c) (upper r)
  end.

(** A parsed CSV response: the date column, already converted, and the
    other columns by name in file order. *)
Record csv_table : Type := mkCsv {
  csv_dates : list Z;
  csv_cols : list (string * list (option Q))
}.

(** The loop [for c in df.columns: if <test>: col = c; break]. *)
Definition find_col (test : string -> bool)
    (cols : list (string * list (option Q))) : option (string * list (option Q)) :=
  find (fun c => test (fst c)) cols.

Definition lower_ascii (c : ascii) : ascii :=
  let n := nat_of_ascii c in
  if ((65 <=? n) && (n <=? 90))%nat then ascii_of_nat (n + 32) else c.

(** [str.lower()] on ASCII names. *)
Fixpoint lower (s : string) : string :=
  match s with
  | EmptyString => EmptyString
  | String c r => String (lower_ascii c) (lower r)
  end.

(** [d[k] = v] on a dictionary (or [out[k] = v] on the columns of a
    frame) kept as the list of its items in insertion order: an existing
    key keeps its place and takes the new value, a new key goes last. *)
Fixpoint assign {A : Type} (k : string) (v : A) (d : list (string * A))
  : list (string * A) :=
  match d with
  | [] => [(k, v)]
  | (k', v') :: r =>
      if String.eqb k' k then (k', v) :: r else (k', v') :: assign k v r
  end.

(** [d.get(k)]. *)
Definition assoc {A : Type} (k : string) (d : list (string * A)) : option A :=
  option_map snd (find (fun kv => String.eqb (fst kv) k) d).

(** One forecast day. *)
Record forecast_row : Type := mkRow {
  row_date : Z;
  row_mean : Q;
  row_lower : Q;
  row_upper : Q
}.

Definition path_dates (p : list forecast_row) : list Z := map row_date p.

End Frames.

(** ** Monte-Carlo exceedance, common to both [main] functions *)

Module Simulation.

Import Num.

(** The process-wide NumPy generator.  Neither script seeds it, so its
    state at start-up is an input of the run that the command line does
    not determine.  A state is the stream of standard normal deviates it
    is going to deliver. *)
Definition rng_state : Type := nat -> Q.

(** [np.random.normal(loc=np.repeat(mean.reshape(-1,1), N, axis=1),
    scale=...)]: cell (i, j) is [loc_i + scale_i * z], the deviates
    consumed in row-major order. *)
Definition normal_row (g : rng_state) (N i : nat) (m s : Q) : list Q :=
  map (fun j => m + s * g (i * N + j)%nat) (seq 0 N).

Fixpoint normal_from (g : rng_state) (N i : nat) (loc_scale : list (Q * Q))
  : list (list Q) :=
  match loc_scale with
  | [] => []
  | (m, s) :: r => normal_row g N i m s :: normal_from g N (S i) r
  end.

Definition random_normal (g : rng_state) (loc_scale : list (Q * Q)) (N : nat)
  : list (list Q) :=
  normal_from g N 0 loc_scale.

(** [sims > threshold], elementwise. *)
Definition exceeds (T : Q) (sims : list (list Q)) : list (list bool) :=
  map (map (fun x => Qltb T x)) sims.

Definition b2q (b : bool) : Q := if b then 1 else 0.

(** [ndarray.mean()] of a boolean array: the sum of the cells as numbers
    over their count, not-a-number for an array without cells. *)
Definition bool_mean (cells : list bool) : pyfloat :=
  match cells with
  | [] => NaN
  | _ => Fin (Qsum (map b2q cells) / inject_Z (Z.of_nat (List.length cells)))
  end.

(** [sim_exceed.mean(axis=1)]. *)
Definition mean_axis1 (m : list (list bool)) : list pyfloat := map bool_mean m.

(** [sim_exceed.mean()] over every cell. *)
Definition mean_all (m : list (list bool)) : pyfloat := bool_mean (List.concat m).

(** The number of samples of a day that exceed the threshold. *)
Definition count_exceeding (T : Q) (samples : list Q) : nat :=
  List.length (filter (fun x => Qltb T x) samples).

Definition fraction (k n : nat) : Q :=
  inject_Z (Z.of_nat k) / inject_Z (Z.of_nat n).

Definition in_unit_interval (p : pyfloat) : Prop :=
  match p with
  | Fin q => 0 <= q <= 1
  | NaN => False
  end.

End Simulation.

(** ** [scripts/forecast_power.py] *)

Module ForecastPower.

Import Num Calendar Frames Simulation.

(** *** [fetch_power_point] *)

(** What the provider answered.  [JsonData] is the parameter block found
    in the JSON document: a day key ([None] where [pd.to_datetime]
    rejects it) and a number or [null].  [CsvFallback] is the CSV
    document read when no block was found. *)
Inductive response : Type :=
| JsonData (data : list (option Z * option Q))
| CsvFallback (t : csv_table).

(** One pass of the loop over [data.items()]. *)
Definition json_row (kv : option Z * option Q) : list (Z * option Q) :=
  match kv with
  | (None, _) => []
  | (Some dt, v) => [(dt, mask_sentinel v)]
  end.

Definition fetch_power_point (r : response) (parameter : string)
  : option raw_frame :=
  match r with
  | JsonData data =>
      match flat_map json_row data with
      | [] => None
      | rows => Some (sort_rows rows)
      end
  | CsvFallback t =>
      match find_col (fun c => prefix (upper parameter) (upper c)) (csv_cols t) with
      | None => None
      | Some (_, cells) =>
          let masked := combine (csv_dates t) (map mask_sentinel cells) in
          Some (map (fun dv => (fst dv, Some (snd dv))) (sort_rows (dropna masked)))
      end
  end.

(** *** [fetch_power_point_multi] *)

(** The answer to the multi-parameter request.  [MultiJson] is the
    parameter block of the JSON document, an object with distinct keys
    whose values are objects of day keys ([None] for a value that is not
    an object); [MultiOther] is a block that is not an object;
    [MultiCsv] is the CSV document read when no block was found. *)
Inductive multi_response : Type :=
| MultiJson (data_block : list (string * option (list (option Z * option Q))))
| MultiOther
| MultiCsv (t : csv_table).

(** [{k.lower(): k for k in data_block.keys()}]. *)
Definition returned_keys (keys : list string) : list (string * string) :=
  fold_left (fun d k => assign (lower k) k d) keys [].

(** The key of the block that serves parameter [p]: the one whose
    lower-case form is [p.lower()], else the first whose lower-case form
    starts with it. *)
Definition resolve_key (keys : list string) (p : string) : option string :=
  let rk := returned_keys keys in
  let p_lower := lower p in
  match assoc p_lower rk with
  | Some k => Some k
  | None => option_map snd (find (fun kv => prefix p_lower (fst kv)) rk)
  end.

(** The frame of one parameter on the JSON branch; [None] is the
    [results[p] = None] of the source. *)
Definition multi_json_frame
    (data_block : list (string * option (list (option Z * option Q))))
    (p : string) : option raw_frame :=
  match resolve_key (map fst data_block) p with
  | None => None
  | Some found_key =>
      if String.eqb found_key "" then None
      else
        match assoc found_key data_block with
        | Some (Some data) =>
            match flat_map json_row data with
            | [] => None
            | rows => Some (sort_rows rows)
            end
        | _ => None
        end
  end.

(** The frame of one parameter on the CSV branch: sentinel cells masked,
    missing rows dropped, file order kept. *)
Definition multi_csv_frame (t : csv_table) (p : string) : option raw_frame :=
  match find_col (fun c => prefix (upper p) (upper c)) (csv_cols t) with
  | None => None
  | Some (_, cells) =>
      Some (map (fun dv => (fst dv, Some (snd dv)))
                (dropna (combine (csv_dates t) (map mask_sentinel cells))))
  end.

(** The [results] dictionary, built by [results[p] = ...] for every
    [p] of [parameters] in turn: a parameter requested twice has one
    item. *)
Definition fetch_power_point_multi (r : multi_response) (parameters : list string)
  : list (string * option raw_frame) :=
  match r with
  | MultiJson data_block =>
      fold_left (fun results p => assign p (multi_json_frame data_block p) results)
                parameters []
  | MultiOther =>
      fold_left (fun results p => assign p None results) parameters []
  | MultiCsv t =>
      fold_left (fun results p => assign p (multi_csv_frame t p) results)
                parameters []
  end.

(** *** The head of [main]: fetch, drop missing, Kelvin heuristic *)

Definition kelvin_offset : Q := 27315 # 100.

(** [df['value'].mean() > 200]; the mean of an empty column is
    not-a-number and the comparison is false. *)
Definition looks_like_kelvin (df : frame) : bool :=
  match df with
  | [] => false
  | _ => Qltb 200 (mean (values df))
  end.

Definition prepare_series (fetched : raw_frame) : frame :=
  let df := dropna fetched in
  if looks_like_kelvin df
  then map (fun dv => (fst dv, snd dv - kelvin_offset)) df
  else df.

(** *** Model fitting *)

Definition order : Type := (Z * Z * Z)%type.
Definition seasonal_order : Type := (Z * Z * Z * Z)%type.

Definition default_order : order := (1, 0, 0)%Z.
Definition default_seasonal_order : seasonal_order := (0, 0, 0, 0)%Z.

(** A fitted SARIMAX result: [get_forecast(steps)] yields one
    (mean, lower, upper) per requested step, numbered from 1. *)
Record fitted : Type := mkFitted { predict_step : nat -> Q * Q * Q }.

Definition get_forecast (res : fitted) (steps : Z) : list (Q * Q * Q) :=
  map (predict_step res) (seq 1 (Z.to_nat steps)).

(** A fitted Prophet model.  [predict] computes [yhat] of a day from the
    fitted parameters alone; [yhat_lower] and [yhat_upper] are quantiles
    of trajectories it samples with [np.random], the process-wide
    generator, which it leaves in a later state.  Both may depend on the
    whole frame of days handed to [predict]. *)
Record prophet_model : Type := mkProphet {
  yhat : Z -> Q;
  yhat_interval : rng_state -> list Z -> Z -> Q * Q;
  after_predict : rng_state -> list Z -> rng_state
}.

(** [m.predict(future)]: one row per day of [future], and the state the
    generator is left in. *)
Definition predict (m : prophet_model) (g : rng_state) (future : list Z)
  : list forecast_row * rng_state :=
  (map (fun d => mkRow d (yhat m d)
                       (fst (yhat_interval m g future d))
                       (snd (yhat_interval m g future d)))
       future,
   after_predict m g future).

(** The optional imports at the top of the script. *)
Record capabilities : Type := mkCaps {
  pm : option (list Q -> Z -> option (order * seasonal_order));
  SARIMAX : option (list Q -> order -> seasonal_order -> option fitted);
  Prophet : option (frame -> option prophet_model)
}.

(** [m = 365 if len(series) > 365*2 else 7]. *)
Definition seasonal_period (series : list Q) : Z :=
  if (365 * 2 <? Z.of_nat (List.length series))%Z then 365%Z else 7%Z.

(** The orders handed to [SARIMAX(...)]: the defaults, replaced by the
    result of [pm.auto_arima] when that import exists and the search
    returns. *)
Definition select_order (caps : capabilities) (series : list Q)
  : order * seasonal_order :=
  match pm caps with
  | None => (default_order, default_seasonal_order)
  | Some auto_arima =>
      match auto_arima series (seasonal_period series) with
      | Some found => found
      | None => (default_order, default_seasonal_order)
      end
  end.

Definition fit_sarimax (caps : capabilities) (series : list Q) : option fitted :=
  match SARIMAX caps with
  | None => None
  | Some fit =>
      let '(o, so) := select_order caps series in
      fit series o so
  end.

(** *** Forecasting *)

Definition to_row (d : Z) (p : Q * Q * Q) : forecast_row :=
  let '(m, lo, hi) := p in mkRow d m lo hi.

(** [get_forecast] raises for a horizon below one step. *)
Definition forecast_sarimax (res : fitted) (start_date : Z) (steps : Z)
  : option (list forecast_row) :=
  if (steps <? 1)%Z then None
  else
    let pred := get_forecast res steps in
    let idx := date_range start_date (Z.to_nat steps) in
    Some (map (fun dp => to_row (fst dp) (snd dp)) (combine idx pred)).

(** [Prophet(...).fit(dfp)]: unavailable, or raising (as it does on a
    frame of fewer than two rows), is [None]. *)
Definition prophet_fit (caps : capabilities) (history : frame)
  : option prophet_model :=
  match Prophet caps with
  | None => None
  | Some fit =>
      if (List.length history <? 2)%nat then None else fit history
  end.

(** [make_future_dataframe(periods=steps)]: the history days followed by
    the [steps] days after the last of them.  The new days are cut from
    [pd.date_range(start=last, periods=steps + 1)], which raises for a
    negative number of periods. *)
Definition make_future_dataframe (history : frame) (steps : Z)
  : option (list Z) :=
  if (steps + 1 <? 0)%Z then None
  else
    match index_max (index history) with
    | None => Some []
    | Some last => Some (index history ++ date_range (last + 1) (Z.to_nat steps))
    end.

Definition in_slice (a b : Z) (r : forecast_row) : bool :=
  ((a <=? row_date r) && (row_date r <=? b))%Z.

(** The forecast frame and the state [predict] leaves the generator
    in. *)
Definition forecast_prophet (caps : capabilities) (g : rng_state)
    (history : frame) (start_date : Z) (steps : Z)
  : option (list forecast_row * rng_state) :=
  match prophet_fit caps history with
  | None => None
  | Some m =>
      match make_future_dataframe history steps with
      | None => None
      | Some future =>
          let '(f, g') := predict m g future in
          Some (filter (in_slice start_date (start_date + (steps - 1))) f, g')
      end
  end.

(** *** The forecasting part of [main] *)

Record cli : Type := mkCli {
  start_year : Z;
  end_year : Z;
  threshold : Q;
  forecast_days : Z;
  forecast_start : option Z;
  compact_mode : bool
}.

(** [pd.to_datetime(args.forecast_start)] or tomorrow. *)
Definition start_of (a : cli) (today : Z) : Z :=
  match forecast_start a with
  | Some d => d
  | None => (today + 1)%Z
  end.

(** Lines 366-385, as the forecast frame and the state of the generator
    afterwards: the SARIMAX path draws nothing.  [None]: the run ended
    without a forecast, by [sys.exit(1)] or by the exception of the last
    strategy. *)
Definition forecast_stage (caps : capabilities) (a : cli) (today : Z)
    (g : rng_state) (df : frame) : option (list forecast_row * rng_state) :=
  match fit_sarimax caps (values df) with
  | Some model_res =>
      option_map (fun p => (p, g))
        (forecast_sarimax model_res (start_of a today) (forecast_days a))
  | None =>
      match Prophet caps with
      | Some _ => forecast_prophet caps g df (start_of a today) (forecast_days a)
      | None => None
      end
  end.

Definition Nsim : nat := 2000.

(** [(upper - lower) / (2 * 1.96)]. *)
Definition row_std (r : forecast_row) : Q :=
  (row_upper r - row_lower r) / (2 * (196 # 100)).

Record exceedance : Type := mkExceedance {
  prob_per_day : list pyfloat;
  overall_prob : pyfloat
}.

(** Lines 387-406, with the number of draws per day as a parameter
    ([main] uses [Nsim]). *)
Definition simulate_exceedance (N : nat) (g : rng_state) (T : Q)
    (df_fore : list forecast_row) : exceedance :=
  match df_fore with
  | [] => mkExceedance [] NaN
  | _ =>
      let sim_matrix :=
        random_normal g (map (fun r => (row_mean r, row_std r)) df_fore) N in
      let sim_exceed := exceeds T sim_matrix in
      mkExceedance (mean_axis1 sim_exceed) (mean_all sim_exceed)
  end.

(** *** The compact summary: climatology, shrinkage, display value, risk *)

Definition lookup (d : Z) (rows : frame) : option Q :=
  option_map snd (find (fun r => (fst r =? d)%Z) rows).

(** The samples one year contributes: the days [target + off] for [off]
    in [range(-buffer_days, buffer_days + 1)] that are in the index;
    nothing when the month and day do not exist in that year. *)
Definition window_of_year (rows : frame) (target_dt : civil) (buffer_days y : Z)
  : list Q :=
  flat_map
    (fun off =>
       match timestamp y (month target_dt) (day target_dt) with
       | None => []
       | Some t =>
           match lookup (t + off) rows with
           | Some v => [v]
           | None => []
           end
       end)
    (zrange (- buffer_days) (buffer_days + 1)).

Definition sample_day_window (df : option frame) (target_dt : civil)
    (buffer_days start_yr end_yr : Z) : list Q :=
  match df with
  | None => []
  | Some [] => []
  | Some rows =>
      flat_map (window_of_year rows target_dt buffer_days)
               (zrange start_yr (end_yr + 1))
  end.

(** [hist_avg_*]: the mean of the day window, else of the whole series,
    else [None]. *)
Definition hist_avg (sample : list Q) (df : option frame) : option Q :=
  match sample with
  | _ :: _ => Some (mean sample)
  | [] =>
      match df with
      | Some (r :: rows) => Some (mean (values (r :: rows)))
      | _ => None
      end
  end.

(** [float(df['value'].tail(7).mean())] when the frame has rows. *)
Definition recent_mean (df : option frame) : option Q :=
  match df with
  | Some (r :: rows) => Some (mean (tail 7 (values (r :: rows))))
  | _ => None
  end.

Record hist_stats : Type := mkStats {
  count : nat;
  median : Q;
  p25 : Q;
  p75 : Q;
  top5 : list Q
}.

Definition hist_stats_from_array (arr : list Q) : option hist_stats :=
  match arr with
  | [] => None
  | _ =>
      Some (mkStats (List.length arr)
                    (Num.median arr)
                    (percentile arr 25)
                    (percentile arr 75)
                    (firstn 5 (rev (sort arr))))
  end.

(** A variance argument of [compute_shrunk]: itself when positive, 1.0
    otherwise. *)
Definition usable_var (v : option Q) : Q :=
  match v with
  | Some x => if Qltb 0 x then x else 1
  | None => 1
  end.

Definition compute_shrunk (forecast_val forecast_var prior_mean prior_var : option Q)
  : option Q :=
  match forecast_val, prior_mean with
  | None, None => None
  | None, Some p => Some p
  | Some f, None => Some f
  | Some f, Some p =>
      let fv := usable_var forecast_var in
      let pv := usable_var prior_var in
      Some ((f / fv + p / pv) / (1 / fv + 1 / pv))
  end.

Definition iqr_divisor : Q := 1349 # 1000.

Definition prior_prec_var (prec_sample : list Q) (stats_prec : option hist_stats)
  : option Q :=
  if (1 <? List.length prec_sample)%nat then Some (var_ddof1 prec_sample)
  else
    match stats_prec with
    | Some st =>
        let iqr := p75 st - p25 st in
        Some (if Qltb 0 iqr then (iqr / iqr_divisor) * (iqr / iqr_divisor) else 1)
    | None => None
    end.

Definition recent_prec_var (df_prec : option frame) : option Q :=
  match df_prec with
  | Some rows =>
      if (2 <=? List.length rows)%nat
      then
        let recent_vals := tail 14 (values rows) in
        if (2 <=? List.length recent_vals)%nat
        then Some (var_ddof1 recent_vals)
        else None
      else None
  | None => None
  end.

Definition prior_mean_prec (stats_prec : option hist_stats) (hist_avg_prec : option Q)
  : option Q :=
  match stats_prec with
  | Some st => Some (median st)
  | None => hist_avg_prec
  end.

(** [max(0.3, min(0.9, weight_prior))]. *)
Definition clamp_weight (w : Q) : Q := py_max (3 # 10) (py_min (9 # 10) w).

Definition weight_prior (recent_var prior_var : option Q) : option Q :=
  match recent_var, prior_var with
  | Some rv, Some pv =>
      if Qltb 0 rv && Qltb 0 pv then Some (clamp_weight (rv / (rv + pv)))
      else None
  | _, _ => None
  end.

(** Lines 607-618: the weighted blend when a weight and a prior mean
    exist, the posterior mean of [compute_shrunk] otherwise. *)
Definition blend (forecast_prec : Q) (recent_var prior_mean prior_var : option Q)
  : option Q :=
  match weight_prior recent_var prior_var, prior_mean with
  | Some w, Some p => Some (w * p + (1 - w) * forecast_prec)
  | _, _ => compute_shrunk (Some forecast_prec) recent_var prior_mean prior_var
  end.

(** Lines 619-621: [if adjusted_prec < 0: adjusted_prec = 0.0]. *)
Definition ensure_non_negative (x : option Q) : option Q :=
  match x with
  | Some v => if Qltb v 0 then Some 0 else Some v
  | None => None
  end.

Definition adjusted_prec (forecast_prec recent_var prior_mean prior_var : option Q)
  : option Q :=
  match forecast_prec with
  | None => None
  | Some f => ensure_non_negative (blend f recent_var prior_mean prior_var)
  end.

(** The interval the display value is clamped into.  A statistics record
    always carries its quartiles, so the second branch of the source is
    reached exactly when there is no record, and then no median
    either. *)
Definition display_bounds (stats_prec : option hist_stats) (hist_avg_prec : option Q)
  : option (Q * Q) :=
  match stats_prec with
  | Some st => Some (py_min (p25 st) (p75 st), py_max (p25 st) (p75 st))
  | None =>
      match hist_avg_prec with
      | Some avg => Some (0, avg)
      | None => None
      end
  end.

Definition first_some (a b : option Q) : option Q :=
  match a with
  | Some _ => a
  | None => b
  end.

Definition display_prec (adjusted forecast_prec : option Q)
    (stats_prec : option hist_stats) (hist_avg_prec : option Q) : option Q :=
  match first_some adjusted forecast_prec with
  | None => None
  | Some bp =>
      match display_bounds stats_prec hist_avg_prec with
      | Some (lo, hi) => Some (py_max 0 (py_min (py_max bp lo) hi))
      | None => Some (py_max 0 bp)
      end
  end.

Definition rain_score (mm : option Q) : Q :=
  match mm with
  | None => 0
  | Some x =>
      if Qle_bool x 0 then 0
      else if Qltb x 1 then 15
      else if Qltb x 5 then 40 + (x - 1) / 4 * 30
      else if Qltb x 20 then 70 + (x - 5) / 15 * 30
      else 100
  end.

(** [int(round(rain_score(rain_mm_for_risk)))]. *)
Definition score_of (mm : option Q) : Z := py_round (rain_score mm).

Definition risk_label (score : Z) : string :=
  if (70 <=? score)%Z then "High Risk"%string
  else if (40 <=? score)%Z then "Medium Risk"%string
  else "Low Risk"%string.

Record compact : Type := mkCompact {
  historical_avg_precip : option Q;
  stats_temp : option hist_stats;
  stats_prec : option hist_stats;
  stats_wind : option hist_stats;
  forecast_raw_precip : option Q;
  forecast_adjusted_precip : option Q;
  forecast_precip : option Q;
  climate_risk_score : Z;
  compact_risk_label : string
}.

Definition buffer : Z := 3.

(** The compact branch of [main] after its three day windows have been
    sampled. *)
Definition compact_of_samples (temp_sample prec_sample wind_sample : list Q)
    (df_prec : option frame) : compact :=
  let hist_avg_prec := hist_avg prec_sample df_prec in
  let forecast_prec := recent_mean df_prec in
  let st_prec := hist_stats_from_array prec_sample in
  let adjusted :=
    adjusted_prec forecast_prec (recent_prec_var df_prec)
                  (prior_mean_prec st_prec hist_avg_prec)
                  (prior_prec_var prec_sample st_prec) in
  let display := display_prec adjusted forecast_prec st_prec hist_avg_prec in
  let rain_mm_for_risk := first_some display (first_some adjusted forecast_prec) in
  let score := score_of rain_mm_for_risk in
  mkCompact hist_avg_prec
            (hist_stats_from_array temp_sample)
            st_prec
            (hist_stats_from_array wind_sample)
            forecast_prec adjusted display score (risk_label score).

(** The compact branch of [main] from the three frames it fetched (after
    their [dropna]), the forecast day and [--start] / [--end]. *)
Definition compact_summary (df_temp df_prec df_wind : option frame)
    (tomorrow : civil) (start_yr end_yr : Z) : compact :=
  compact_of_samples
    (sample_day_window df_temp tomorrow buffer start_yr end_yr)
    (sample_day_window df_prec tomorrow buffer start_yr end_yr)
    (sample_day_window df_wind tomorrow buffer start_yr end_yr)
    df_prec.

(** The same for a forecast frame without rows: its first day is
    not-a-time, [pd.Timestamp(year=y, month=tmonth, day=tday)] raises for
    every year, and every day window is empty. *)
Definition compact_summary_NaT (df_prec : option frame) : compact :=
  compact_of_samples [] [] [] df_prec.

(** *** The sparkline of the compact summary *)

(** [np.nanmin] and [np.nanmax] of a non-empty array of numbers. *)
Definition nanmin (vals : list Q) : Q :=
  match vals with
  | [] => 0
  | v :: r => fold_left Qmin r v
  end.

Definition nanmax (vals : list Q) : Q :=
  match vals with
  | [] => 0
  | v :: r => fold_left Qmax r v
  end.

Definition sparkline_floor : Q := 1 # 1000000.

(** [rng = max(1e-6, vmax - vmin)] and [(v - vmin) / rng] for every
    value. *)
Definition normalise (vals : list Q) : list Q :=
  let vmin := nanmin vals in
  let vmax := nanmax vals in
  let rng := py_max sparkline_floor (vmax - vmin) in
  map (fun v => (v - vmin) / rng) vals.

(** Lines 626-645: the first twenty forecast means, else the last twenty
    temperatures, else [None]. *)
Definition sparkline (df_fore : list forecast_row) (df_temp : option frame)
  : option (list Q) :=
  match df_fore with
  | _ :: _ => Some (normalise (firstn 20 (map row_mean df_fore)))
  | [] =>
      match df_temp with
      | Some (r :: rows) => Some (normalise (tail 20 (values (r :: rows))))
      | _ => None
      end
  end.

(** *** [main] *)

(** Lines 357-406: everything between the Kelvin heuristic and the
    summary, on the prepared series. *)
Definition forecast_and_simulate (caps : capabilities) (a : cli) (today : Z)
    (g : rng_state) (df : frame) : option (list forecast_row * exceedance) :=
  match forecast_stage caps a today g df with
  | None => None
  | Some (df_fore, g') =>
      Some (df_fore, simulate_exceedance Nsim g' (threshold a) df_fore)
  end.

Record report : Type := mkReport {
  df_fore : list forecast_row;
  simulated : exceedance;
  compact_json : option compact
}.

(** One run.  [fetched] is what [fetch_power_point] returned for
    [--parameter]; [df_temp], [df_prec] and [df_wind] are the frames the
    compact branch obtained, after their [dropna].  The target day of
    the compact branch is the first day of the forecast frame. *)
Definition main (caps : capabilities) (a : cli) (today : Z) (g : rng_state)
    (fetched : raw_frame) (df_temp df_prec df_wind : option frame)
  : option report :=
  match forecast_and_simulate caps a today g (prepare_series fetched) with
  | None => None
  | Some (fore, sim) =>
      Some (mkReport fore sim
              (if compact_mode a
               then
                 match index_min (path_dates fore) with
                 | Some tomorrow =>
                     Some (compact_summary df_temp df_prec df_wind
                             (civil_of_ordinal tomorrow)
                             (start_year a) (end_year a))
                 | None => Some (compact_summary_NaT df_prec)
                 end
               else None))
  end.

End ForecastPower.

(** ** [scripts/forecast_multivariate.py] *)

Module ForecastMultivariate.

Import Num Calendar Frames Simulation.

(** *** [fetch_power_csv] and the gap filling of [main] *)

(** The column test of [fetch_power_csv]:
    [c.upper() == p.upper() or c.upper().startswith(p.upper())]. *)
Definition matches (p c : string) : bool :=
  String.eqb (upper c) (upper p) || prefix (upper p) (upper c).

(** The frame is sorted on its date index before the columns are read
    off; the same stable sort orders every column. *)
Definition sorted_column (dates : list Z) (cells : list (option Q))
  : list (option Q) :=
  map snd (sort_rows (combine dates cells)).

Definition sorted_index (dates : list Z) : list Z :=
  map fst (sort_rows (combine dates dates)).

(** [df[col].values], or a column of [np.nan]. *)
Definition fetch_column (t : csv_table) (p : string) : list (option Q) :=
  match find_col (matches p) (csv_cols t) with
  | Some (_, cells) => sorted_column (csv_dates t) cells
  | None => map (fun _ => None) (csv_dates t)
  end.

(** The frame [result], its columns assigned by [result[p] = ...] for
    every [p] of [parameters] in turn. *)
Definition fetch_power_csv (t : csv_table) (parameters : list string)
  : list Z * list (string * list (option Q)) :=
  (sorted_index (csv_dates t),
   fold_left (fun result p => assign p (fetch_column t p) result) parameters []).

Definition cell_at (index : list Z) (cells : list (option Q)) (d : Z) : option Q :=
  match find (fun r => (fst r =? d)%Z) (combine index cells) with
  | Some (_, c) => c
  | None => None
  end.

(** [df.reindex(pd.date_range(start=min, end=max, freq='D'))] on one
    column. *)
Definition reindex (index : list Z) (cells : list (option Q)) : list (option Q) :=
  match index_min index, index_max index with
  | Some lo, Some hi => map (cell_at index cells) (zrange lo (hi + 1))
  | _, _ => []
  end.

Fixpoint ffill_from (prev : option Q) (l : list (option Q)) : list (option Q) :=
  match l with
  | [] => []
  | Some v :: r => Some v :: ffill_from (Some v) r
  | None :: r => prev :: ffill_from prev r
  end.

(** [fillna(method='ffill')] and [fillna(method='bfill')]. *)
Definition ffill (l : list (option Q)) : list (option Q) := ffill_from None l.
Definition bfill (l : list (option Q)) : list (option Q) := rev (ffill (rev l)).

(** Lines 210-214 of [main]: the index becomes the full daily range and
    every column is forward- then backward-filled.  This frame is what
    [train_model] and [iterative_forecast] receive. *)
Definition fill_gaps (df : list Z * list (string * list (option Q)))
  : list Z * list (string * list (option Q)) :=
  let '(index, cols) := df in
  (match index_min index, index_max index with
   | Some lo, Some hi => zrange lo (hi + 1)
   | _, _ => []
   end,
   map (fun c => (fst c, bfill (ffill (reindex index (snd c))))) cols).

Definition load (t : csv_table) (parameters : list string)
  : list Z * list (string * list (option Q)) :=
  fill_gaps (fetch_power_csv t parameters).

(** *** [iterative_forecast] *)

(** The columns of a frame without missing cells, in order. *)
Definition columns : Type := list (string * list Q).

(** Python indexing [vals[i]] with a possibly negative [i]; [None] is
    [IndexError]. *)
Definition py_index (vals : list Q) (i : Z) : option Q :=
  let n := Z.of_nat (List.length vals) in
  let k := if (i <? 0)%Z then (n + i)%Z else i in
  if ((0 <=? k) && (k <? n))%Z then nth_error vals (Z.to_nat k) else None.

(** [vals[-lag]] when the history is long enough, else [vals[0]]. *)
Definition lag_value (vals : list Q) (lag : nat) : option Q :=
  let idx := (- Z.of_nat lag)%Z in
  if (Z.abs idx <=? Z.of_nat (List.length vals))%Z
  then py_index vals idx
  else py_index vals 0.

Definition decimal (n : nat) : string :=
  DecimalString.NilZero.string_of_uint (Nat.to_uint n).

Definition lag_name (col : string) (lag : nat) : string :=
  (col ++ "_lag" ++ decimal lag)%string.

Definition curr_name (col : string) : string := (col ++ "_curr")%string.

(** All-or-nothing evaluation of a list of fallible reads. *)
Fixpoint sequence {A : Type} (l : list (option A)) : option (list A) :=
  match l with
  | [] => Some []
  | None :: _ => None
  | Some x :: r =>
      match sequence r with
      | Some xs => Some (x :: xs)
      | None => None
      end
  end.

Definition named (k : string) (v : option Q) : option (string * Q) :=
  option_map (fun x => (k, x)) v.

(** The entries one column adds to the [row] dictionary. *)
Definition column_features (lags : nat) (c : string * list Q)
  : option (list (string * Q)) :=
  let '(col, vals) := c in
  sequence
    (map (fun lag => named (lag_name col lag) (lag_value vals lag)) (seq 1 lags)
     ++ [named (curr_name col) (py_index vals (-1))]).

(** The [row] dictionary as the list of its assignments in order. *)
Definition feature_row (lags : nat) (history : columns)
  : option (list (string * Q)) :=
  option_map (@List.concat _) (sequence (map (column_features lags) history)).

(** [row[c]]: the last assignment to the key; [None] is [KeyError]. *)
Definition dict_get (row : list (string * Q)) (c : string) : option Q :=
  option_map snd (find (fun kv => String.eqb (fst kv) c) (rev row)).

(** [np.array([row[c] for c in features_cols])]. *)
Definition feature_vector (row : list (string * Q)) (features_cols : list string)
  : option (list Q) :=
  sequence (map (dict_get row) features_cols).

(** The row appended to the history: the prediction for [T2M], the last
    value repeated for every other column. *)
Definition extend_column (ypred : Q) (c : string * list Q)
  : option (string * list Q) :=
  let '(col, vals) := c in
  if String.eqb col "T2M" then Some (col, vals ++ [ypred])
  else option_map (fun v => (col, vals ++ [v])) (py_index vals (-1)).

Definition extend_history (ypred : Q) (history : columns) : option columns :=
  sequence (map (extend_column ypred) history).

Section Loop.

(** [model.predict] of the trained regressor on one feature vector. *)
Variable predict : list Q -> Q.
Variable features_cols : list string.
Variable lags : nat.
Variable last_date : Z.

(** The body of [for step in range(1, forecast_days+1)], over the
    remaining values of [step]. *)
Fixpoint forecast_loop (steps : list Z) (history : columns)
  : option (list (Z * Q)) :=
  match steps with
  | [] => Some []
  | step :: rest =>
      match feature_row lags history with
      | None => None
      | Some row =>
          match feature_vector row features_cols with
          | None => None
          | Some x =>
              let ypred := predict x in
              let new_date := (last_date + step)%Z in
              match extend_history ypred history with
              | None => None
              | Some history' =>
                  match forecast_loop rest history' with
                  | None => None
                  | Some results => Some ((new_date, ypred) :: results)
                  end
              end
          end
      end
  end.

End Loop.

(** The forecast frame: its date index and its [mean] column.  An empty
    [results] list has no [date] column to index by, and
    [set_index] raises. *)
Definition iterative_forecast (predict : list Q -> Q) (index : list Z)
    (df_hist : columns) (forecast_days : Z) (features_cols : list string)
    (lags : nat) : option (list (Z * Q)) :=
  match index_max index with
  | None => None
  | Some last_date =>
      match forecast_loop predict features_cols lags last_date
                          (zrange 1 (forecast_days + 1)) df_hist with
      | Some (r :: results) => Some (r :: results)
      | _ => None
      end
  end.

(** *** [create_lag_features] *)

(** [Series.shift(lag)]: every value moves [lag] rows down, the first
    [lag] rows become missing, the length stays. *)
Definition shift (lag : nat) (cells : list (option Q)) : list (option Q) :=
  firstn (List.length cells) (repeat None lag ++ cells).

(** The columns of [out]: for every column its lags 1 to [lags], then for
    every column its current value. *)
Definition create_lag_features (df : list (string * list (option Q))) (lags : nat)
  : list (string * list (option Q)) :=
  let lagged :=
    fold_left
      (fun out c =>
         fold_left
           (fun out' lag => assign (lag_name (fst c) lag) (shift lag (snd c)) out')
           (seq 1 lags) out)
      df [] in
  fold_left (fun out c => assign (curr_name (fst c)) (snd c) out) df lagged.

(** *** [simulate_uncertainty] and the exceedance lines of [main] *)

(** [residuals.values.std()], the population standard deviation, is
    computed by NumPy; it enters as the number it returned, [None] when
    there are no residuals. *)
Definition res_std (residual_std : option Q) : Q :=
  match residual_std with
  | None => 15 # 10
  | Some s => s
  end.

Definition simulate_uncertainty (g : rng_state) (df_fore : list (Z * Q))
    (residual_std : option Q) (nsim : nat) : list (list Q) :=
  random_normal g (map (fun r => (snd r, res_std residual_std)) df_fore) nsim.

Definition exceedance_probabilities (g : rng_state) (T : Q)
    (df_fore : list (Z * Q)) (residual_std : option Q) (nsim : nat)
  : list pyfloat * pyfloat :=
  let sims := simulate_uncertainty g df_fore residual_std nsim in
  let exceed := exceeds T sims in
  (mean_axis1 exceed, mean_all exceed).

(** *** [train_model] *)

(** A fitted regressor: its [predict] on one feature vector. *)
Definition regressor : Type := list Q -> Q.

(** scikit-learn's [RandomForestRegressor(...).fit(X, y)].  With an
    integer [random_state] the trees are grown from a private generator
    seeded with it; with [random_state=None] they are grown from
    [np.random], the process-wide generator, which is left in a later
    state. *)
Record sklearn : Type := mkSklearn {
  forest_seeded : Z -> list (list Q) -> list Q -> regressor;
  forest_global : rng_state -> list (list Q) -> list Q -> regressor * rng_state
}.

Definition RandomForestRegressor_fit (lib : sklearn) (random_state : option Z)
    (g : rng_state) (X : list (list Q)) (y : list Q) : regressor * rng_state :=
  match random_state with
  | Some seed => (forest_seeded lib seed X y, g)
  | None => forest_global lib g X y
  end.

(** [Series.shift(-1)]: every value moves one row up and the last row
    becomes missing. *)
Definition shift_back (cells : list (option Q)) : list (option Q) :=
  match cells with
  | [] => []
  | _ :: r => r ++ [None]
  end.

(** Row [i] of [pd.concat([features, y], axis=1)] when it survives
    [dropna()]: its feature vector and its target. *)
Definition complete_row (features : list (string * list (option Q)))
    (y : list (option Q)) (i : nat) : option (list Q * Q) :=
  match sequence (map (fun c => nth i (snd c) None) features), nth i y None with
  | Some x, Some target => Some (x, target)
  | _, _ => None
  end.

Definition training_table (features : list (string * list (option Q)))
    (y : list (option Q)) : list (list Q * Q) :=
  flat_map (fun i => match complete_row features y i with
                     | Some r => [r]
                     | None => []
                     end)
           (seq 0 (List.length y)).

(** [train_test_split(X, y, test_size=0.2, shuffle=False)]: the last
    [ceil(0.2 n)] rows are the test set; it raises when there is no row
    or when no row is left for training. *)
Definition n_test (n : nat) : nat := (n + 4) / 5.

Definition train_test_split {A : Type} (rows : list A) : option (list A * list A) :=
  let n := List.length rows in
  let n_train := (n - n_test n)%nat in
  if (n_train =? 0)%nat then None
  else Some (firstn n_train rows, skipn n_train rows).

(** The regressor, the names of its features and the residuals on the
    test rows, with the state the generator is in afterwards.  [None]:
    scikit-learn is missing, the frame has no target column, or the
    split raises. *)
Definition train_model (lib : option sklearn) (g : rng_state)
    (df : list (string * list (option Q))) (target_col : string) (lags : nat)
  : option (regressor * list string * list Q * rng_state) :=
  match lib with
  | None => None
  | Some sk =>
      let features := create_lag_features df lags in
      match assoc target_col df with
      | None => None
      | Some target =>
          let data := training_table features (shift_back target) in
          match train_test_split data with
          | None => None
          | Some (train, test) =>
              let '(model, g') :=
                RandomForestRegressor_fit sk (Some 0%Z) g
                                          (map fst train) (map snd train) in
              let residuals := map (fun r => snd r - model (fst r)) test in
              Some (model, map fst features, residuals, g')
          end
      end
  end.

(** *** [main] *)

(** [sub in s]. *)
Fixpoint contains (sub s : string) : bool :=
  prefix sub s ||
  match s with
  | EmptyString => false
  | String _ r => contains sub r
  end.

Fixpoint rename_first (test : string -> bool) (name : string)
    (cols : list (string * list (option Q))) : list (string * list (option Q)) :=
  match cols with
  | [] => []
  | c :: r =>
      if test (fst c) then (name, snd c) :: r
      else c :: rename_first test name r
  end.

(** Lines 204-209: without a column [T2M], the first column whose name
    contains it takes that name. *)
Definition rename_target (cols : list (string * list (option Q)))
  : list (string * list (option Q)) :=
  if existsb (fun c => String.eqb (fst c) "T2M") cols then cols
  else rename_first (fun c => contains "T2M" (upper c)) "T2M" cols.

(** [np.var(a)], the population variance. *)
Definition var_ddof0 (l : list Q) : Q :=
  let m := mean l in
  Qsum (map (fun x => (x - m) * (x - m)) l) / Qlen l.

(** The columns of a frame when none of their cells is missing. *)
Definition to_columns (cols : list (string * list (option Q))) : option columns :=
  sequence (map (fun c => option_map (fun v => (fst c, v)) (sequence (snd c))) cols).

Record outcome : Type := mkOutcome {
  df_fore : list (Z * Q);
  prob_per_day : list pyfloat;
  overall_prob : pyfloat
}.

(** One run of the script on the CSV document [t] the provider returned.
    [sqrt] is NumPy's square root, which [std()] takes of the population
    variance.  The frame [train_model] accepted has no missing cell (a
    row survives [dropna] only when every column has a value on it, and
    a filled column with one value has no gap), so its columns are
    numbers when [iterative_forecast] reads them. *)
Definition main (lib : option sklearn) (sqrt : Q -> Q) (g : rng_state)
    (t : csv_table) (vars : list string) (threshold : Q)
    (forecast_days lags : Z) : option outcome :=
  match lib with
  | None => None
  | Some _ =>
      let fetched := fetch_power_csv t vars in
      let df := fill_gaps (fst fetched, rename_target (snd fetched)) in
      match train_model lib g (snd df) "T2M" (Z.to_nat lags) with
      | None => None
      | Some (model, feat_cols, residuals, g') =>
          match to_columns (snd df) with
          | None => None
          | Some hist =>
              match iterative_forecast model (fst df) hist forecast_days
                                       feat_cols (Z.to_nat lags) with
              | None => None
              | Some fore =>
                  let residual_std :=
                    match residuals with
                    | [] => None
                    | _ => Some (sqrt (var_ddof0 residuals))
                    end in
                  let '(per_day, overall) :=
                    exceedance_probabilities g' threshold fore residual_std 2000 in
                  Some (mkOutcome fore per_day overall)
              end
          end
      end
  end.

End ForecastMultivariate.

(** ** Predicates used in the statements *)

Module Properties.

Import Num Calendar Frames ForecastMultivariate.

Definition non_negative (l : list Q) : Prop := Forall (fun v => 0 <= v) l.

Definition the_frame (df : option frame) : frame :=
  match df with
  | Some rows => rows
  | None => []
  end.

Definition the_var (v : option Q) : Q :=
  match v with
  | Some x => x
  | None => 0
  end.

(** The dates of a forecast of [n] days that begin at [start]: exactly
    [n] entries, consecutive days, strictly increasing. *)
Definition daily_path (start n : Z) (dates : list Z) : Prop :=
  List.length dates = Z.to_nat n /\
  contiguous_from start dates /\
  strictly_increasing dates.

(** The keys the loop assigns to [row], from the column names. *)
Definition feature_names (lags : nat) (names : list string) : list string :=
  flat_map (fun col => map (lag_name col) (seq 1 lags) ++ [curr_name col]) names.

(** The days of a forecast path with their point forecasts. *)
Definition point_forecast (p : list forecast_row) : list (Z * Q) :=
  map (fun r => (row_date r, row_mean r)) p.

(** The number a probability cell holds, 0 for not-a-number. *)
Definition fin_value (p : pyfloat) : Q :=
  match p with
  | Fin q => q
  | NaN => 0
  end.

(** A frame is in date order. *)
Definition date_ordered {A : Type} (rows : list (Z * A)) : Prop :=
  Sorted (fun a b => (fst a <= fst b)%Z) rows.

(** A frame without missing cells as a frame of cells. *)
Definition to_cells (df : list (string * list Q)) : list (string * list (option Q)) :=
  map (fun c => (fst c, map Some (snd c))) df.

(** The linear interpolation of [np.percentile] at a virtual index of
    the sorted sample. *)
Definition interpolate (s : list Q) (pos : Q) : Q :=
  let i := Z.to_nat (Qfloor pos) in
  let frac := pos - inject_Z (Qfloor pos) in
  let a := nth i s 0 in
  let b := nth (S i) s a in
  a + frac * (b - a).

End Properties.

(** ** Concrete runs used as examples *)

Module Scenarios.

Import Num Calendar Frames Simulation Properties.
Import ForecastMultivariate ForecastPower.

Definition kelvin_sample : raw_frame :=
  [(738886%Z, Some (300 # 1)); (738887%Z, None); (738888%Z, Some (2965 # 10))].

(** A fitted model that forecasts 25 (24 to 26) for every step. *)
Definition flat_model : fitted := mkFitted (fun _ => (25, 24, 26)).

(** Capabilities with which the automatic search raises and only the
    default orders fit. *)
Definition caps_search_fails : capabilities :=
  mkCaps (Some (fun _ _ => None))
         (Some (fun _ o so =>
                  if (let '(p, d, q) := o in (p =? 1) && (d =? 0) && (q =? 0))%Z
                  then Some flat_model else None))
         None.

Definition cli_three_days : cli := mkCli 2000 2024 32 3 None false.

(** Two days of (impossible) negative amounts inside the day window. *)
Definition negative_amounts : option frame :=
  Some [(738886%Z, - (1 # 1)); (738887%Z, - (3 # 1))].

Definition second_of_january : civil := mkCivil 2025 1 2.

(** A fortnight of rain in the first days of 2024. *)
Definition wet_january : option frame :=
  Some [(738886%Z, 2 # 1); (738887%Z, 0 # 1); (738888%Z, 6 # 1); (738889%Z, 4 # 1)].

Definition wet_recent_var : Q :=
  Eval vm_compute in the_var (recent_prec_var wet_january).

Definition wet_prior_var : Q :=
  Eval vm_compute in
    the_var (prior_prec_var
               (sample_day_window wet_january second_of_january buffer 2024 2024)
               (hist_stats_from_array
                  (sample_day_window wet_january second_of_january buffer 2024 2024))).

(** Eight January days, wet on the first only; the target day is in
    July, so no day of the series falls into the window. *)
Definition dry_after_new_year : option frame :=
  Some [(738886%Z, 8 # 1); (738887%Z, 0 # 1); (738888%Z, 0 # 1);
        (738889%Z, 0 # 1); (738890%Z, 0 # 1); (738891%Z, 0 # 1);
        (738892%Z, 0 # 1); (738893%Z, 0 # 1)].

Definition first_of_july : civil := mkCivil 2025 7 1.

(** A generator that alternates around zero. *)
Definition alternating : rng_state :=
  fun k => if Nat.even k then 2 else - (2 # 1).

Definition two_days : list forecast_row :=
  [mkRow 738886 31 29 33; mkRow 738887 33 31 35].

(** A run whose SARIMAX fit succeeds with a flat one-day forecast of
    25 (24 to 26), threshold 25.2. *)
Definition caps_sarimax_only : capabilities :=
  mkCaps None (Some (fun _ _ _ => Some (mkFitted (fun _ => (25, 24, 26))))) None.

Definition cli_one_day : cli := mkCli 2000 2024 (252 # 10) 1 None false.

Definition mild_week : raw_frame :=
  [(738886%Z, Some 25); (738887%Z, Some 24); (738888%Z, Some 26)].

(** Two start states of the generator: the first delivers +2, -2, +2,
    ..., the second +2 once in four draws. *)
Definition every_second : rng_state :=
  fun k => if Nat.even k then 2 else - (2 # 1).

Definition every_fourth : rng_state :=
  fun k => if (k mod 4 =? 0)%nat then 2 else - (2 # 1).

(** A generator that always delivers +1. *)
Definition always_one : rng_state := fun _ => 1.

(** Three forecast days that begin the day after [mild_week] ends. *)
Definition cli_day_after : cli := mkCli 2000 2024 32 3 (Some 738889%Z) false.

(** A generator that differs from [every_second] only after the 2000
    draws a one-day forecast consumes. *)
Definition every_second_then_zero : rng_state :=
  fun k => if (k <? 2000)%nat then every_second k else 0.

(** Three days of temperature, the middle one the provider's fill
    value. *)
Definition csv_with_fill_value : csv_table :=
  mkCsv [738886%Z; 738887%Z; 738888%Z]
        [("T2M"%string, [Some 20; Some (- (999 # 1)); Some 21])].

(** Three observed days; the run takes place two days after the last of
    them, as when the provider's newest days are still missing. *)
Definition recent_history : frame :=
  [(738886%Z, 25); (738887%Z, 25); (738888%Z, 25)].

Definition run_day : Z := 738890.

Definition cli_no_override : cli := mkCli 2000 2024 32 3 None false.

Definition steady : Q * Q * Q := (25, 24, 26).

(** A Prophet model that forecasts 25 for every day, with an interval
    as wide as the first deviate it draws, and draws one deviate per
    day. *)
Definition sampling_model : prophet_model :=
  mkProphet (fun _ => 25)
            (fun g _ _ => (25 - Qabs (g 0%nat), 25 + Qabs (g 0%nat)))
            (fun g future => fun k => g (k + List.length future)%nat).

Definition caps_prophet_only : capabilities :=
  mkCaps None None (Some (fun _ => Some sampling_model)).

Definition caps_statsmodels_only : capabilities :=
  mkCaps None (Some (fun _ _ _ => Some (mkFitted (fun _ => steady)))) None.

(** Three days of temperature and humidity, two lags, a regressor that
    averages the two temperature lags. *)
Definition two_columns : columns :=
  [("T2M"%string, [20; 21; 22]); ("RH2M"%string, [50; 51; 52])].

Definition three_features : list string :=
  ["T2M_lag1"%string; "T2M_lag2"%string; "RH2M_curr"%string].

Definition average_of_lags (x : list Q) : Q :=
  (nth 0 x 0 + nth 1 x 0) / 2.

(** Light rain around the second of January 2024, a downpour in the
    last days of that year. *)
Definition drizzle_then_downpour : option frame :=
  Some [(738886%Z, 2 # 10); (738887%Z, 4 # 10); (738888%Z, 0 # 1);
        (739246%Z, 30 # 1); (739247%Z, 40 # 1); (739248%Z, 35 # 1);
        (739249%Z, 50 # 1); (739250%Z, 45 # 1); (739251%Z, 60 # 1)].

(** Two days of three simulated temperatures each. *)
Definition two_by_three : list (list Q) :=
  [[30; 33; 35]; [31; 29; 36]].

(** A week of temperatures with two missing days, one of them the
    first. *)
Definition gappy_week : list (option Q) :=
  [None; Some 21; None; None; Some 24; Some 23; None].

(** A fetched frame whose days are out of order and skip two days. *)
Definition sparse_fetch : list Z * list (string * list (option Q)) :=
  ([738890%Z; 738886%Z; 738887%Z],
   [("T2M"%string, [Some 24; Some 20; Some 21])]).

(** A JSON block whose days come out of order, with a null and a fill
    value. *)
Definition unordered_block : list (option Z * option Q) :=
  [(Some 738888%Z, Some 22); (Some 738886%Z, None);
   (None, Some 19); (Some 738887%Z, Some (- (999 # 1)))].

(** The parameter block the provider returns for precipitation under its
    corrected name. *)
Definition block_with_alias : list (string * option (list (option Z * option Q))) :=
  [("T2M"%string, Some [(Some 738886%Z, Some 25)]);
   ("PRECTOTCORR"%string, Some [(Some 738886%Z, Some (- (999 # 1)));
                                (Some 738887%Z, Some 3)]);
   ("WS2M"%string, Some [(Some 738886%Z, Some 4)])].

(** Rain on 27 and 28 February and on 1 March 2025, a common year. *)
Definition leap_day_neighbours : option frame :=
  Some [(739309%Z, 5 # 1); (739310%Z, 7 # 1); (739311%Z, 2 # 1)].

End Scenarios.

(** ** Facts about the numeric helpers *)

Module NumFacts.

Import Num.

Lemma Qltb_lt (a b : Q) : Qltb a b = true <-> a < b.
Proof.
  unfold Qltb. rewrite negb_true_iff.
  split; intro H.
  - destruct (Qlt_le_dec a b) as [L | L]; [exact L |].
    apply Qle_bool_iff in L. congruence.
  - destruct (Qle_bool b a) eqn:E; [| reflexivity].
    apply Qle_bool_iff in E. lra.
Qed.

Lemma Qltb_ge (a b : Q) : Qltb a b = false <-> b <= a.
Proof.
  unfold Qltb. rewrite negb_false_iff. apply Qle_bool_iff.
Qed.

Lemma Qle_bool_gt (a b : Q) : Qle_bool a b = false <-> b < a.
Proof.
  split; intro H.
  - destruct (Qlt_le_dec b a) as [L | L]; [exact L |].
    apply Qle_bool_iff in L. congruence.
  - destruct (Qle_bool a b) eqn:E; [| reflexivity].
    apply Qle_bool_iff in E. lra.
Qed.

Lemma py_max_spec (a b : Q) :
  a <= py_max a b /\ b <= py_max a b /\ (py_max a b = a \/ py_max a b = b).
Proof.
  unfold py_max. destruct (Qltb a b) eqn:E.
  - apply Qltb_lt in E. repeat split; try lra. now right.
  - apply Qltb_ge in E. repeat split; try lra. now left.
Qed.

Lemma py_min_spec (a b : Q) :
  py_min a b <= a /\ py_min a b <= b /\ (py_min a b = a \/ py_min a b = b).
Proof.
  unfold py_min. destruct (Qltb b a) eqn:E.
  - apply Qltb_lt in E. repeat split; try lra. now right.
  - apply Qltb_ge in E. repeat split; try lra. now left.
Qed.

End NumFacts.

(** ** Facts about day ranges *)

Module CalendarFacts.

Import Calendar.
Local Open Scope Z_scope.

Lemma zrange_length (a b : Z) : List.length (zrange a b) = Z.to_nat (b - a).
Proof. unfold zrange. now rewrite length_map, length_seq. Qed.

Lemma zrange_date_range (a b : Z) : zrange a b = date_range a (Z.to_nat (b - a)).
Proof. reflexivity. Qed.

Lemma date_range_length (s : Z) (n : nat) : List.length (date_range s n) = n.
Proof. unfold date_range. now rewrite length_map, length_seq. Qed.

Lemma date_range_S (s : Z) (n : nat) :
  date_range s (S n) = date_range s n ++ [s + Z.of_nat n].
Proof. unfold date_range. rewrite seq_S, map_app. reflexivity. Qed.

Lemma date_range_cons (s : Z) (n : nat) :
  date_range s (S n) = s :: date_range (s + 1) n.
Proof.
  unfold date_range. cbn [seq map]. f_equal; [lia |].
  rewrite <- seq_shift, map_map. apply map_ext. intro i. lia.
Qed.

Lemma contiguous_increasing (l : list Z) :
  forall s, contiguous_from s l -> strictly_increasing l.
Proof.
  induction l as [| d r IH]; intros s H; [exact I |].
  destruct H as [-> Hr]. split.
  - destruct r as [| e r']; [exact I |]. destruct Hr as [-> _]. lia.
  - eapply IH; exact Hr.
Qed.

Lemma date_range_contiguous (n : nat) :
  forall s, contiguous_from s (date_range s n).
Proof.
  induction n as [| n IH]; intro s; [exact I |].
  rewrite date_range_cons. split; [reflexivity | apply IH].
Qed.

Lemma contiguous_date_range (l : list Z) :
  forall s, contiguous_from s l -> l = date_range s (List.length l).
Proof.
  induction l as [| d r IH]; intros s H; [reflexivity |].
  destruct H as [-> Hr]. cbn [List.length].
  rewrite date_range_cons. f_equal. now apply IH.
Qed.

Lemma date_range_bounds (n : nat) :
  forall s d, In d (date_range s n) -> s <= d < s + Z.of_nat n.
Proof.
  intros s d H. unfold date_range in H. apply in_map_iff in H.
  destruct H as [i [<- Hi]]. apply in_seq in Hi. lia.
Qed.

End CalendarFacts.

(** ** Risk scorer *)

Module RiskScorer.

Import Num NumFacts ForecastPower Scenarios.

Ltac branch_of_score :=
  repeat match goal with
    | H : Qle_bool _ _ = true |- _ => apply Qle_bool_iff in H
    | H : Qle_bool _ _ = false |- _ => apply Qle_bool_gt in H
    | H : Qltb _ _ = true |- _ => apply Qltb_lt in H
    | H : Qltb _ _ = false |- _ => apply Qltb_ge in H
    end.

Lemma rain_score_cases (mm : Q) :
  (mm <= 0 -> rain_score (Some mm) == 0) /\
  (0 < mm < 1 -> rain_score (Some mm) == 15) /\
  (1 <= mm < 5 -> rain_score (Some mm) == 40 + (mm - 1) / 4 * 30) /\
  (5 <= mm < 20 -> rain_score (Some mm) == 70 + (mm - 5) / 15 * 30) /\
  (20 <= mm -> rain_score (Some mm) == 100).
Proof.
  unfold rain_score.
  destruct (Qle_bool mm 0) eqn:E0;
    [| destruct (Qltb mm 1) eqn:E1;
       [| destruct (Qltb mm 5) eqn:E5;
          [| destruct (Qltb mm 20) eqn:E20 ] ] ];
    branch_of_score;
    repeat split; intros; try reflexivity; lra.
Qed.

Lemma risk_label_cases (score : Z) :
  (risk_label score = "High Risk"%string <-> (70 <= score)%Z) /\
  (risk_label score = "Medium Risk"%string <-> (40 <= score < 70)%Z) /\
  (risk_label score = "Low Risk"%string <-> (score < 40)%Z).
Proof.
  unfold risk_label.
  destruct (70 <=? score)%Z eqn:E70; [| destruct (40 <=? score)%Z eqn:E40];
    repeat split; intros; try reflexivity; try discriminate; lia.
Qed.

(** The integer score is a nearest integer of the real-valued one. *)
Lemma py_round_nearest (x : Q) :
  x - (1 # 2) <= inject_Z (py_round x) <= x + (1 # 2).
Proof.
  unfold py_round.
  pose proof (Qfloor_le x) as Hlo.
  pose proof (Qlt_floor x) as Hhi.
  rewrite inject_Z_plus in Hhi. change (inject_Z 1) with 1 in Hhi.
  destruct (Qcompare_spec (x - inject_Z (Qfloor x)) (1 # 2)) as [E | E | E].
  - destruct (Z.even (Qfloor x));
      [| rewrite inject_Z_plus; change (inject_Z 1) with 1]; lra.
  - lra.
  - rewrite inject_Z_plus. change (inject_Z 1) with 1. lra.
Qed.

(** C6.  For every non-negative amount [mm] the rain score is the
    piecewise map (0; 15; 40 + (mm-1)/4*30; 70 + (mm-5)/15*30; 100) on
    the five ranges of [mm]; the integer score is that value rounded to
    a nearest integer; the label is "High Risk" exactly when the integer
    score is at least 70, "Medium Risk" exactly when it is in [40, 70),
    "Low Risk" otherwise; and 0.5 mm scores 15 (low), 3 mm scores
    between 40 and 70 (medium), 25 mm scores 100 (high). *)
Theorem rain_score_piecewise_and_label (mm : Q) (Hmm : 0 <= mm) :
  ((mm <= 0 -> rain_score (Some mm) == 0) /\
   (0 < mm < 1 -> rain_score (Some mm) == 15) /\
   (1 <= mm < 5 -> rain_score (Some mm) == 40 + (mm - 1) / 4 * 30) /\
   (5 <= mm < 20 -> rain_score (Some mm) == 70 + (mm - 5) / 15 * 30) /\
   (20 <= mm -> rain_score (Some mm) == 100)) /\
  (rain_score (Some mm) - (1 # 2) <= inject_Z (score_of (Some mm))
     <= rain_score (Some mm) + (1 # 2)) /\
  ((risk_label (score_of (Some mm)) = "High Risk"%string
      <-> (70 <= score_of (Some mm))%Z) /\
   (risk_label (score_of (Some mm)) = "Medium Risk"%string
      <-> (40 <= score_of (Some mm) < 70)%Z) /\
   (risk_label (score_of (Some mm)) = "Low Risk"%string
      <-> (score_of (Some mm) < 40)%Z)) /\
  (score_of (Some (1 # 2)) = 15%Z /\
   risk_label (score_of (Some (1 # 2))) = "Low Risk"%string) /\
  ((40 <= score_of (Some 3%Q) < 70)%Z /\
   risk_label (score_of (Some 3)) = "Medium Risk"%string) /\
  (score_of (Some 25) = 100%Z /\
   risk_label (score_of (Some 25)) = "High Risk"%string).
Proof.
  split; [apply rain_score_cases |].
  split; [apply py_round_nearest |].
  split; [apply risk_label_cases |].
  repeat split; vm_compute; congruence.
Qed.

Lemma rain_score_piecewise_and_label_witness :
  0 <= 3 /\ rain_score (Some 3) == 40 + (3 - 1) / 4 * 30.
Proof.
  assert (H0 : 0 <= 3) by (unfold Qle; simpl; lia).
  split; [exact H0 |].
  destruct (rain_score_piecewise_and_label 3 H0) as [[_ [_ [H _]]] _].
  apply H. split; [unfold Qle | unfold Qlt]; simpl; lia.
Defined.

End RiskScorer.

(** ** The head of [main]: the Kelvin heuristic *)

Module SeriesPreparation.

Import Num NumFacts Frames ForecastPower Scenarios.

Lemma index_shift (df : frame) (k : Q) :
  index (map (fun dv => (fst dv, snd dv - k)) df) = index df.
Proof. unfold index. rewrite map_map. reflexivity. Qed.

Lemma values_shift (df : frame) (k : Q) :
  values (map (fun dv => (fst dv, snd dv - k)) df)
  = map (fun v => v - k) (values df).
Proof. unfold values. rewrite !map_map. reflexivity. Qed.

Lemma looks_like_kelvin_iff (df : frame) :
  looks_like_kelvin df = true <-> df <> [] /\ 200 < mean (values df).
Proof.
  destruct df as [| r df]; cbn [looks_like_kelvin].
  - split; [discriminate | intros [H _]; now contradiction H].
  - rewrite Qltb_lt. split; [intro H; split; [discriminate | exact H] | tauto].
Qed.

(** C10.  After the fetch and the removal of missing values, when the
    series is non-empty and its mean exceeds 200, exactly 273.15 is
    subtracted from every value (dates untouched); otherwise the series
    passes through unchanged; and the rest of [main] (fitting,
    forecasting, exceedance) runs on the series so prepared. *)
Theorem kelvin_heuristic (fetched : raw_frame) :
  let df := dropna fetched in
  (df <> [] -> 200 < mean (values df) ->
     index (prepare_series fetched) = index df /\
     values (prepare_series fetched)
     = map (fun v => v - (27315 # 100)) (values df)) /\
  (df = [] \/ mean (values df) <= 200 -> prepare_series fetched = df) /\
  (forall caps a today g df_temp df_prec df_wind,
      option_map df_fore
        (main caps a today g fetched df_temp df_prec df_wind)
      = option_map fst (forecast_stage caps a today g (prepare_series fetched)) /\
      option_map simulated
        (main caps a today g fetched df_temp df_prec df_wind)
      = option_map
          (fun pg => simulate_exceedance Nsim (snd pg) (threshold a) (fst pg))
          (forecast_stage caps a today g (prepare_series fetched))).
Proof.
  intro df. unfold prepare_series. fold df.
  split; [| split].
  - intros Hne Hmean.
    assert (E : looks_like_kelvin df = true)
      by (apply looks_like_kelvin_iff; now split).
    rewrite E. split; [apply index_shift | apply values_shift].
  - intros H.
    destruct (looks_like_kelvin df) eqn:E; [| reflexivity].
    apply looks_like_kelvin_iff in E. destruct E as [Hne Hmean].
    destruct H as [H | H]; [contradiction | lra].
  - intros caps a today g df_temp df_prec df_wind.
    unfold main, forecast_and_simulate, prepare_series. fold df.
    destruct (forecast_stage caps a today g
                (if looks_like_kelvin df
                 then map (fun dv => (fst dv, snd dv - kelvin_offset)) df
                 else df)) as [[path g'] |]; split; reflexivity.
Qed.

Lemma kelvin_heuristic_witness :
  values (prepare_series kelvin_sample)
  = map (fun v => v - (27315 # 100)) [300 # 1; 2965 # 10].
Proof.
  assert (Hne : dropna kelvin_sample <> []) by (simpl; discriminate).
  assert (Hmean : 200 < mean (values (dropna kelvin_sample)))
    by (unfold Qlt; vm_compute; reflexivity).
  destruct (kelvin_heuristic kelvin_sample) as [H _].
  exact (proj2 (H Hne Hmean)).
Defined.

End SeriesPreparation.

(** ** The fallback chain of the model fit *)

Module ModelFitting.

Import Num Frames Simulation ForecastPower Scenarios.

Lemma forecast_sarimax_returns (res : fitted) (s steps : Z) :
  (1 <= steps)%Z -> forecast_sarimax res s steps <> None.
Proof.
  intro H. unfold forecast_sarimax.
  destruct (steps <? 1)%Z eqn:E; [lia | discriminate].
Qed.

Lemma make_future_dataframe_returns (history : frame) (steps : Z) :
  (-1 <= steps)%Z -> make_future_dataframe history steps <> None.
Proof.
  intro H. unfold make_future_dataframe.
  destruct (steps + 1 <? 0)%Z eqn:E; [lia |].
  destruct (index_max (index history)); discriminate.
Qed.

Lemma forecast_prophet_none (caps : capabilities) (g : rng_state) (df : frame)
    (s steps : Z) :
  (-1 <= steps)%Z ->
  (forecast_prophet caps g df s steps = None <-> prophet_fit caps df = None).
Proof.
  intro Hsteps. unfold forecast_prophet.
  destruct (prophet_fit caps df) as [m |]; [| tauto].
  pose proof (make_future_dataframe_returns df steps Hsteps) as Hf.
  destruct (make_future_dataframe df steps) as [future |]; [| contradiction].
  cbn. split; discriminate.
Qed.

Lemma prophet_fit_spec (caps : capabilities) (df : frame) :
  (Prophet caps = None -> prophet_fit caps df = None) /\
  ((List.length df < 2)%nat -> prophet_fit caps df = None) /\
  (forall fit, Prophet caps = Some fit -> (2 <= List.length df)%nat ->
               prophet_fit caps df = fit df).
Proof.
  unfold prophet_fit. split; [| split].
  - intro H. now rewrite H.
  - intro H. destruct (Prophet caps); [| reflexivity].
    destruct (List.length df <? 2)%nat eqn:E; [reflexivity |].
    apply Nat.ltb_ge in E. lia.
  - intros fit H Hlen. rewrite H.
    destruct (List.length df <? 2)%nat eqn:E; [| reflexivity].
    apply Nat.ltb_lt in E. lia.
Qed.

(** C5.  [fit_sarimax] asks the automatic search for orders with
    seasonal period 365 when the series has more than 730 points and 7
    otherwise; when the search fails (or its library is absent) the
    orders are (1,0,0) and (0,0,0,0); a SARIMAX fit that succeeds is the
    one that forecasts; when [fit_sarimax] raises, the run forecasts
    with Prophet if that is available: a Prophet that is imported and
    fits the series gives the forecast, cut from the prediction of the
    fitted model; and the run ends without a forecast only when the
    SARIMAX fit and the Prophet fit both fail or are unavailable, the
    Prophet fit failing exactly when the import is missing, the series
    has fewer than two rows or the library's fit raises. *)
Theorem fit_fallback_chain (caps : capabilities) (a : cli) (today : Z)
    (g : rng_state) (df : frame) :
  let series := values df in
  ((730 < Z.of_nat (List.length series))%Z -> seasonal_period series = 365%Z) /\
  ((Z.of_nat (List.length series) <= 730)%Z -> seasonal_period series = 7%Z) /\
  (forall auto_arima found,
      pm caps = Some auto_arima ->
      auto_arima series (seasonal_period series) = Some found ->
      select_order caps series = found) /\
  (forall auto_arima,
      pm caps = Some auto_arima ->
      auto_arima series (seasonal_period series) = None ->
      select_order caps series = ((1, 0, 0)%Z, (0, 0, 0, 0)%Z)) /\
  (pm caps = None ->
   select_order caps series = ((1, 0, 0)%Z, (0, 0, 0, 0)%Z)) /\
  (forall fit,
      SARIMAX caps = Some fit ->
      fit_sarimax caps series
      = fit series (fst (select_order caps series))
            (snd (select_order caps series))) /\
  (SARIMAX caps = None -> fit_sarimax caps series = None) /\
  (forall model_res,
      fit_sarimax caps series = Some model_res ->
      forecast_stage caps a today g df
      = option_map (fun p => (p, g))
          (forecast_sarimax model_res (start_of a today) (forecast_days a))) /\
  (fit_sarimax caps series = None ->
   forecast_stage caps a today g df
   = forecast_prophet caps g df (start_of a today) (forecast_days a)) /\
  ((1 <= forecast_days a)%Z ->
   (forecast_stage caps a today g df = None <->
    fit_sarimax caps series = None /\ prophet_fit caps df = None)) /\
  (forall fit m,
      fit_sarimax caps series = None ->
      Prophet caps = Some fit ->
      (2 <= List.length df)%nat ->
      fit df = Some m ->
      (0 <= forecast_days a)%Z ->
      exists future,
        make_future_dataframe df (forecast_days a) = Some future /\
        forecast_stage caps a today g df
        = Some (filter (in_slice (start_of a today)
                                 (start_of a today + (forecast_days a - 1)))
                       (fst (predict m g future)),
                snd (predict m g future))) /\
  (prophet_fit caps df = None <->
   Prophet caps = None \/
   (List.length df < 2)%nat \/
   exists fit, Prophet caps = Some fit /\ fit df = None).
Proof.
  intro series.
  split; [| split]; [| | split; [| split; [| split; [| split; [| split;
    [| split; [| split; [| split; [| split]]]]]]]]].
  - intro H. unfold seasonal_period.
    destruct (365 * 2 <? Z.of_nat (List.length series))%Z eqn:E; [reflexivity | lia].
  - intro H. unfold seasonal_period.
    destruct (365 * 2 <? Z.of_nat (List.length series))%Z eqn:E; [lia | reflexivity].
  - intros auto found Hpm Hauto. unfold select_order. now rewrite Hpm, Hauto.
  - intros auto Hpm Hauto. unfold select_order. now rewrite Hpm, Hauto.
  - intro Hpm. unfold select_order. now rewrite Hpm.
  - intros fit Hfit. unfold fit_sarimax. rewrite Hfit.
    now destruct (select_order caps series).
  - intro Hs. unfold fit_sarimax. now rewrite Hs.
  - intros model_res Hres. unfold forecast_stage. fold series. now rewrite Hres.
  - intro Hnone. unfold forecast_stage. fold series. rewrite Hnone.
    destruct (Prophet caps) eqn:EP; [reflexivity |].
    unfold forecast_prophet, prophet_fit. now rewrite EP.
  - intro Hdays. unfold forecast_stage. fold series.
    destruct (fit_sarimax caps series) as [res |] eqn:Efit.
    + split.
      * intro H. exfalso.
        pose proof (forecast_sarimax_returns res (start_of a today)
                      (forecast_days a) Hdays) as Hr.
        destruct (forecast_sarimax res (start_of a today) (forecast_days a));
          [discriminate H | now apply Hr].
      * intros [H _]. discriminate.
    + destruct (Prophet caps) eqn:EP.
      * rewrite forecast_prophet_none by lia. tauto.
      * unfold prophet_fit. rewrite EP. tauto.
  - intros fit m Hnone HP Hlen Hfit Hdays.
    pose proof (make_future_dataframe_returns df (forecast_days a)) as Hf.
    destruct (make_future_dataframe df (forecast_days a)) as [future |] eqn:Ef;
      [| exfalso; apply Hf; [lia | reflexivity]].
    exists future. split; [reflexivity |].
    unfold forecast_stage. fold series. rewrite Hnone, HP.
    unfold forecast_prophet.
    destruct (prophet_fit_spec caps df) as [_ [_ Hp]].
    rewrite (Hp fit HP Hlen), Hfit, Ef. reflexivity.
  - destruct (prophet_fit_spec caps df) as [Hmiss [Hshort Hp]].
    split.
    + intro H. destruct (Prophet caps) as [fit |] eqn:EP; [| now left].
      right. destruct (Nat.lt_ge_cases (List.length df) 2) as [Hl | Hl];
        [now left |].
      right. exists fit. split; [reflexivity |].
      now rewrite <- (Hp fit eq_refl Hl).
    + intros [H | [H | [fit [HP H]]]].
      * now apply Hmiss.
      * now apply Hshort.
      * destruct (Nat.lt_ge_cases (List.length df) 2) as [Hl | Hl];
          [now apply Hshort |].
        now rewrite (Hp fit HP Hl).
Qed.

Lemma fit_fallback_chain_witness :
  select_order caps_search_fails (values [(738886%Z, 25)])
  = ((1, 0, 0)%Z, (0, 0, 0, 0)%Z)
  /\ (forecast_stage caps_search_fails cli_three_days 738900 every_second
                     [(738886%Z, 25)] = None
      <-> fit_sarimax caps_search_fails (values [(738886%Z, 25)]) = None
          /\ prophet_fit caps_search_fails [(738886%Z, 25)] = None)
  /\ exists future,
       make_future_dataframe recent_history 3 = Some future /\
       forecast_stage caps_prophet_only cli_no_override run_day every_second
                      recent_history
       = Some (filter (in_slice 738891 (738891 + (3 - 1)))
                      (fst (predict sampling_model every_second future)),
               snd (predict sampling_model every_second future)).
Proof.
  destruct (fit_fallback_chain caps_search_fails cli_three_days 738900
              every_second [(738886%Z, 25)])
    as [_ [_ [_ [Hfail [_ [_ [_ [_ [_ [Hfatal _]]]]]]]]]].
  destruct (fit_fallback_chain caps_prophet_only cli_no_override run_day
              every_second recent_history)
    as [_ [_ [_ [_ [_ [_ [_ [_ [_ [_ [Hfall _]]]]]]]]]]].
  split; [| split].
  - apply (Hfail (fun _ _ => None)); reflexivity.
  - apply Hfatal. simpl. lia.
  - apply (Hfall (fun _ => Some sampling_model) sampling_model).
    + reflexivity.
    + reflexivity.
    + simpl. lia.
    + reflexivity.
    + simpl. lia.
Defined.

End ModelFitting.

(** ** Climatology sampler and shrinkage blender *)

Module Shrinkage.

Import Num NumFacts Calendar Frames ForecastPower Properties Scenarios.

Lemma py_max_Qmax (a b : Q) : py_max a b == Qmax a b.
Proof.
  unfold py_max. destruct (Qltb a b) eqn:E.
  - apply Qltb_lt in E. symmetry. apply Q.max_r. lra.
  - apply Qltb_ge in E. symmetry. apply Q.max_l. exact E.
Qed.

Lemma py_min_Qmin (a b : Q) : py_min a b == Qmin a b.
Proof.
  unfold py_min. destruct (Qltb b a) eqn:E.
  - apply Qltb_lt in E. symmetry. apply Q.min_r. lra.
  - apply Qltb_ge in E. symmetry. apply Q.min_l. exact E.
Qed.

Lemma clamp_weight_spec (w : Q) :
  clamp_weight w == Qmax (3 # 10) (Qmin (9 # 10) w)
  /\ 3 # 10 <= clamp_weight w <= 9 # 10.
Proof.
  unfold clamp_weight. split.
  - rewrite py_max_Qmax, py_min_Qmin. reflexivity.
  - destruct (py_max_spec (3 # 10) (py_min (9 # 10) w)) as [H1 [H2 [H3 | H3]]];
      destruct (py_min_spec (9 # 10) w) as [H4 [H5 _]];
      (split; [exact H1 | rewrite H3; lra]).
Qed.

Lemma weight_prior_positive (vf vp : Q) :
  0 < vf -> 0 < vp ->
  weight_prior (Some vf) (Some vp) = Some (clamp_weight (vf / (vf + vp))).
Proof.
  intros Hf Hp. unfold weight_prior.
  apply Qltb_lt in Hf. apply Qltb_lt in Hp. now rewrite Hf, Hp.
Qed.

Lemma ensure_non_negative_spec (b : Q) :
  exists x, ensure_non_negative (Some b) = Some x /\ x == Qmax 0 b.
Proof.
  unfold ensure_non_negative. destruct (Qltb b 0) eqn:E.
  - exists 0. split; [reflexivity |]. apply Qltb_lt in E.
    symmetry. apply Q.max_l. lra.
  - exists b. split; [reflexivity |]. apply Qltb_ge in E.
    symmetry. apply Q.max_r. exact E.
Qed.

(** The blending step on its four inputs. *)
Lemma adjusted_prec_weighted (f p vf vp : Q) :
  0 < vf -> 0 < vp ->
  let w := clamp_weight (vf / (vf + vp)) in
  exists x,
    adjusted_prec (Some f) (Some vf) (Some p) (Some vp) = Some x /\
    x == Qmax 0 (w * p + (1 - w) * f).
Proof.
  intros Hf Hp w. unfold adjusted_prec, blend.
  rewrite (weight_prior_positive vf vp Hf Hp). fold w.
  apply ensure_non_negative_spec.
Qed.

(** **** Non-negative data *)

Lemma Qsum_non_negative (l : list Q) : non_negative l -> 0 <= Qsum l.
Proof.
  induction 1 as [| v l Hv Hl IH]; cbn [Qsum]; lra.
Qed.

Lemma Qlen_non_negative (l : list Q) : 0 <= Qlen l.
Proof.
  unfold Qlen. change 0 with (inject_Z 0). rewrite <- Zle_Qle. lia.
Qed.

Lemma Qdiv_non_negative (a b : Q) : 0 <= a -> 0 <= b -> 0 <= a / b.
Proof.
  intros Ha Hb. destruct (Qeq_dec b 0) as [E | E].
  - unfold Qdiv. rewrite E. change (/ 0) with 0. lra.
  - apply Qle_shift_div_l; lra.
Qed.

Lemma mean_non_negative (l : list Q) : non_negative l -> 0 <= mean l.
Proof.
  intro H. unfold mean.
  apply Qdiv_non_negative; [now apply Qsum_non_negative | apply Qlen_non_negative].
Qed.

Lemma insert_sorted_In (x y : Q) (l : list Q) :
  In y (insert_sorted x l) -> y = x \/ In y l.
Proof.
  induction l as [| z l IH]; cbn [insert_sorted].
  - intros [H | []]. now left.
  - destruct (Qle_bool x z).
    + intros [H | H]; [now left | now right].
    + intros [H | H]; [right; now left |].
      destruct (IH H) as [H' | H']; [now left | right; now right].
Qed.

Lemma sort_In (y : Q) (l : list Q) : In y (sort l) -> In y l.
Proof.
  unfold sort. induction l as [| x l IH]; cbn [fold_right]; [tauto |].
  intro H. apply insert_sorted_In in H.
  destruct H as [-> | H]; [now left | right; now apply IH].
Qed.

Lemma sort_non_negative (l : list Q) : non_negative l -> non_negative (sort l).
Proof.
  unfold non_negative. rewrite !Forall_forall.
  intros H y Hy. apply H. now apply sort_In.
Qed.

Lemma nth_non_negative (l : list Q) (i : nat) (d : Q) :
  non_negative l -> 0 <= d -> 0 <= nth i l d.
Proof.
  intros H Hd. destruct (nth_in_or_default i l d) as [Hin | ->]; [| exact Hd].
  unfold non_negative in H. rewrite Forall_forall in H. now apply H.
Qed.

Lemma median_non_negative (l : list Q) : non_negative l -> 0 <= Num.median l.
Proof.
  intro H. apply sort_non_negative in H. unfold Num.median.
  destruct (Nat.even (List.length l)).
  - assert (0 <= nth (List.length l / 2 - 1) (sort l) 0)
      by (apply nth_non_negative; [exact H | lra]).
    assert (0 <= nth (List.length l / 2) (sort l) 0)
      by (apply nth_non_negative; [exact H | lra]).
    apply Qdiv_non_negative; lra.
  - apply nth_non_negative; [exact H | lra].
Qed.

Lemma percentile_non_negative (l : list Q) (pct : Q) :
  non_negative l -> 0 <= percentile l pct.
Proof.
  intro H. apply sort_non_negative in H. unfold percentile.
  set (pos := (Qlen l - 1) * pct / 100).
  set (a := nth (Z.to_nat (Qfloor pos)) (sort l) 0).
  set (b := nth (S (Z.to_nat (Qfloor pos))) (sort l) a).
  assert (Ha : 0 <= a) by (apply nth_non_negative; [exact H | lra]).
  assert (Hb : 0 <= b) by (apply nth_non_negative; [exact H | exact Ha]).
  pose proof (Qfloor_le pos) as Hlo.
  pose proof (Qlt_floor pos) as Hhi.
  rewrite inject_Z_plus in Hhi. change (inject_Z 1) with 1 in Hhi.
  set (t := pos - inject_Z (Qfloor pos)).
  assert (Ht : 0 <= t <= 1) by (unfold t; lra).
  setoid_replace (a + t * (b - a)) with ((1 - t) * a + t * b) by ring.
  assert (0 <= (1 - t) * a) by (apply Qmult_le_0_compat; lra).
  assert (0 <= t * b) by (apply Qmult_le_0_compat; lra).
  lra.
Qed.

Lemma lookup_In (d : Z) (rows : frame) (v : Q) :
  lookup d rows = Some v -> In v (values rows).
Proof.
  unfold lookup. destruct (find _ rows) as [r |] eqn:E; [| discriminate].
  intro H. injection H as <-. apply find_some in E.
  unfold values. apply in_map. tauto.
Qed.

Lemma sample_day_window_In (df : option frame) (t : civil) (b sy ey : Z) (v : Q) :
  In v (sample_day_window df t b sy ey) ->
  exists rows, df = Some rows /\ In v (values rows).
Proof.
  unfold sample_day_window.
  destruct df as [[| r rows] |]; [intros [] | | intros []].
  intro H. exists (r :: rows). split; [reflexivity |].
  apply in_flat_map in H. destruct H as [y [_ H]].
  unfold window_of_year in H. apply in_flat_map in H.
  destruct H as [off [_ H]].
  destruct (timestamp y (month t) (day t)) as [ts |]; [| destruct H].
  destruct (lookup (ts + off) (r :: rows)) as [w |] eqn:E; [| destruct H].
  destruct H as [<- | []]. eapply lookup_In. exact E.
Qed.

Lemma sample_non_negative (rows : frame) (t : civil) (b sy ey : Z) :
  non_negative (values rows) ->
  non_negative (sample_day_window (Some rows) t b sy ey).
Proof.
  unfold non_negative. rewrite !Forall_forall. intros H v Hv.
  apply sample_day_window_In in Hv. destruct Hv as [rows' [E Hin]].
  injection E as <-. now apply H.
Qed.

Lemma tail_non_negative (k : nat) (l : list Q) :
  non_negative l -> non_negative (tail k l).
Proof.
  unfold non_negative, tail. rewrite !Forall_forall. intros H v Hv.
  apply H. rewrite <- (firstn_skipn (List.length l - k) l).
  apply in_or_app. now right.
Qed.

(** **** The blend when both variances are usable *)

Lemma recent_prec_var_some (df_prec : option frame) (vf : Q) :
  recent_prec_var df_prec = Some vf ->
  exists r rows, df_prec = Some (r :: rows).
Proof.
  unfold recent_prec_var. destruct df_prec as [[| r rows] |]; try discriminate.
  intros _. now exists r, rows.
Qed.

Lemma prior_prec_var_some (sample : list Q) (vp : Q) :
  prior_prec_var sample (hist_stats_from_array sample) = Some vp ->
  exists st, hist_stats_from_array sample = Some st
             /\ median st = Num.median sample.
Proof.
  unfold prior_prec_var. destruct sample as [| v sample].
  - cbn. discriminate.
  - intros _. eexists. split; reflexivity.
Qed.

(** Outside the domain of C7: for negative amounts, which no
    precipitation series holds, the blend is negative and the guard of
    lines 619-621 replaces it by 0. *)
Lemma adjusted_prec_is_not_always_the_blend :
  let c := compact_summary None negative_amounts None second_of_january 2024 2024 in
  let sample := sample_day_window negative_amounts second_of_january buffer 2024 2024 in
  exists vf vp f p w x,
    recent_prec_var negative_amounts = Some vf /\
    prior_prec_var sample (hist_stats_from_array sample) = Some vp /\
    0 < vf /\ 0 < vp /\
    forecast_raw_precip c = Some f /\
    prior_mean_prec (stats_prec c) (historical_avg_precip c) = Some p /\
    weight_prior (Some vf) (Some vp) = Some w /\
    forecast_adjusted_precip c = Some x /\
    ~ x == w * p + (1 - w) * f.
Proof.
  cbv zeta.
  eexists; eexists; eexists; eexists; eexists; eexists.
  split; [vm_compute; reflexivity |].
  split; [vm_compute; reflexivity |].
  split; [vm_compute; reflexivity |].
  split; [vm_compute; reflexivity |].
  split; [vm_compute; reflexivity |].
  split; [vm_compute; reflexivity |].
  split; [vm_compute; reflexivity |].
  split; [vm_compute; reflexivity |].
  vm_compute. discriminate.
Qed.

(** C7.  Whenever the recent variance [vf] and the prior variance [vp]
    both exist and are positive, the raw forecast [f] and the prior
    mean [p] (the window median) exist, the weight on the prior is
    [clamp(vf / (vf + vp), 0.3, 0.9)], so that [0.3 <= w <= 0.9], and
    for every series of precipitation amounts (none of them negative)
    the adjusted value is [w*p + (1-w)*f].  The guard of lines 619-621
    makes it [max(0, w*p + (1-w)*f)] in general, which is the blend
    whenever the blend is not negative. *)
Theorem shrinkage_weight_and_blend (df_temp df_prec df_wind : option frame)
    (tomorrow : civil) (start_yr end_yr : Z) (vf vp : Q) :
  let sample := sample_day_window df_prec tomorrow buffer start_yr end_yr in
  let c := compact_summary df_temp df_prec df_wind tomorrow start_yr end_yr in
  recent_prec_var df_prec = Some vf ->
  prior_prec_var sample (hist_stats_from_array sample) = Some vp ->
  0 < vf -> 0 < vp ->
  exists f p w x,
    forecast_raw_precip c = Some f /\
    prior_mean_prec (stats_prec c) (historical_avg_precip c) = Some p /\
    p = Num.median sample /\
    weight_prior (Some vf) (Some vp) = Some w /\
    w == Qmax (3 # 10) (Qmin (9 # 10) (vf / (vf + vp))) /\
    3 # 10 <= w <= 9 # 10 /\
    forecast_adjusted_precip c = Some x /\
    x == Qmax 0 (w * p + (1 - w) * f) /\
    (0 <= w * p + (1 - w) * f -> x == w * p + (1 - w) * f) /\
    (forall rows, df_prec = Some rows -> non_negative (values rows) ->
                  x == w * p + (1 - w) * f).
Proof.
  intros sample c Hrv Hpv Hf Hp.
  destruct (recent_prec_var_some _ _ Hrv) as [r [rows Edf]].
  destruct (prior_prec_var_some _ _ Hpv) as [st [Est Emed]].
  set (f := mean (tail 7 (values (r :: rows)))).
  set (w := clamp_weight (vf / (vf + vp))).
  destruct (adjusted_prec_weighted f (median st) vf vp Hf Hp) as [x [Hx Hmax]].
  fold w in Hmax.
  destruct (clamp_weight_spec (vf / (vf + vp))) as [Hw Hbounds]. fold w in Hw, Hbounds.
  assert (Hadj : forecast_adjusted_precip c = Some x).
  { unfold c, compact_summary, compact_of_samples. cbn [forecast_adjusted_precip].
    fold sample. rewrite Hrv, Hpv, Est. cbn [prior_mean_prec].
    subst df_prec. cbn [recent_mean]. exact Hx. }
  exists f, (median st), w, x.
  split; [unfold c, compact_summary, compact_of_samples; cbn [forecast_raw_precip];
          subst df_prec; reflexivity |].
  split; [unfold c, compact_summary, compact_of_samples; cbn [stats_prec historical_avg_precip];
          fold sample; rewrite Est; reflexivity |].
  split; [exact Emed |].
  split; [now apply weight_prior_positive |].
  split; [exact Hw |].
  split; [exact Hbounds |].
  split; [exact Hadj |].
  split; [exact Hmax |].
  split.
  - intro Hge. rewrite Hmax. apply Q.max_r. exact Hge.
  - intros rows' Erows Hnn. rewrite Hmax. apply Q.max_r.
    rewrite Edf in Erows. injection Erows as <-.
    assert (Hfn : 0 <= f) by (apply mean_non_negative, tail_non_negative, Hnn).
    assert (Hpn : 0 <= median st).
    { rewrite Emed. apply median_non_negative.
      unfold sample. rewrite Edf. now apply sample_non_negative. }
    assert (0 <= w * median st) by (apply Qmult_le_0_compat; lra).
    assert (0 <= (1 - w) * f) by (apply Qmult_le_0_compat; lra).
    lra.
Qed.

Lemma shrinkage_weight_and_blend_witness :
  exists f p w x,
    forecast_raw_precip
      (compact_summary None wet_january None second_of_january 2024 2024) = Some f /\
    weight_prior (Some wet_recent_var) (Some wet_prior_var) = Some w /\
    3 # 10 <= w <= 9 # 10 /\
    forecast_adjusted_precip
      (compact_summary None wet_january None second_of_january 2024 2024) = Some x /\
    x == w * p + (1 - w) * f.
Proof.
  assert (Hrv : recent_prec_var wet_january = Some wet_recent_var)
    by (vm_compute; reflexivity).
  assert (Hpv : prior_prec_var
                  (sample_day_window wet_january second_of_january buffer 2024 2024)
                  (hist_stats_from_array
                     (sample_day_window wet_january second_of_january buffer 2024 2024))
                = Some wet_prior_var)
    by (vm_compute; reflexivity).
  assert (Hposf : 0 < wet_recent_var) by (vm_compute; reflexivity).
  assert (Hposp : 0 < wet_prior_var) by (vm_compute; reflexivity).
  destruct (shrinkage_weight_and_blend None wet_january None second_of_january
              2024 2024 wet_recent_var wet_prior_var Hrv Hpv Hposf Hposp)
    as [f [p [w [x [Hf [_ [_ [Hw [_ [Hb [Hx [_ [_ Hnn]]]]]]]]]]]]].
  exists f, p, w, x.
  repeat split; try assumption; try apply Hb.
  apply (Hnn _ eq_refl).
  repeat constructor; unfold Qle; simpl; lia.
Defined.

(** **** The display value *)

Lemma display_prec_value (adjusted forecast_prec : option Q)
    (stats : option hist_stats) (havg : option Q) (x : Q) :
  display_prec adjusted forecast_prec stats havg = Some x ->
  exists y, x = py_max 0 y /\
            forall st, stats = Some st ->
                       py_min (p25 st) (p75 st) <= y <= py_max (p25 st) (p75 st).
Proof.
  unfold display_prec.
  destruct (first_some adjusted forecast_prec) as [bp |]; [| discriminate].
  destruct stats as [st |]; cbn [display_bounds].
  - intro H. injection H as <-. eexists. split; [reflexivity |].
    intros st' E. injection E as <-.
    set (lo := py_min (p25 st) (p75 st)). set (hi := py_max (p25 st) (p75 st)).
    assert (Hlohi : lo <= hi).
    { destruct (py_min_spec (p25 st) (p75 st)) as [H1 _].
      destruct (py_max_spec (p25 st) (p75 st)) as [H2 _].
      unfold lo, hi. lra. }
    destruct (py_max_spec bp lo) as [_ [H3 _]].
    destruct (py_min_spec (py_max bp lo) hi) as [H4 [H5 [H6 | H6]]];
      rewrite H6 in H4, H5 |- *; split; lra.
  - destruct havg as [avg |]; intro H; injection H as <-;
      (eexists; split; [reflexivity | discriminate]).
Qed.

(** Outside the domain of C8: for negative amounts, which no
    precipitation series holds, both quartiles are negative and the
    display value is 0, above them. *)
Lemma display_prec_can_leave_the_quartile_interval :
  let c := compact_summary None negative_amounts None second_of_january 2024 2024 in
  exists x st,
    forecast_precip c = Some x /\
    stats_prec c = Some st /\
    ~ (Qmin (p25 st) (p75 st) <= x <= Qmax (p25 st) (p75 st)).
Proof.
  cbv zeta. eexists; eexists.
  split; [vm_compute; reflexivity |].
  split; [vm_compute; reflexivity |].
  intros [_ H]. revert H. vm_compute. intro H. apply H. reflexivity.
Qed.

(** C8.  Every display value is non-negative, and when both quartiles
    exist the display value of a series of precipitation amounts (none
    of them negative) lies within [min(p25,p75), max(p25,p75)].  In
    general it is at least [min(p25,p75)] and at most
    [max(0, max(p25,p75))], hence within the interval whenever the
    upper quartile bound is not negative. *)
Theorem display_prec_bounds (df_temp df_prec df_wind : option frame)
    (tomorrow : civil) (start_yr end_yr : Z) (x : Q) :
  let c := compact_summary df_temp df_prec df_wind tomorrow start_yr end_yr in
  forecast_precip c = Some x ->
  0 <= x /\
  forall st, stats_prec c = Some st ->
    Qmin (p25 st) (p75 st) <= x /\
    x <= Qmax 0 (Qmax (p25 st) (p75 st)) /\
    (0 <= Qmax (p25 st) (p75 st) ->
     Qmin (p25 st) (p75 st) <= x <= Qmax (p25 st) (p75 st)) /\
    (forall rows, df_prec = Some rows -> non_negative (values rows) ->
     Qmin (p25 st) (p75 st) <= x <= Qmax (p25 st) (p75 st)).
Proof.
  intros c Hx. unfold c, compact_summary, compact_of_samples in Hx. cbn [forecast_precip] in Hx.
  apply display_prec_value in Hx. destruct Hx as [y [-> Hy]].
  destruct (py_max_spec 0 y) as [H0 [H1 Hor]].
  split; [exact H0 |].
  intros st Est. unfold c, compact_summary, compact_of_samples in Est. cbn [stats_prec] in Est.
  specialize (Hy st Est).
  rewrite py_min_Qmin, py_max_Qmax in Hy.
  assert (Hupper : py_max 0 y <= Qmax 0 (Qmax (p25 st) (p75 st))).
  { rewrite py_max_Qmax. apply Q.max_le_compat_l. apply Hy. }
  assert (Hif : 0 <= Qmax (p25 st) (p75 st) ->
                Qmin (p25 st) (p75 st) <= py_max 0 y <= Qmax (p25 st) (p75 st)).
  { intro Hge. split; [lra |].
    destruct Hor as [E | E]; rewrite E; [exact Hge | apply Hy]. }
  split; [lra |]. split; [exact Hupper |]. split; [exact Hif |].
  intros rows Erows Hnn. apply Hif.
  apply Qle_trans with (p75 st); [| apply Q.le_max_r].
  subst df_prec.
  pose proof (sample_non_negative rows tomorrow buffer start_yr end_yr Hnn) as Hs.
  destruct (sample_day_window (Some rows) tomorrow buffer start_yr end_yr)
    as [| v sample] eqn:Esample; [discriminate |].
  injection Est as <-. cbn [p75].
  now apply percentile_non_negative.
Qed.

Lemma display_prec_bounds_witness :
  exists x st,
    forecast_precip
      (compact_summary None wet_january None second_of_january 2024 2024) = Some x /\
    stats_prec
      (compact_summary None wet_january None second_of_january 2024 2024) = Some st /\
    0 <= x /\ Qmin (p25 st) (p75 st) <= x <= Qmax (p25 st) (p75 st).
Proof.
  eexists. eexists.
  split; [vm_compute; reflexivity |].
  split; [vm_compute; reflexivity |].
  match goal with
  | |- 0 <= ?x /\ _ =>
      destruct (display_prec_bounds None wet_january None second_of_january
                  2024 2024 x ltac:(vm_compute; reflexivity)) as [H0 H]
  end.
  split; [exact H0 |].
  match goal with
  | |- Qmin (p25 ?st) _ <= _ <= _ =>
      destruct (H st ltac:(vm_compute; reflexivity)) as [_ [_ [_ Hnn]]]
  end.
  apply (Hnn _ eq_refl).
  repeat constructor; unfold Qle; simpl; lia.
Defined.

(** **** An empty day window *)

(** C9, as stated, fails: with an empty day window the statistics are
    [None], yet the adjusted value is not the raw forecast. *)
Lemma empty_window_does_not_keep_the_raw_forecast :
  let c := compact_summary None dry_after_new_year None first_of_july 2024 2024 in
  sample_day_window dry_after_new_year first_of_july buffer 2024 2024 = [] /\
  stats_prec c = None /\
  exists f x,
    forecast_raw_precip c = Some f /\
    forecast_adjusted_precip c = Some x /\
    ~ x == f.
Proof.
  cbv zeta.
  split; [vm_compute; reflexivity |].
  split; [vm_compute; reflexivity |].
  eexists; eexists.
  split; [vm_compute; reflexivity |].
  split; [vm_compute; reflexivity |].
  vm_compute. discriminate.
Qed.

(** C9 (amended).  An empty day window gives [None] as the statistics
    of that variable.  For precipitation the prior mean is then the mean
    of the whole series, no weight is computed, and the adjusted value
    is the posterior mean [(f/v + m/1) / (1/v + 1/1)] of the raw
    forecast [f] and that mean [m], with [v] the recent variance (1 when
    it is missing or not positive), floored at 0. *)
Theorem empty_window_uses_series_mean (df_temp df_prec df_wind : option frame)
    (tomorrow : civil) (start_yr end_yr : Z) :
  let c := compact_summary df_temp df_prec df_wind tomorrow start_yr end_yr in
  (sample_day_window df_temp tomorrow buffer start_yr end_yr = [] ->
   stats_temp c = None) /\
  (sample_day_window df_wind tomorrow buffer start_yr end_yr = [] ->
   stats_wind c = None) /\
  (sample_day_window df_prec tomorrow buffer start_yr end_yr = [] ->
   stats_prec c = None /\
   forall r rows, df_prec = Some (r :: rows) ->
     let f := mean (tail 7 (values (r :: rows))) in
     let m := mean (values (r :: rows)) in
     let v := usable_var (recent_prec_var df_prec) in
     forecast_raw_precip c = Some f /\
     historical_avg_precip c = Some m /\
     0 < v /\
     exists x,
       forecast_adjusted_precip c = Some x /\
       x == Qmax 0 ((f / v + m / 1) / (1 / v + 1 / 1))).
Proof.
  intro c. unfold c, compact_summary, compact_of_samples.
  cbn [stats_temp stats_wind stats_prec forecast_raw_precip
       historical_avg_precip forecast_adjusted_precip].
  split; [intros ->; reflexivity |].
  split; [intros ->; reflexivity |].
  intros ->. split; [reflexivity |].
  intros r rows ->.
  set (f := mean (tail 7 (values (r :: rows)))).
  set (m := mean (values (r :: rows))).
  set (v := usable_var (recent_prec_var (Some (r :: rows)))).
  split; [reflexivity |]. split; [reflexivity |].
  split.
  - unfold v, usable_var.
    destruct (recent_prec_var (Some (r :: rows))) as [rv |]; [| lra].
    destruct (Qltb 0 rv) eqn:E; [now apply Qltb_lt in E | lra].
  - cbn [hist_stats_from_array prior_mean_prec hist_avg recent_mean
         prior_prec_var List.length Nat.ltb Nat.leb adjusted_prec].
    unfold blend.
    assert (Hw : weight_prior (recent_prec_var (Some (r :: rows))) None = None)
      by (unfold weight_prior; now destruct (recent_prec_var (Some (r :: rows)))).
    rewrite Hw. cbn [compute_shrunk usable_var]. fold f m v.
    apply ensure_non_negative_spec.
Qed.

Lemma empty_window_uses_series_mean_witness :
  stats_prec (compact_summary None dry_after_new_year None first_of_july 2024 2024)
  = None
  /\ historical_avg_precip
       (compact_summary None dry_after_new_year None first_of_july 2024 2024)
     = Some (mean (values (the_frame dry_after_new_year))).
Proof.
  destruct (empty_window_uses_series_mean None dry_after_new_year None
              first_of_july 2024 2024) as [_ [_ H]].
  destruct (H ltac:(vm_compute; reflexivity)) as [Hstats Hrest].
  split; [exact Hstats |].
  destruct (Hrest _ _ eq_refl) as [_ [Havg _]]. exact Havg.
Defined.

End Shrinkage.

(** ** Uncertainty simulator *)

Module Exceedance.

Import Num NumFacts Frames Simulation Scenarios.

Lemma normal_row_length (g : rng_state) (N i : nat) (m s : Q) :
  List.length (normal_row g N i m s) = N.
Proof. unfold normal_row. now rewrite length_map, length_seq. Qed.

Lemma normal_from_length (g : rng_state) (N : nat) (ls : list (Q * Q)) :
  forall i, List.length (normal_from g N i ls) = List.length ls.
Proof.
  induction ls as [| [m s] ls IH]; intro i; cbn [normal_from List.length];
    [reflexivity | now rewrite IH].
Qed.

Lemma normal_from_rows (g : rng_state) (N : nat) (ls : list (Q * Q)) :
  forall i row, In row (normal_from g N i ls) -> List.length row = N.
Proof.
  induction ls as [| [m s] ls IH]; intros i row; cbn [normal_from];
    [intros [] |].
  intros [<- | H]; [apply normal_row_length | eapply IH; exact H].
Qed.

(** The two generators need only agree on the draws that are consumed. *)
Lemma normal_from_ext (g1 g2 : rng_state) (N : nat) (ls : list (Q * Q)) :
  forall i,
    (forall k, (k < (i + List.length ls) * N)%nat -> g1 k = g2 k) ->
    normal_from g1 N i ls = normal_from g2 N i ls.
Proof.
  induction ls as [| [m s] ls IH]; intros i H; cbn [normal_from];
    [reflexivity |].
  f_equal.
  - unfold normal_row. apply map_ext_in. intros j Hj. apply in_seq in Hj.
    rewrite H; [reflexivity |]. cbn [List.length]. nia.
  - apply IH. intros k Hk. apply H. cbn [List.length]. nia.
Qed.

Lemma random_normal_ext (g1 g2 : rng_state) (N : nat) (ls : list (Q * Q)) :
  (forall k, (k < List.length ls * N)%nat -> g1 k = g2 k) ->
  random_normal g1 ls N = random_normal g2 ls N.
Proof. intro H. unfold random_normal. apply normal_from_ext. exact H. Qed.

Lemma count_exceeding_le (T : Q) (l : list Q) :
  (count_exceeding T l <= List.length l)%nat.
Proof.
  unfold count_exceeding. induction l as [| x l IH]; cbn [filter List.length];
    [lia |].
  destruct (Qltb T x); cbn [List.length]; lia.
Qed.

Lemma Qsum_indicator (T : Q) (l : list Q) :
  Qsum (map b2q (map (fun x => Qltb T x) l))
  == inject_Z (Z.of_nat (count_exceeding T l)).
Proof.
  unfold count_exceeding. induction l as [| x l IH]; cbn [map Qsum filter];
    [reflexivity |].
  rewrite IH. destruct (Qltb T x); cbn [b2q List.length].
  - rewrite Nat2Z.inj_succ, <- Z.add_1_l, inject_Z_plus. reflexivity.
  - lra.
Qed.

Lemma fraction_unit (k n : nat) :
  (k <= n)%nat -> (0 < n)%nat -> 0 <= fraction k n <= 1.
Proof.
  intros Hk Hn. unfold fraction.
  assert (Hn' : 0 < inject_Z (Z.of_nat n))
    by (change 0 with (inject_Z 0); rewrite <- Zlt_Qlt; lia).
  assert (Hk0 : 0 <= inject_Z (Z.of_nat k))
    by (change 0 with (inject_Z 0); rewrite <- Zle_Qle; lia).
  assert (Hkn : inject_Z (Z.of_nat k) <= inject_Z (Z.of_nat n))
    by (rewrite <- Zle_Qle; lia).
  split.
  - apply Qle_shift_div_l; [exact Hn' | lra].
  - apply Qle_shift_div_r; [exact Hn' | lra].
Qed.

(** The mean of the indicator cells of a non-empty block of samples is
    the fraction of the samples above the threshold. *)
Lemma bool_mean_fraction (T : Q) (samples : list Q) :
  samples <> [] ->
  exists q,
    bool_mean (map (fun x => Qltb T x) samples) = Fin q /\
    q == fraction (count_exceeding T samples) (List.length samples) /\
    0 <= q <= 1.
Proof.
  intro Hne. destruct samples as [| x l]; [contradiction |].
  set (s := x :: l).
  assert (Hlen : (0 < List.length s)%nat) by (cbn; lia).
  eexists. split; [reflexivity |].
  assert (E : Qsum (map b2q (map (fun x => Qltb T x) s))
              / inject_Z (Z.of_nat (List.length (map (fun x => Qltb T x) s)))
              == fraction (count_exceeding T s) (List.length s)).
  { unfold fraction. rewrite length_map, Qsum_indicator. reflexivity. }
  split; [exact E |]. rewrite E.
  apply fraction_unit; [apply count_exceeding_le | exact Hlen].
Qed.

Lemma concat_length_uniform (N : nat) (m : list (list Q)) :
  (forall row, In row m -> List.length row = N) ->
  List.length (List.concat m) = (List.length m * N)%nat.
Proof.
  induction m as [| row m IH]; intro H; cbn [List.concat List.length];
    [reflexivity |].
  rewrite length_app, IH by (intros r Hr; apply H; now right).
  rewrite (H row) by now left. lia.
Qed.

(** What lines 398-400 (and 226-228 of the multivariate script) compute
    from a matrix of [D] rows of [N] samples. *)
Lemma exceedance_of_matrix (T : Q) (N : nat) (sims : list (list Q)) :
  (0 < N)%nat -> sims <> [] ->
  (forall row, In row sims -> List.length row = N) ->
  List.length (mean_axis1 (exceeds T sims)) = List.length sims /\
  (forall i, (i < List.length sims)%nat ->
     exists q,
       nth i (mean_axis1 (exceeds T sims)) NaN = Fin q /\
       q == fraction (count_exceeding T (nth i sims [])) N /\
       0 <= q <= 1) /\
  (exists q,
     mean_all (exceeds T sims) = Fin q /\
     q == fraction (count_exceeding T (List.concat sims))
                   (List.length sims * N) /\
     0 <= q <= 1).
Proof.
  intros HN Hne Hrows. unfold mean_axis1, exceeds, mean_all.
  split; [now rewrite !length_map |].
  split.
  - intros i Hi. rewrite map_map.
    change NaN with ((fun row => bool_mean (map (fun x => Qltb T x) row)) []).
    rewrite map_nth.
    assert (Hin : In (nth i sims []) sims) by now apply nth_In.
    pose proof (Hrows _ Hin) as Hlen.
    destruct (bool_mean_fraction T (nth i sims [])) as [q [Hq [Hfrac Hunit]]].
    { intro E. rewrite E in Hlen. cbn in Hlen. lia. }
    exists q. rewrite Hlen in Hfrac. now repeat split.
  - rewrite <- concat_map.
    pose proof (concat_length_uniform N sims Hrows) as Hlen.
    destruct (bool_mean_fraction T (List.concat sims)) as [q [Hq [Hfrac Hunit]]].
    { intro E. rewrite E in Hlen. cbn in Hlen.
      destruct sims; [contradiction | cbn in Hlen; lia]. }
    exists q. rewrite Hlen in Hfrac. now repeat split.
Qed.

Lemma random_normal_shape (g : rng_state) (N : nat) (ls : list (Q * Q)) :
  List.length (random_normal g ls N) = List.length ls /\
  forall row, In row (random_normal g ls N) -> List.length row = N.
Proof.
  unfold random_normal. split;
    [apply normal_from_length | apply normal_from_rows].
Qed.

Lemma random_normal_nonempty (g : rng_state) (N : nat) (ls : list (Q * Q)) :
  ls <> [] -> random_normal g ls N <> [].
Proof.
  intros Hne E. apply (f_equal (@List.length _)) in E.
  rewrite (proj1 (random_normal_shape g N ls)) in E.
  destruct ls; [contradiction | discriminate].
Qed.

(** C2.  With [N >= 1] draws per day and a non-empty forecast path,
    each per-day exceedance probability is the fraction of that day's
    [N] samples that exceed [T] and lies in [0,1], and the pooled
    probability is the fraction of all day-by-sample cells that exceed
    [T] and lies in [0,1], in [forecast_power] and in
    [forecast_multivariate] alike; for an empty path [forecast_power]
    reports not-a-number as the pooled probability. *)
Theorem exceedance_probabilities_are_fractions (N : nat) (g : rng_state) (T : Q)
    (path : list forecast_row) (mv_path : list (Z * Q))
    (residual_std : option Q) :
  (0 < N)%nat ->
  (path <> [] ->
   let sims :=
     random_normal g
       (map (fun r => (row_mean r, ForecastPower.row_std r)) path) N in
   let e := ForecastPower.simulate_exceedance N g T path in
   List.length (ForecastPower.prob_per_day e) = List.length path /\
   (forall i, (i < List.length path)%nat ->
      exists q,
        nth i (ForecastPower.prob_per_day e) NaN = Fin q /\
        List.length (nth i sims []) = N /\
        q == fraction (count_exceeding T (nth i sims [])) N /\
        0 <= q <= 1) /\
   (exists q,
      ForecastPower.overall_prob e = Fin q /\
      q == fraction (count_exceeding T (List.concat sims))
                    (List.length path * N) /\
      0 <= q <= 1)) /\
  ForecastPower.overall_prob (ForecastPower.simulate_exceedance N g T []) = NaN /\
  (mv_path <> [] ->
   let sims := ForecastMultivariate.simulate_uncertainty g mv_path residual_std N in
   let e := ForecastMultivariate.exceedance_probabilities g T mv_path residual_std N in
   List.length (fst e) = List.length mv_path /\
   (forall i, (i < List.length mv_path)%nat ->
      exists q,
        nth i (fst e) NaN = Fin q /\
        List.length (nth i sims []) = N /\
        q == fraction (count_exceeding T (nth i sims [])) N /\
        0 <= q <= 1) /\
   (exists q,
      snd e = Fin q /\
      q == fraction (count_exceeding T (List.concat sims))
                    (List.length mv_path * N) /\
      0 <= q <= 1)).
Proof.
  intro HN. split; [| split; [reflexivity |]].
  - intros Hne sims e.
    set (ls := map (fun r => (row_mean r, ForecastPower.row_std r)) path) in *.
    assert (Hls : ls <> []) by (unfold ls; destruct path; [contradiction | discriminate]).
    destruct (random_normal_shape g N ls) as [Hlen Hrows]. fold sims in Hlen, Hrows.
    assert (Hlen' : List.length sims = List.length path)
      by (rewrite Hlen; unfold ls; apply length_map).
    destruct (exceedance_of_matrix T N sims HN
                (random_normal_nonempty g N ls Hls) Hrows) as [H1 [H2 H3]].
    assert (He : e = ForecastPower.mkExceedance (mean_axis1 (exceeds T sims))
                                                (mean_all (exceeds T sims))).
    { unfold e, ForecastPower.simulate_exceedance.
      destruct path; [contradiction | reflexivity]. }
    rewrite He. cbn [ForecastPower.prob_per_day ForecastPower.overall_prob].
    rewrite <- Hlen'. split; [exact H1 |]. split; [| exact H3].
    intros i Hi. destruct (H2 i Hi) as [q [Hq [Hf Hu]]].
    exists q. repeat split; try assumption; try apply Hu.
    apply Hrows. now apply nth_In.
  - intros Hne sims e.
    unfold ForecastMultivariate.simulate_uncertainty in sims.
    set (ls := map (fun r => (snd r, ForecastMultivariate.res_std residual_std))
                   mv_path) in *.
    assert (Hls : ls <> [])
      by (unfold ls; destruct mv_path; [contradiction | discriminate]).
    destruct (random_normal_shape g N ls) as [Hlen Hrows]. fold sims in Hlen, Hrows.
    assert (Hlen' : List.length sims = List.length mv_path)
      by (rewrite Hlen; unfold ls; apply length_map).
    destruct (exceedance_of_matrix T N sims HN
                (random_normal_nonempty g N ls Hls) Hrows) as [H1 [H2 H3]].
    unfold e, ForecastMultivariate.exceedance_probabilities,
      ForecastMultivariate.simulate_uncertainty.
    fold ls. fold sims. cbn [fst snd].
    rewrite <- Hlen'. split; [exact H1 |]. split; [| exact H3].
    intros i Hi. destruct (H2 i Hi) as [q [Hq [Hf Hu]]].
    exists q. repeat split; try assumption; try apply Hu.
    apply Hrows. now apply nth_In.
Qed.

Lemma exceedance_probabilities_are_fractions_witness :
  exists q,
    ForecastPower.overall_prob
      (ForecastPower.simulate_exceedance 4 alternating 32 two_days) = Fin q /\
    0 <= q <= 1.
Proof.
  assert (HN : (0 < 4)%nat) by lia.
  assert (Hne : two_days <> []) by discriminate.
  destruct (exceedance_probabilities_are_fractions 4 alternating 32 two_days
              [] None HN) as [H _].
  destruct (H Hne) as [_ [_ [q [Hq [_ Hu]]]]].
  exists q. split; [exact Hq | exact Hu].
Defined.

End Exceedance.

(** ** What a run depends on *)

Module Determinism.

Import Num Frames Simulation ForecastPower Properties Exceedance Scenarios.

Lemma simulate_exceedance_ext (N : nat) (g1 g2 : rng_state) (T : Q)
    (path : list forecast_row) :
  (forall k, (k < List.length path * N)%nat -> g1 k = g2 k) ->
  simulate_exceedance N g1 T path = simulate_exceedance N g2 T path.
Proof.
  intro H. unfold simulate_exceedance.
  destruct path as [| r path]; [reflexivity |].
  rewrite (random_normal_ext g1 g2 N
             (map (fun r0 => (row_mean r0, row_std r0)) (r :: path)));
    [reflexivity |].
  rewrite length_map. exact H.
Qed.

(** C3, as stated, fails: the scripts take no seed and never seed the
    generator, and two runs on identical inputs report different
    simulated exceedance probabilities when the generator starts in
    different states. *)
Lemma same_inputs_different_probabilities :
  exists r1 r2 q1 q2,
    main caps_sarimax_only cli_one_day 738888 every_second mild_week
         None None None = Some r1 /\
    main caps_sarimax_only cli_one_day 738888 every_fourth mild_week
         None None None = Some r2 /\
    overall_prob (simulated r1) = Fin q1 /\
    overall_prob (simulated r2) = Fin q2 /\
    ~ q1 == q2.
Proof.
  eexists; eexists; eexists; eexists.
  split; [vm_compute; reflexivity |].
  split; [vm_compute; reflexivity |].
  split; [vm_compute; reflexivity |].
  split; [vm_compute; reflexivity |].
  vm_compute. discriminate.
Qed.

(** On the Prophet path the forecast frame itself depends on the
    generator: the interval bounds are quantiles of sampled
    trajectories. *)
Lemma prophet_path_depends_on_draws :
  exists r1 r2,
    main caps_prophet_only cli_day_after 738888 every_second mild_week
         None None None = Some r1 /\
    main caps_prophet_only cli_day_after 738888 always_one mild_week
         None None None = Some r2 /\
    map row_mean (df_fore r1) = map row_mean (df_fore r2) /\
    map row_lower (df_fore r1) <> map row_lower (df_fore r2).
Proof.
  eexists; eexists.
  split; [vm_compute; reflexivity |].
  split; [vm_compute; reflexivity |].
  split; [vm_compute; reflexivity |].
  vm_compute. discriminate.
Qed.

Lemma in_slice_row (lo hi d : Z) (m l u : Q) :
  in_slice lo hi (mkRow d m l u) = ((lo <=? d) && (d <=? hi))%Z.
Proof. reflexivity. Qed.

Lemma point_forecast_dates (p q : list forecast_row) :
  point_forecast p = point_forecast q -> path_dates p = path_dates q.
Proof.
  unfold point_forecast, path_dates. intro H.
  apply (f_equal (map fst)) in H. rewrite !map_map in H. exact H.
Qed.

Lemma predict_point_forecast (m : prophet_model) (g1 g2 : rng_state)
    (future dates : list Z) (lo hi : Z) :
  point_forecast
    (filter (in_slice lo hi)
       (map (fun d => mkRow d (yhat m d)
                            (fst (yhat_interval m g1 future d))
                            (snd (yhat_interval m g1 future d))) dates))
  = point_forecast
      (filter (in_slice lo hi)
         (map (fun d => mkRow d (yhat m d)
                              (fst (yhat_interval m g2 future d))
                              (snd (yhat_interval m g2 future d))) dates)).
Proof.
  induction dates as [| d dates IH]; [reflexivity |].
  cbn [map filter]. rewrite !in_slice_row.
  destruct ((lo <=? d) && (d <=? hi))%Z; [| exact IH].
  unfold point_forecast in *. cbn [map row_date row_mean]. now rewrite IH.
Qed.

(** What the forecast stage returns for two generator states: nothing
    for both, or frames with the same days and the same point
    forecasts. *)
Lemma forecast_stage_point_forecast (caps : capabilities) (a : cli)
    (today : Z) (g1 g2 : rng_state) (df : frame) :
  option_map (fun pg => point_forecast (fst pg)) (forecast_stage caps a today g1 df)
  = option_map (fun pg => point_forecast (fst pg)) (forecast_stage caps a today g2 df).
Proof.
  unfold forecast_stage.
  destruct (fit_sarimax caps (values df)) as [res |].
  - destruct (forecast_sarimax res (start_of a today) (forecast_days a));
      reflexivity.
  - destruct (Prophet caps); [| reflexivity].
    unfold forecast_prophet.
    destruct (prophet_fit caps df) as [m |]; [| reflexivity].
    destruct (make_future_dataframe df (forecast_days a)) as [future |];
      [| reflexivity].
    unfold predict. cbn [option_map fst].
    now rewrite (predict_point_forecast m g1 g2 future future).
Qed.

Lemma train_model_generator (lib : option ForecastMultivariate.sklearn)
    (g1 g2 : rng_state) (df : list (string * list (option Q)))
    (target_col : string) (lags : nat) :
  match ForecastMultivariate.train_model lib g1 df target_col lags,
        ForecastMultivariate.train_model lib g2 df target_col lags with
  | Some (m1, f1, r1, g1'), Some (m2, f2, r2, g2') =>
      m1 = m2 /\ f1 = f2 /\ r1 = r2 /\ g1' = g1 /\ g2' = g2
  | None, None => True
  | _, _ => False
  end.
Proof.
  unfold ForecastMultivariate.train_model.
  destruct lib as [sk |]; [| exact I].
  destruct (assoc target_col df) as [target |]; [| exact I].
  destruct (ForecastMultivariate.train_test_split _) as [[train test] |];
    [| exact I].
  cbn [ForecastMultivariate.RandomForestRegressor_fit]. repeat split.
Qed.

Lemma exceedance_probabilities_ext (g1 g2 : rng_state) (T : Q)
    (path : list (Z * Q)) (residual_std : option Q) (nsim : nat) :
  (forall k, (k < List.length path * nsim)%nat -> g1 k = g2 k) ->
  ForecastMultivariate.exceedance_probabilities g1 T path residual_std nsim
  = ForecastMultivariate.exceedance_probabilities g2 T path residual_std nsim.
Proof.
  intro Hg.
  unfold ForecastMultivariate.exceedance_probabilities,
    ForecastMultivariate.simulate_uncertainty.
  rewrite (random_normal_ext g1 g2 nsim); [reflexivity |].
  rewrite length_map. exact Hg.
Qed.

(** C3 (amended).  Neither script takes a seed.  In [forecast_power] the
    days and the point forecasts of the forecast path and the compact
    summary with its risk score do not depend on the state of the
    process-wide generator; on the SARIMAX path the whole forecast path
    does not, and the run's report is the same for two generators that
    agree on the draws consumed, one per day and sample.  (On the
    Prophet path the interval bounds are themselves sampled.)  In
    [forecast_multivariate] the random forest is seeded with the
    constant 0, so the forecast path does not depend on the generator,
    and the whole outcome is the same for two generators that agree on
    the draws consumed. *)
Theorem run_is_function_of_inputs_and_draws (caps : capabilities) (a : cli)
    (today : Z) (g1 g2 : rng_state) (fetched : raw_frame)
    (df_temp df_prec df_wind : option frame) :
  let run := fun g => main caps a today g fetched df_temp df_prec df_wind in
  option_map (fun r => point_forecast (df_fore r)) (run g1)
  = option_map (fun r => point_forecast (df_fore r)) (run g2) /\
  option_map compact_json (run g1) = option_map compact_json (run g2) /\
  (fit_sarimax caps (values (prepare_series fetched)) <> None ->
   option_map df_fore (run g1) = option_map df_fore (run g2)) /\
  (forall path,
      fit_sarimax caps (values (prepare_series fetched)) <> None ->
      option_map df_fore (run g1) = Some path ->
      (forall k, (k < List.length path * Nsim)%nat -> g1 k = g2 k) ->
      run g1 = run g2) /\
  (forall lib sqrt t vars T days lags,
      let mv := fun g => ForecastMultivariate.main lib sqrt g t vars T days lags in
      option_map ForecastMultivariate.df_fore (mv g1)
      = option_map ForecastMultivariate.df_fore (mv g2) /\
      forall path,
        option_map ForecastMultivariate.df_fore (mv g1) = Some path ->
        (forall k, (k < List.length path * 2000)%nat -> g1 k = g2 k) ->
        mv g1 = mv g2).
Proof.
  intro run.
  assert (Hpoint : option_map (fun r => point_forecast (df_fore r)) (run g1)
                   = option_map (fun r => point_forecast (df_fore r)) (run g2)).
  { unfold run, main, forecast_and_simulate.
    pose proof (forecast_stage_point_forecast caps a today g1 g2
                  (prepare_series fetched)) as H.
    destruct (forecast_stage caps a today g1 (prepare_series fetched))
      as [[p1 g1'] |];
      destruct (forecast_stage caps a today g2 (prepare_series fetched))
        as [[p2 g2'] |]; cbn [option_map fst df_fore] in *;
      congruence. }
  split; [exact Hpoint |].
  split; [| split; [| split]].
  - unfold run, main, forecast_and_simulate in *.
    destruct (forecast_stage caps a today g1 (prepare_series fetched))
      as [[p1 g1'] |];
      destruct (forecast_stage caps a today g2 (prepare_series fetched))
        as [[p2 g2'] |]; cbn [option_map fst df_fore compact_json] in *;
      try discriminate; [| reflexivity].
    injection Hpoint as Hp. apply point_forecast_dates in Hp.
    now rewrite Hp.
  - intro Hfit. unfold run, main, forecast_and_simulate, forecast_stage.
    destruct (fit_sarimax caps (values (prepare_series fetched))) as [res |];
      [| contradiction].
    destruct (forecast_sarimax res (start_of a today) (forecast_days a));
      reflexivity.
  - intros path Hfit Hpath Hg.
    unfold run, main, forecast_and_simulate, forecast_stage in *.
    destruct (fit_sarimax caps (values (prepare_series fetched))) as [res |];
      [| contradiction].
    destruct (forecast_sarimax res (start_of a today) (forecast_days a))
      as [p |]; [| discriminate].
    cbn [option_map df_fore] in *. injection Hpath as ->.
    now rewrite (simulate_exceedance_ext Nsim g1 g2 (threshold a) path Hg).
  - intros lib sqrt t vars T days lags mv.
    unfold mv, ForecastMultivariate.main.
    destruct lib as [sk |]; [| split; [reflexivity | discriminate]].
    set (df := ForecastMultivariate.fill_gaps _).
    pose proof (train_model_generator (Some sk) g1 g2 (snd df) "T2M"
                  (Z.to_nat lags)) as Htm.
    destruct (ForecastMultivariate.train_model (Some sk) g1 (snd df) "T2M"
                (Z.to_nat lags)) as [[[[m1 f1] r1] g1'] |];
      destruct (ForecastMultivariate.train_model (Some sk) g2 (snd df) "T2M"
                  (Z.to_nat lags)) as [[[[m2 f2] r2] g2'] |];
      try contradiction; [| split; [reflexivity | discriminate]].
    destruct Htm as [-> [-> [-> [-> ->]]]].
    destruct (ForecastMultivariate.to_columns (snd df)) as [hist |];
      [| split; [reflexivity | discriminate]].
    destruct (ForecastMultivariate.iterative_forecast m2 (fst df) hist days f2
                (Z.to_nat lags)) as [fore |];
      [| split; [reflexivity | discriminate]].
    split.
    + destruct (ForecastMultivariate.exceedance_probabilities g1 T fore _ 2000);
        destruct (ForecastMultivariate.exceedance_probabilities g2 T fore _ 2000);
        reflexivity.
    + intros path Hpath Hg.
      assert (Hfore : path = fore).
      { destruct (ForecastMultivariate.exceedance_probabilities g1 T fore _ 2000).
        cbn in Hpath. congruence. }
      subst path.
      now rewrite (exceedance_probabilities_ext g1 g2 T fore _ 2000 Hg).
Qed.

Lemma run_is_function_of_inputs_and_draws_witness :
  main caps_sarimax_only cli_one_day 738888 every_second mild_week
       None None None
  = main caps_sarimax_only cli_one_day 738888 every_second_then_zero mild_week
         None None None.
Proof.
  destruct (run_is_function_of_inputs_and_draws caps_sarimax_only cli_one_day
              738888 every_second every_second_then_zero mild_week
              None None None) as [_ [_ [_ [H _]]]].
  apply (H [mkRow 738889 25 24 26]).
  - vm_compute. discriminate.
  - vm_compute. reflexivity.
  - intros k Hk. unfold every_second_then_zero.
    destruct (k <? 2000)%nat eqn:E; [reflexivity |].
    apply Nat.ltb_ge in E. change (List.length [mkRow 738889 25 24 26]) with 1%nat in Hk.
    unfold Nsim in Hk. lia.
Defined.

End Determinism.

(** ** Sentinel values in the fetch routines *)

Module SentinelHandling.

Import Num NumFacts Frames Scenarios.

Lemma insert_row_In {A : Type} (x y : Z * A) (l : list (Z * A)) :
  In y (insert_row x l) -> y = x \/ In y l.
Proof.
  induction l as [| z l IH]; cbn [insert_row].
  - intros [H | []]. now left.
  - destruct (fst x <=? fst z)%Z.
    + intros [H | H]; [now left | now right].
    + intros [H | H]; [right; now left |].
      destruct (IH H) as [H' | H']; [now left | right; now right].
Qed.

Lemma sort_rows_In {A : Type} (y : Z * A) (l : list (Z * A)) :
  In y (sort_rows l) -> In y l.
Proof.
  unfold sort_rows. induction l as [| x l IH]; cbn [fold_right]; [tauto |].
  intro H. apply insert_row_In in H.
  destruct H as [-> | H]; [now left | right; now apply IH].
Qed.

Lemma dropna_In (d : Z) (v : Q) (rows : raw_frame) :
  In (d, v) (dropna rows) -> In (d, Some v) rows.
Proof.
  induction rows as [| [d' [v' |]] rows IH]; cbn [dropna]; [tauto | |].
  - intros [H | H]; [injection H as -> ->; now left | right; now apply IH].
  - intro H. right. now apply IH.
Qed.

Lemma mask_sentinel_some (c : option Q) (v : Q) :
  mask_sentinel c = Some v -> c = Some v /\ -900 < v.
Proof.
  destruct c as [x |]; cbn [mask_sentinel]; [| discriminate].
  unfold is_sentinel. destruct (Qle_bool x (-900)) eqn:E; [discriminate |].
  intro H. injection H as ->. split; [reflexivity |].
  now apply Qle_bool_gt.
Qed.

(** The univariate routine does what C4 asks: no number at or below
    -900 survives in the frame [fetch_power_point] returns, on the JSON
    branch and on the CSV branch. *)
Lemma fetch_power_point_masks_sentinels (r : ForecastPower.response)
    (parameter : string) (rows : raw_frame) :
  ForecastPower.fetch_power_point r parameter = Some rows ->
  forall d v, In (d, Some v) rows -> -900 < v.
Proof.
  unfold ForecastPower.fetch_power_point. destruct r as [data | t].
  - destruct (flat_map ForecastPower.json_row data) as [| r0 rest] eqn:E;
      [discriminate |].
    intro H. injection H as <-. intros d v Hin.
    apply (sort_rows_In _ (r0 :: rest)) in Hin. rewrite <- E in Hin.
    apply in_flat_map in Hin. destruct Hin as [[k c] [_ Hin]].
    destruct k as [dt |]; cbn [ForecastPower.json_row] in Hin; [| destruct Hin].
    destruct Hin as [Hin | []]. injection Hin as _ Hmask.
    now apply mask_sentinel_some in Hmask.
  - destruct (find_col _ (csv_cols t)) as [[name cells] |]; [| discriminate].
    intro H. injection H as <-. intros d v Hin.
    apply in_map_iff in Hin. destruct Hin as [[d' v'] [E Hin]].
    cbn [fst snd] in E. injection E as -> ->.
    apply sort_rows_In, dropna_In in Hin.
    apply in_combine_r in Hin. apply in_map_iff in Hin.
    destruct Hin as [c [Hmask _]].
    now apply mask_sentinel_some in Hmask.
Qed.

(** C4 at the failing input.  The multivariate fetch and gap filling
    hand the fill value -999 on as a temperature, where the univariate
    fetch of the same document drops that day. *)
Theorem multivariate_fetch_keeps_fill_value :
  ForecastMultivariate.load csv_with_fill_value ["T2M"%string]
  = ([738886%Z; 738887%Z; 738888%Z],
     [("T2M"%string, [Some 20; Some (- (999 # 1)); Some 21])])
  /\ is_sentinel (- (999 # 1)) = true
  /\ ForecastPower.fetch_power_point
       (ForecastPower.CsvFallback csv_with_fill_value) "T2M"
     = Some [(738886%Z, Some 20); (738888%Z, Some 21)].
Proof.
  split; [vm_compute; reflexivity |].
  split; vm_compute; reflexivity.
Qed.

End SentinelHandling.

(** ** Forecast paths *)

Module ForecastPaths.

Import Num Calendar CalendarFacts Frames Properties Scenarios.
Local Open Scope Z_scope.

Lemma date_range_daily_path (start n : Z) :
  daily_path start n (date_range start (Z.to_nat n)).
Proof.
  split; [apply date_range_length |].
  split; [apply date_range_contiguous |].
  eapply contiguous_increasing. apply date_range_contiguous.
Qed.

(** *** [forecast_sarimax] *)

Lemma map_fst_combine {A B : Type} (l : list A) :
  forall l' : list B, List.length l = List.length l' -> map fst (combine l l') = l.
Proof.
  induction l as [| a l IH]; intros [| b l'] H; cbn in *; try reflexivity;
    try discriminate.
  f_equal. apply IH. lia.
Qed.

Lemma row_date_to_row (d : Z) (p : Q * Q * Q) :
  row_date (ForecastPower.to_row d p) = d.
Proof. destruct p as [[m lo] hi]. reflexivity. Qed.

Lemma forecast_sarimax_dates (res : ForecastPower.fitted) (start steps : Z) :
  1 <= steps ->
  exists p,
    ForecastPower.forecast_sarimax res start steps = Some p /\
    path_dates p = date_range start (Z.to_nat steps).
Proof.
  intro H. unfold ForecastPower.forecast_sarimax.
  destruct (steps <? 1) eqn:E; [lia |].
  eexists. split; [reflexivity |].
  unfold path_dates. rewrite map_map.
  erewrite map_ext; [| intro dp; apply row_date_to_row].
  apply map_fst_combine.
  unfold ForecastPower.get_forecast.
  now rewrite date_range_length, length_map, length_seq.
Qed.

(** *** [forecast_prophet] *)

Lemma fold_left_max_ge (l : list Z) :
  forall a, a <= fold_left Z.max l a /\
            forall d, In d l -> d <= fold_left Z.max l a.
Proof.
  induction l as [| x l IH]; intro a; cbn [fold_left].
  - split; [lia | intros d []].
  - destruct (IH (Z.max a x)) as [H1 H2]. split; [lia |].
    intros d [<- | Hd]; [lia | now apply H2].
Qed.

Lemma index_max_upper (l : list Z) (last : Z) :
  index_max l = Some last -> forall d, In d l -> d <= last.
Proof.
  destruct l as [| x l]; [discriminate |]. cbn [index_max].
  intro H. injection H as <-.
  destruct (fold_left_max_ge l x) as [H1 H2].
  intros d [<- | Hd]; [exact H1 | now apply H2].
Qed.

Lemma filter_all_false {A : Type} (f : A -> bool) (l : list A) :
  (forall x, In x l -> f x = false) -> filter f l = [].
Proof.
  induction l as [| x l IH]; intro H; cbn [filter]; [reflexivity |].
  rewrite (H x) by now left. apply IH. intros y Hy. apply H. now right.
Qed.

Lemma filter_all_true {A : Type} (f : A -> bool) (l : list A) :
  (forall x, In x l -> f x = true) -> filter f l = l.
Proof.
  induction l as [| x l IH]; intro H; cbn [filter]; [reflexivity |].
  rewrite (H x) by now left. f_equal. apply IH. intros y Hy. apply H. now right.
Qed.

Lemma forecast_prophet_dates (caps : ForecastPower.capabilities)
    (g : Simulation.rng_state) (history : frame) (steps last : Z)
    (m : ForecastPower.prophet_model) :
  1 <= steps ->
  ForecastPower.prophet_fit caps history = Some m ->
  index_max (index history) = Some last ->
  exists p g',
    ForecastPower.forecast_prophet caps g history (last + 1) steps
    = Some (p, g') /\
    path_dates p = date_range (last + 1) (Z.to_nat steps).
Proof.
  intros Hsteps Hfit Hlast. unfold ForecastPower.forecast_prophet.
  rewrite Hfit.
  unfold ForecastPower.make_future_dataframe. rewrite Hlast.
  destruct (steps + 1 <? 0) eqn:E; [lia |].
  unfold ForecastPower.predict. eexists. eexists. split; [reflexivity |].
  rewrite map_app, filter_app.
  rewrite filter_all_false, filter_all_true.
  - cbn [app]. unfold path_dates. rewrite map_map. cbn [row_date].
    apply map_id.
  - intros r Hr. apply in_map_iff in Hr. destruct Hr as [d [<- Hd]].
    unfold ForecastPower.in_slice. cbn [row_date].
    apply date_range_bounds in Hd. lia.
  - intros r Hr. apply in_map_iff in Hr. destruct Hr as [d [<- Hd]].
    unfold ForecastPower.in_slice. cbn [row_date].
    pose proof (index_max_upper _ _ Hlast d Hd). lia.
Qed.

(** *** [iterative_forecast] *)

Import ForecastMultivariate.

Lemma sequence_app {A : Type} (l1 l2 : list (option A)) (x1 x2 : list A) :
  sequence l1 = Some x1 -> sequence l2 = Some x2 ->
  sequence (l1 ++ l2) = Some (x1 ++ x2).
Proof.
  revert x1. induction l1 as [| [a |] l1 IH]; intros x1 H1 H2; cbn in *.
  - injection H1 as <-. exact H2.
  - destruct (sequence l1) as [xs |]; [| discriminate].
    injection H1 as <-. now rewrite (IH xs eq_refl H2).
  - discriminate.
Qed.

Lemma sequence_map {A B : Type} (f : A -> option B) (R : A -> B -> Prop)
    (l : list A) :
  (forall a, In a l -> exists b, f a = Some b /\ R a b) ->
  exists bs, sequence (map f l) = Some bs /\ Forall2 R l bs.
Proof.
  induction l as [| a l IH]; intro H; cbn [map sequence].
  - exists []. split; [reflexivity | constructor].
  - destruct (H a (or_introl eq_refl)) as [b [Hb HR]].
    destruct IH as [bs [Hbs HF]]; [intros a' Ha'; apply H; now right |].
    exists (b :: bs). rewrite Hb, Hbs. split; [reflexivity | now constructor].
Qed.

Lemma py_index_in_range (vals : list Q) (i : Z) :
  - Z.of_nat (List.length vals) <= i < Z.of_nat (List.length vals) ->
  exists v, py_index vals i = Some v.
Proof.
  intro H. unfold py_index.
  set (n := Z.of_nat (List.length vals)) in *.
  set (k := if i <? 0 then n + i else i).
  assert (Hk : 0 <= k < n) by (unfold k; destruct (i <? 0) eqn:E; lia).
  replace ((0 <=? k) && (k <? n))%bool with true
    by (symmetry; apply andb_true_iff; split; lia).
  destruct (nth_error vals (Z.to_nat k)) as [v |] eqn:E; [now exists v |].
  apply nth_error_None in E. unfold n in Hk. lia.
Qed.

Lemma lag_value_some (vals : list Q) (lag : nat) :
  vals <> [] -> exists v, lag_value vals lag = Some v.
Proof.
  intro Hne.
  assert (Hlen : 0 < Z.of_nat (List.length vals))
    by (destruct vals; [contradiction | cbn [List.length]; lia]).
  unfold lag_value.
  destruct (Z.abs (- Z.of_nat lag) <=? Z.of_nat (List.length vals)) eqn:E;
    apply py_index_in_range; lia.
Qed.

Lemma column_features_keys (lags : nat) (col : string) (vals : list Q) :
  vals <> [] ->
  exists entries,
    column_features lags (col, vals) = Some entries /\
    map fst entries = feature_names lags [col].
Proof.
  intro Hne. unfold column_features, feature_names. cbn [flat_map].
  rewrite app_nil_r.
  destruct (sequence_map
              (fun lag => named (lag_name col lag) (lag_value vals lag))
              (fun lag kv => fst kv = lag_name col lag) (seq 1 lags))
    as [lagged [Hseq HF]].
  { intros lag _. destruct (lag_value_some vals lag Hne) as [v Hv].
    exists (lag_name col lag, v). unfold named. rewrite Hv. now split. }
  destruct (py_index_in_range vals (-1)) as [v Hv].
  { destruct vals; [contradiction | cbn [List.length]; lia]. }
  exists (lagged ++ [(curr_name col, v)]). split.
  - apply sequence_app; [exact Hseq |]. unfold named. now rewrite Hv.
  - rewrite map_app. f_equal.
    clear Hseq. induction HF as [| lag kv ls kvs Hk _ IH]; cbn [map];
      [reflexivity | now rewrite Hk, IH].
Qed.

Lemma feature_names_cons (lags : nat) (col : string) (names : list string) :
  feature_names lags (col :: names)
  = feature_names lags [col] ++ feature_names lags names.
Proof. unfold feature_names. cbn [flat_map]. now rewrite app_nil_r. Qed.

Lemma feature_row_keys (lags : nat) (history : columns) :
  (forall c, In c history -> snd c <> []) ->
  exists row,
    feature_row lags history = Some row /\
    map fst row = feature_names lags (map fst history).
Proof.
  intro Hne. unfold feature_row.
  destruct (sequence_map (column_features lags)
              (fun c entries => map fst entries = feature_names lags [fst c])
              history) as [blocks [Hseq HF]].
  { intros [col vals] Hc. apply column_features_keys. exact (Hne _ Hc). }
  rewrite Hseq. cbn [option_map]. eexists. split; [reflexivity |].
  clear Hseq Hne. induction HF as [| c entries cs blocks Hk _ IH].
  - reflexivity.
  - cbn [List.concat map]. now rewrite map_app, Hk, IH, <- feature_names_cons.
Qed.

Lemma dict_get_some (row : list (string * Q)) (c : string) :
  In c (map fst row) -> exists v, dict_get row c = Some v.
Proof.
  intro H. unfold dict_get.
  destruct (find (fun kv => String.eqb (fst kv) c) (rev row)) as [kv |] eqn:E;
    [now exists (snd kv) |].
  exfalso. apply in_map_iff in H. destruct H as [kv [<- Hin]].
  apply in_rev in Hin.
  pose proof (find_none _ _ E kv Hin) as Hf. cbn beta in Hf.
  now rewrite String.eqb_refl in Hf.
Qed.

Lemma feature_vector_some (row : list (string * Q)) (features_cols : list string) :
  (forall c, In c features_cols -> In c (map fst row)) ->
  exists x, feature_vector row features_cols = Some x.
Proof.
  intro H. unfold feature_vector.
  destruct (sequence_map (dict_get row) (fun _ _ => True) features_cols)
    as [x [Hx _]]; [| now exists x].
  intros c Hc. destruct (dict_get_some row c (H c Hc)) as [v Hv]. now exists v.
Qed.

Lemma extend_history_shape (ypred : Q) (history : columns) :
  (forall c, In c history -> snd c <> []) ->
  exists history',
    extend_history ypred history = Some history' /\
    map fst history' = map fst history /\
    (forall c, In c history' -> snd c <> []).
Proof.
  intro Hne. unfold extend_history.
  destruct (sequence_map (extend_column ypred)
              (fun c c' => fst c' = fst c /\ snd c' <> []) history)
    as [history' [Hseq HF]].
  { intros [col vals] Hc. unfold extend_column.
    destruct (String.eqb col "T2M").
    - eexists. split; [reflexivity |]. split; [reflexivity |].
      cbn [snd]. intro E. now apply app_eq_nil in E.
    - destruct (py_index_in_range vals (-1)) as [v Hv].
      { pose proof (Hne _ Hc) as Hv. cbn [snd] in Hv.
        destruct vals; [contradiction | cbn [List.length]; lia]. }
      rewrite Hv. eexists. split; [reflexivity |]. split; [reflexivity |].
      cbn [snd]. intro E. now apply app_eq_nil in E. }
  exists history'. split; [exact Hseq |].
  clear Hseq Hne. induction HF as [| c c' cs cs' [Hk Hv] _ [IH1 IH2]].
  - split; [reflexivity | intros c []].
  - split; [cbn [map]; now rewrite Hk, IH1 |].
    intros d [<- | Hd]; [exact Hv | now apply IH2].
Qed.

Lemma forecast_loop_dates (predict : list Q -> Q) (features_cols : list string)
    (lags : nat) (last_date : Z) (steps : list Z) :
  forall history,
    (forall c, In c history -> snd c <> []) ->
    (forall f, In f features_cols ->
               In f (feature_names lags (map fst history))) ->
    exists results,
      forecast_loop predict features_cols lags last_date steps history
      = Some results /\
      map fst results = map (fun step => last_date + step) steps.
Proof.
  induction steps as [| step steps IH]; intros history Hne Hfeat;
    cbn [forecast_loop].
  - exists []. now split.
  - destruct (feature_row_keys lags history Hne) as [row [Hrow Hkeys]].
    rewrite Hrow.
    destruct (feature_vector_some row features_cols) as [x Hx].
    { intros c Hc. rewrite Hkeys. now apply Hfeat. }
    rewrite Hx.
    destruct (extend_history_shape (predict x) history Hne)
      as [history' [Hext [Hnames Hne']]].
    rewrite Hext.
    destruct (IH history' Hne') as [results [Hres Hdates]].
    { intros f Hf. rewrite Hnames. now apply Hfeat. }
    rewrite Hres. eexists. split; [reflexivity |].
    cbn [map fst]. now rewrite Hdates.
Qed.

Lemma iterative_forecast_dates (predict : list Q -> Q) (index : list Z)
    (df_hist : columns) (forecast_days : Z) (features_cols : list string)
    (lags : nat) (last : Z) :
  1 <= forecast_days ->
  index_max index = Some last ->
  (forall c, In c df_hist -> snd c <> []) ->
  (forall f, In f features_cols ->
             In f (feature_names lags (map fst df_hist))) ->
  exists p,
    iterative_forecast predict index df_hist forecast_days features_cols lags
    = Some p /\
    map fst p = date_range (last + 1) (Z.to_nat forecast_days).
Proof.
  intros Hdays Hlast Hne Hfeat. unfold iterative_forecast. rewrite Hlast.
  destruct (forecast_loop_dates predict features_cols lags last
              (zrange 1 (forecast_days + 1)) df_hist Hne Hfeat)
    as [results [Hres Hdates]].
  rewrite Hres.
  assert (E : map (fun step => last + step) (zrange 1 (forecast_days + 1))
              = date_range (last + 1) (Z.to_nat forecast_days)).
  { unfold zrange, date_range. rewrite map_map.
    replace (forecast_days + 1 - 1) with forecast_days by lia.
    apply map_ext. intro i. lia. }
  rewrite E in Hdates.
  destruct results as [| r results].
  - exfalso. apply (f_equal (@List.length _)) in Hdates.
    rewrite date_range_length in Hdates. cbn in Hdates. lia.
  - eexists. split; [reflexivity | exact Hdates].
Qed.

(** *** The claim *)

Import ForecastPower.

(** C1, as stated, fails twice on a three-day horizon without
    [--forecast-start]: on the Prophet path the forecast frame has one
    row, not three; and on the SARIMAX path the three days do not begin
    on the day after the last historical day. *)
Lemma forecast_path_can_be_short_or_begin_later :
  (exists p g',
      forecast_stage caps_prophet_only cli_no_override run_day every_second
                     recent_history
      = Some (p, g') /\
      List.length p <> Z.to_nat (forecast_days cli_no_override)) /\
  (exists p g' last,
      forecast_stage caps_statsmodels_only cli_no_override run_day every_second
                     recent_history
      = Some (p, g') /\
      forecast_start cli_no_override = None /\
      index_max (index recent_history) = Some last /\
      ~ contiguous_from (last + 1) (path_dates p)).
Proof.
  split.
  - eexists; eexists. split; [cbv; reflexivity |]. cbv. discriminate.
  - eexists; eexists; eexists.
    split; [cbv; reflexivity |].
    split; [reflexivity |].
    split; [vm_compute; reflexivity |].
    vm_compute. intros [H _]. discriminate H.
Qed.

(** C1 (amended).  For a horizon of at least one day:
    [forecast_sarimax] returns exactly that many rows on consecutive,
    strictly increasing days that begin at the start date it is given,
    which in a run is the [--forecast-start] date or else the day after
    the day of the run; [forecast_prophet] does so when its start date is
    the day after the last historical day; and [iterative_forecast]
    returns exactly [forecast_days] rows on consecutive, strictly
    increasing days that begin the day after the last historical day. *)
Theorem forecast_path_dates :
  (forall res start steps,
      1 <= steps ->
      exists p,
        forecast_sarimax res start steps = Some p /\
        daily_path start steps (path_dates p)) /\
  (forall caps a today g df res,
      1 <= forecast_days a ->
      fit_sarimax caps (values df) = Some res ->
      exists p,
        forecast_stage caps a today g df = Some (p, g) /\
        daily_path (start_of a today) (forecast_days a) (path_dates p)) /\
  (forall a today,
      (forall d, forecast_start a = Some d -> start_of a today = d) /\
      (forecast_start a = None -> start_of a today = today + 1)) /\
  (forall caps g history steps last m,
      1 <= steps ->
      prophet_fit caps history = Some m ->
      index_max (index history) = Some last ->
      exists p g',
        forecast_prophet caps g history (last + 1) steps = Some (p, g') /\
        daily_path (last + 1) steps (path_dates p)) /\
  (forall predict index df_hist days features_cols lags last,
      1 <= days ->
      index_max index = Some last ->
      (forall c, In c df_hist -> snd c <> []) ->
      (forall f, In f features_cols ->
                 In f (feature_names lags (map fst df_hist))) ->
      exists p,
        iterative_forecast predict index df_hist days features_cols lags
        = Some p /\
        daily_path (last + 1) days (map fst p)).
Proof.
  split; [| split; [| split; [| split]]].
  - intros res start steps H.
    destruct (forecast_sarimax_dates res start steps) as [p [Hp Hd]]; [lia |].
    exists p. split; [exact Hp |]. rewrite Hd. apply date_range_daily_path.
  - intros caps a today g df res H Hfit. unfold forecast_stage. rewrite Hfit.
    destruct (forecast_sarimax_dates res (start_of a today) (forecast_days a))
      as [p [Hp Hd]]; [lia |].
    exists p. rewrite Hp. split; [reflexivity |].
    rewrite Hd. apply date_range_daily_path.
  - intros a today. unfold start_of. split.
    + intros d ->. reflexivity.
    + intros ->. reflexivity.
  - intros caps g history steps last m H Hfit Hlast.
    destruct (forecast_prophet_dates caps g history steps last m H Hfit Hlast)
      as [p [g' [Hp Hd]]].
    exists p, g'. split; [exact Hp |]. rewrite Hd. apply date_range_daily_path.
  - intros predict index df_hist days features_cols lags last H Hlast Hne Hfeat.
    destruct (iterative_forecast_dates predict index df_hist days features_cols
                lags last H Hlast Hne Hfeat) as [p [Hp Hd]].
    exists p. split; [exact Hp |]. rewrite Hd. apply date_range_daily_path.
Qed.

Lemma forecast_path_dates_witness :
  (exists p,
      iterative_forecast average_of_lags [738886; 738887; 738888] two_columns 3
                         three_features 2 = Some p /\
      daily_path 738889 3 (map fst p)) /\
  (exists p g',
      forecast_prophet caps_prophet_only every_second recent_history 738889 3
      = Some (p, g') /\
      daily_path 738889 3 (path_dates p)).
Proof.
  destruct forecast_path_dates as [_ [_ [_ [Hprophet Hiter]]]].
  split.
  - apply (Hiter average_of_lags [738886; 738887; 738888] two_columns 3
                 three_features 2%nat 738888).
    + lia.
    + reflexivity.
    + intros c [<- | [<- | []]]; discriminate.
    + intros f [<- | [<- | [<- | []]]]; vm_compute; tauto.
  - apply (Hprophet caps_prophet_only every_second recent_history 3 738888
                    sampling_model).
    + lia.
    + reflexivity.
    + reflexivity.
Defined.

End ForecastPaths.

(** ** More on the risk scorer *)

Module RiskFacts.

Import Num NumFacts Frames ForecastPower Scenarios.

Lemma medium_band (x : Q) : 40 + (x - 1) / 4 * 30 == 40 + (x - 1) * (15 # 2).
Proof. field. Qed.

Lemma high_band (x : Q) : 70 + (x - 5) / 15 * 30 == 70 + (x - 5) * 2.
Proof. field. Qed.

Lemma rain_score_range (mm : option Q) : 0 <= rain_score mm <= 100.
Proof.
  destruct mm as [x |]; cbn [rain_score]; [| lra].
  destruct (Qle_bool x 0) eqn:E0; [lra |].
  destruct (Qltb x 1) eqn:E1; [lra |].
  destruct (Qltb x 5) eqn:E5;
    [| destruct (Qltb x 20) eqn:E20; [| lra]];
    RiskScorer.branch_of_score; rewrite ?medium_band, ?high_band; lra.
Qed.

Lemma rain_score_monotone (a b : Q) :
  a <= b -> rain_score (Some a) <= rain_score (Some b).
Proof.
  intro H. unfold rain_score.
  destruct (Qle_bool a 0) eqn:A0;
    [| destruct (Qltb a 1) eqn:A1;
       [| destruct (Qltb a 5) eqn:A5; [| destruct (Qltb a 20) eqn:A20]]];
    (destruct (Qle_bool b 0) eqn:B0;
     [| destruct (Qltb b 1) eqn:B1;
        [| destruct (Qltb b 5) eqn:B5; [| destruct (Qltb b 20) eqn:B20]]]);
    RiskScorer.branch_of_score; rewrite ?medium_band, ?high_band; lra.
Qed.

Lemma py_round_floor (x : Q) :
  (Qfloor x <= py_round x <= Qfloor x + 1)%Z.
Proof.
  unfold py_round.
  destruct (Qcompare (x - inject_Z (Qfloor x)) (1 # 2));
    [destruct (Z.even (Qfloor x)) | |]; lia.
Qed.

Lemma py_round_monotone (x y : Q) : x <= y -> (py_round x <= py_round y)%Z.
Proof.
  intro H.
  pose proof (Qfloor_resp_le _ _ H) as Hf.
  pose proof (py_round_floor x) as Hx.
  pose proof (py_round_floor y) as Hy.
  destruct (Z.eq_dec (Qfloor x) (Qfloor y)) as [E | E]; [| lia].
  clear Hx Hy. unfold py_round. rewrite <- E.
  destruct (Qcompare_spec (x - inject_Z (Qfloor x)) (1 # 2)) as [Ex | Ex | Ex];
    destruct (Qcompare_spec (y - inject_Z (Qfloor x)) (1 # 2)) as [Ey | Ey | Ey];
    try (destruct (Z.even (Qfloor x))); try lia; exfalso; lra.
Qed.

(** X1.  The rain score never decreases when the amount grows, and the
    integer score of any amount, or of no amount, lies between 0 and
    100. *)
Theorem risk_score_monotone_and_bounded (a b : Q) (mm : option Q) :
  a <= b ->
  rain_score (Some a) <= rain_score (Some b) /\
  (score_of (Some a) <= score_of (Some b))%Z /\
  (0 <= score_of mm <= 100)%Z.
Proof.
  intro H. split; [now apply rain_score_monotone |].
  split; [now apply py_round_monotone, rain_score_monotone |].
  destruct (rain_score_range mm) as [H0 H100]. unfold score_of. split.
  - change 0%Z with (py_round 0). now apply py_round_monotone.
  - change 100%Z with (py_round 100). now apply py_round_monotone.
Qed.

Lemma risk_score_monotone_and_bounded_witness :
  (score_of (Some (7 # 2)) <= score_of (Some (12 # 1)))%Z.
Proof.
  assert (H : 7 # 2 <= 12 # 1) by (unfold Qle; simpl; lia).
  exact (proj1 (proj2 (risk_score_monotone_and_bounded (7 # 2) (12 # 1) None H))).
Defined.

(** X2.  The climatology caps the risk: when the day window has
    statistics and both quartiles are below 1 mm, the compact summary
    reports a score of at most 15 and the label "Low Risk", whatever the
    recent days were. *)
Theorem dry_climatology_means_low_risk (df_temp df_prec df_wind : option frame)
    (tomorrow : Calendar.civil) (start_yr end_yr : Z) (st : hist_stats) :
  let c := compact_summary df_temp df_prec df_wind tomorrow start_yr end_yr in
  stats_prec c = Some st ->
  Qmax (p25 st) (p75 st) < 1 ->
  (climate_risk_score c <= 15)%Z /\
  compact_risk_label c = "Low Risk"%string.
Proof.
  intros c Hst Hdry.
  assert (Hscore : (climate_risk_score c <= 15)%Z).
  { unfold c, compact_summary, compact_of_samples in Hst |- *.
    cbn [stats_prec] in Hst. cbn [climate_risk_score].
    set (sample := sample_day_window df_prec tomorrow buffer start_yr end_yr) in *.
    set (fp := recent_mean df_prec) in *.
    set (adj := adjusted_prec fp (recent_prec_var df_prec)
                  (prior_mean_prec (hist_stats_from_array sample)
                                   (hist_avg sample df_prec))
                  (prior_prec_var sample (hist_stats_from_array sample))) in *.
    destruct (display_prec adj fp (hist_stats_from_array sample)
                           (hist_avg sample df_prec)) as [x |] eqn:Ed.
    - cbn [first_some].
      destruct (Shrinkage.display_prec_value _ _ _ _ _ Ed) as [y [-> Hy]].
      specialize (Hy st Hst).
      rewrite Shrinkage.py_max_Qmax in Hy.
      assert (Hx : py_max 0 y < 1).
      { destruct (py_max_spec 0 y) as [_ [_ [E | E]]]; rewrite E; lra. }
      change 15%Z with (py_round 15). unfold score_of.
      apply py_round_monotone. unfold rain_score.
      destruct (Qle_bool (py_max 0 y) 0); [lra |].
      apply Qltb_lt in Hx. rewrite Hx. lra.
    - unfold display_prec in Ed.
      destruct (first_some adj fp) as [bp |] eqn:Ef.
      + destruct (display_bounds _ _) as [[lo hi] |]; discriminate.
      + cbn [first_some]. vm_compute. discriminate. }
  split; [exact Hscore |].
  unfold c, compact_summary, compact_of_samples in Hscore |- *.
  cbn [climate_risk_score] in Hscore. cbn [compact_risk_label].
  unfold risk_label.
  destruct (70 <=? _)%Z eqn:E70; [lia |].
  destruct (40 <=? _)%Z eqn:E40; [lia | reflexivity].
Qed.

(** A drizzly climatology and a very wet last week. *)
Lemma dry_climatology_means_low_risk_witness :
  compact_risk_label
    (compact_summary None drizzle_then_downpour None second_of_january 2024 2024)
  = "Low Risk"%string.
Proof.
  eapply dry_climatology_means_low_risk.
  - vm_compute. reflexivity.
  - vm_compute. reflexivity.
Defined.

End RiskFacts.

(** ** More on the shrinkage blender *)

Module BlendFacts.

Import Num NumFacts Frames ForecastPower Shrinkage.

Lemma usable_var_positive (v : option Q) : 0 < usable_var v.
Proof.
  unfold usable_var. destruct v as [x |]; [| lra].
  destruct (Qltb 0 x) eqn:E; [now apply Qltb_lt in E | lra].
Qed.

Lemma weighted_mean_between_inv (f p ia ib : Q) :
  0 < ia -> 0 < ib ->
  Qmin f p <= (f * ia + p * ib) / (1 * ia + 1 * ib) <= Qmax f p.
Proof.
  intros Hia Hib.
  pose proof (Q.le_min_l f p) as Hml. pose proof (Q.le_min_r f p) as Hmr.
  pose proof (Q.le_max_l f p) as HMl. pose proof (Q.le_max_r f p) as HMr.
  set (m := Qmin f p) in *. set (M := Qmax f p) in *.
  assert (Hd : 0 < 1 * ia + 1 * ib) by lra.
  assert (H1 : 0 <= (f - m) * ia) by (apply Qmult_le_0_compat; lra).
  assert (H2 : 0 <= (p - m) * ib) by (apply Qmult_le_0_compat; lra).
  assert (H3 : 0 <= (M - f) * ia) by (apply Qmult_le_0_compat; lra).
  assert (H4 : 0 <= (M - p) * ib) by (apply Qmult_le_0_compat; lra).
  split.
  - apply Qle_shift_div_l; [exact Hd |].
    setoid_replace (m * (1 * ia + 1 * ib))
      with (f * ia + p * ib - ((f - m) * ia + (p - m) * ib)) by ring.
    set (X1 := (f - m) * ia) in *. set (X2 := (p - m) * ib) in *.
    set (F := f * ia). set (P := p * ib). clearbody X1 X2 F P. lra.
  - apply Qle_shift_div_r; [exact Hd |].
    setoid_replace (M * (1 * ia + 1 * ib))
      with (f * ia + p * ib + ((M - f) * ia + (M - p) * ib)) by ring.
    set (X3 := (M - f) * ia) in *. set (X4 := (M - p) * ib) in *.
    set (F := f * ia). set (P := p * ib). clearbody X3 X4 F P. lra.
Qed.

(** A weighted mean with positive weights lies between its arguments. *)
Lemma weighted_mean_between (f p a b : Q) :
  0 < a -> 0 < b ->
  Qmin f p <= (f / a + p / b) / (1 / a + 1 / b) <= Qmax f p.
Proof.
  intros Ha Hb.
  apply (weighted_mean_between_inv f p (/ a) (/ b));
    now apply Qinv_lt_0_compat.
Qed.

(** X3.  [compute_shrunk] returns nothing when it has neither a forecast
    nor a prior mean, the one value it has when the other is missing, and
    otherwise a posterior mean that lies between the forecast and the
    prior mean, whatever the two variances are (missing and non-positive
    ones count as 1.0). *)
Theorem compute_shrunk_between (f p : Q) (forecast_var prior_var : option Q) :
  compute_shrunk None forecast_var None prior_var = None /\
  compute_shrunk (Some f) forecast_var None prior_var = Some f /\
  compute_shrunk None forecast_var (Some p) prior_var = Some p /\
  exists x,
    compute_shrunk (Some f) forecast_var (Some p) prior_var = Some x /\
    Qmin f p <= x <= Qmax f p.
Proof.
  split; [reflexivity |]. split; [reflexivity |]. split; [reflexivity |].
  eexists. split; [reflexivity |].
  apply weighted_mean_between; apply usable_var_positive.
Qed.

Lemma weighted_blend_between (f p w : Q) :
  0 <= w <= 1 -> Qmin f p <= w * p + (1 - w) * f <= Qmax f p.
Proof.
  intros [H0 H1].
  pose proof (Q.le_min_l f p) as Hml. pose proof (Q.le_min_r f p) as Hmr.
  pose proof (Q.le_max_l f p) as HMl. pose proof (Q.le_max_r f p) as HMr.
  set (m := Qmin f p) in *. set (M := Qmax f p) in *.
  assert (H2 : 0 <= w * (p - m)) by (apply Qmult_le_0_compat; lra).
  assert (H3 : 0 <= (1 - w) * (f - m)) by (apply Qmult_le_0_compat; lra).
  assert (H4 : 0 <= w * (M - p)) by (apply Qmult_le_0_compat; lra).
  assert (H5 : 0 <= (1 - w) * (M - f)) by (apply Qmult_le_0_compat; lra).
  split.
  - setoid_replace (w * p + (1 - w) * f)
      with (m + (w * (p - m) + (1 - w) * (f - m))) by ring.
    lra.
  - setoid_replace (w * p + (1 - w) * f)
      with (M - (w * (M - p) + (1 - w) * (M - f))) by ring.
    lra.
Qed.

Lemma blend_between (f p : Q) (recent_var prior_var : option Q) :
  exists b,
    blend f recent_var (Some p) prior_var = Some b /\
    Qmin f p <= b <= Qmax f p.
Proof.
  unfold blend. destruct (weight_prior recent_var prior_var) as [w |] eqn:Ew.
  - eexists. split; [reflexivity |]. apply weighted_blend_between.
    unfold weight_prior in Ew.
    destruct recent_var as [rv |]; [| discriminate].
    destruct prior_var as [pv |]; [| discriminate].
    destruct (Qltb 0 rv && Qltb 0 pv); [| discriminate].
    injection Ew as <-.
    destruct (clamp_weight_spec (rv / (rv + pv))) as [_ Hb]. lra.
  - eexists. split; [reflexivity |].
    apply weighted_mean_between; apply usable_var_positive.
Qed.

(** X4.  The adjusted precipitation exists exactly when the raw forecast
    does; it is never negative; without a prior mean it is the raw
    forecast floored at 0; and with a prior mean it lies between the raw
    forecast and the prior mean, both floored at 0, on the weighted
    branch and on the [compute_shrunk] branch alike. *)
Theorem adjusted_prec_between (f : Q) (recent_var prior_mean prior_var : option Q) :
  adjusted_prec None recent_var prior_mean prior_var = None /\
  exists x,
    adjusted_prec (Some f) recent_var prior_mean prior_var = Some x /\
    0 <= x /\
    (prior_mean = None -> x == Qmax 0 f) /\
    (forall p, prior_mean = Some p ->
               Qmax 0 (Qmin f p) <= x <= Qmax 0 (Qmax f p)).
Proof.
  split; [reflexivity |].
  cbn [adjusted_prec].
  destruct prior_mean as [p |].
  - destruct (blend_between f p recent_var prior_var) as [b [Hb Hbt]].
    rewrite Hb.
    destruct (ensure_non_negative_spec b) as [x [Hx Hmax]].
    exists x. split; [exact Hx |].
    split; [rewrite Hmax; apply Q.le_max_l |].
    split; [discriminate |].
    intros p' E. injection E as <-. rewrite Hmax.
    split; apply Q.max_le_compat_l; apply Hbt.
  - assert (Hb : blend f recent_var None prior_var = Some f).
    { unfold blend. now destruct (weight_prior recent_var prior_var). }
    rewrite Hb.
    destruct (ensure_non_negative_spec f) as [x [Hx Hmax]].
    exists x. split; [exact Hx |].
    split; [rewrite Hmax; apply Q.le_max_l |].
    split; [intros _; exact Hmax | discriminate].
Qed.

Lemma adjusted_prec_between_witness :
  exists x,
    adjusted_prec (Some (6 # 1)) (Some (4 # 1)) (Some (2 # 1)) None = Some x /\
    Qmax 0 (Qmin (6 # 1) (2 # 1)) <= x <= Qmax 0 (Qmax (6 # 1) (2 # 1)).
Proof.
  destruct (adjusted_prec_between (6 # 1) (Some (4 # 1)) (Some (2 # 1)) None)
    as [_ [x [Hx [_ [_ H]]]]].
  exists x. split; [exact Hx | exact (H _ eq_refl)].
Defined.

End BlendFacts.

(** ** More on the Kelvin heuristic *)

Module SeriesFacts.

Import Num NumFacts Frames ForecastPower SeriesPreparation Scenarios.

Lemma Qsum_shift (k : Q) (l : list Q) :
  Qsum (map (fun v => v - k) l) == Qsum l - Qlen l * k.
Proof.
  unfold Qlen. induction l as [| x l IH]; cbn [map Qsum List.length].
  - ring.
  - rewrite IH, Nat2Z.inj_succ, <- Z.add_1_l, inject_Z_plus. ring.
Qed.

(** X5.  When the heuristic fires, the prepared series has the same
    days and as many values, and its mean is the fetched mean minus
    273.15 exactly; a series whose mean is above 473.15 therefore still
    has a mean above 200 afterwards. *)
Theorem kelvin_shifts_the_mean (fetched : raw_frame) :
  let df := dropna fetched in
  df <> [] -> 200 < mean (values df) ->
  List.length (prepare_series fetched) = List.length df /\
  mean (values (prepare_series fetched)) == mean (values df) - (27315 # 100) /\
  ((47315 # 100) < mean (values df) ->
   looks_like_kelvin (prepare_series fetched) = true).
Proof.
  intros df Hne Hmean.
  assert (E : looks_like_kelvin df = true)
    by (apply looks_like_kelvin_iff; now split).
  assert (Hprep : prepare_series fetched
                  = map (fun dv => (fst dv, snd dv - kelvin_offset)) df).
  { unfold prepare_series. fold df. now rewrite E. }
  assert (Hlen : 0 < Qlen (values df)).
  { unfold Qlen, values. rewrite length_map.
    change 0 with (inject_Z 0). rewrite <- Zlt_Qlt.
    destruct df; [contradiction | cbn [List.length]; lia]. }
  assert (Hm : mean (values (prepare_series fetched))
               == mean (values df) - (27315 # 100)).
  { rewrite Hprep, values_shift. unfold mean.
    rewrite Qsum_shift. unfold Qlen at 2. rewrite length_map.
    fold (Qlen (values df)). unfold kelvin_offset. field. lra. }
  split; [rewrite Hprep; apply length_map |].
  split; [exact Hm |].
  intro Hhot. apply looks_like_kelvin_iff. split.
  - rewrite Hprep. destruct df; [contradiction | discriminate].
  - rewrite Hm. lra.
Qed.

Lemma kelvin_shifts_the_mean_witness :
  mean (values (prepare_series kelvin_sample))
  == mean (values (dropna kelvin_sample)) - (27315 # 100).
Proof.
  assert (Hne : dropna kelvin_sample <> []) by (simpl; discriminate).
  assert (Hmean : 200 < mean (values (dropna kelvin_sample)))
    by (unfold Qlt; vm_compute; reflexivity).
  exact (proj1 (proj2 (kelvin_shifts_the_mean kelvin_sample Hne Hmean))).
Defined.

End SeriesFacts.

(** ** More on the exceedance probabilities *)

Module ExceedanceFacts.

Import Num NumFacts Frames Simulation Exceedance Properties Scenarios.

Lemma count_exceeding_antitone (T1 T2 : Q) (l : list Q) :
  T1 <= T2 -> (count_exceeding T2 l <= count_exceeding T1 l)%nat.
Proof.
  intro H. unfold count_exceeding.
  induction l as [| x l IH]; cbn [filter]; [lia |].
  destruct (Qltb T2 x) eqn:E2; destruct (Qltb T1 x) eqn:E1;
    cbn [List.length]; try lia.
  apply Qltb_lt in E2. apply Qltb_ge in E1. lra.
Qed.

Lemma fraction_monotone (j k n : nat) :
  (j <= k)%nat -> (0 < n)%nat -> fraction j n <= fraction k n.
Proof.
  intros Hjk Hn. unfold fraction.
  assert (Hn' : 0 < inject_Z (Z.of_nat n))
    by (change 0 with (inject_Z 0); rewrite <- Zlt_Qlt; lia).
  assert (Hjk' : inject_Z (Z.of_nat j) <= inject_Z (Z.of_nat k))
    by (rewrite <- Zle_Qle; lia).
  unfold Qdiv. apply Qmult_le_compat_r; [exact Hjk' |].
  apply Qlt_le_weak. now apply Qinv_lt_0_compat.
Qed.

(** X6.  Raising the threshold never raises a probability: for
    [T1 <= T2], every per-day exceedance probability and the pooled one
    computed for [T2] are at most those computed for [T1] from the same
    simulated matrix. *)
Theorem exceedance_antitone_in_threshold (T1 T2 : Q) (N : nat)
    (sims : list (list Q)) :
  (0 < N)%nat -> sims <> [] ->
  (forall row, In row sims -> List.length row = N) ->
  T1 <= T2 ->
  (forall i, (i < List.length sims)%nat ->
     exists q1 q2,
       nth i (mean_axis1 (exceeds T1 sims)) NaN = Fin q1 /\
       nth i (mean_axis1 (exceeds T2 sims)) NaN = Fin q2 /\
       q2 <= q1) /\
  (exists q1 q2,
     mean_all (exceeds T1 sims) = Fin q1 /\
     mean_all (exceeds T2 sims) = Fin q2 /\
     q2 <= q1).
Proof.
  intros HN Hne Hrows HT.
  destruct (exceedance_of_matrix T1 N sims HN Hne Hrows) as [_ [Hd1 Ha1]].
  destruct (exceedance_of_matrix T2 N sims HN Hne Hrows) as [_ [Hd2 Ha2]].
  split.
  - intros i Hi.
    destruct (Hd1 i Hi) as [q1 [E1 [F1 _]]].
    destruct (Hd2 i Hi) as [q2 [E2 [F2 _]]].
    exists q1, q2. split; [exact E1 |]. split; [exact E2 |].
    rewrite F1, F2. apply fraction_monotone; [| exact HN].
    now apply count_exceeding_antitone.
  - destruct Ha1 as [q1 [E1 [F1 _]]]. destruct Ha2 as [q2 [E2 [F2 _]]].
    exists q1, q2. split; [exact E1 |]. split; [exact E2 |].
    rewrite F1, F2. apply fraction_monotone.
    + now apply count_exceeding_antitone.
    + destruct sims; [contradiction | cbn [List.length]; lia].
Qed.

Lemma exceedance_antitone_in_threshold_witness :
  exists q1 q2,
    mean_all (exceeds 30 two_by_three) = Fin q1 /\
    mean_all (exceeds 34 two_by_three) = Fin q2 /\
    q2 <= q1.
Proof.
  refine (proj2 (exceedance_antitone_in_threshold 30 34 3 two_by_three _ _ _ _)).
  - lia.
  - discriminate.
  - intros row [<- | [<- | []]]; reflexivity.
  - unfold Qle; simpl; lia.
Defined.

Lemma count_exceeding_all (T : Q) (l : list Q) :
  (forall x, In x l -> T < x) -> count_exceeding T l = List.length l.
Proof.
  intro H. unfold count_exceeding.
  rewrite ForecastPaths.filter_all_true; [reflexivity |].
  intros x Hx. apply Qltb_lt. now apply H.
Qed.

Lemma count_exceeding_none (T : Q) (l : list Q) :
  (forall x, In x l -> x <= T) -> count_exceeding T l = 0%nat.
Proof.
  intro H. unfold count_exceeding.
  rewrite ForecastPaths.filter_all_false; [reflexivity |].
  intros x Hx. apply Qltb_ge. now apply H.
Qed.

Lemma fraction_full (n : nat) : (0 < n)%nat -> fraction n n == 1.
Proof.
  intro H. unfold fraction. field.
  change 0 with (inject_Z 0). rewrite inject_Z_injective. lia.
Qed.

Lemma fraction_zero (n : nat) : fraction 0 n == 0.
Proof. unfold fraction. cbn. unfold Qdiv. ring. Qed.

(** X7.  A threshold below every simulated value gives probability 1 on
    every day and pooled; a threshold at or above every simulated value
    gives probability 0 on every day and pooled. *)
Theorem exceedance_extremes (T : Q) (N : nat) (sims : list (list Q)) :
  (0 < N)%nat -> sims <> [] ->
  (forall row, In row sims -> List.length row = N) ->
  ((forall row x, In row sims -> In x row -> T < x) ->
   (forall i, (i < List.length sims)%nat ->
      exists q, nth i (mean_axis1 (exceeds T sims)) NaN = Fin q /\ q == 1) /\
   (exists q, mean_all (exceeds T sims) = Fin q /\ q == 1)) /\
  ((forall row x, In row sims -> In x row -> x <= T) ->
   (forall i, (i < List.length sims)%nat ->
      exists q, nth i (mean_axis1 (exceeds T sims)) NaN = Fin q /\ q == 0) /\
   (exists q, mean_all (exceeds T sims) = Fin q /\ q == 0)).
Proof.
  intros HN Hne Hrows.
  destruct (exceedance_of_matrix T N sims HN Hne Hrows) as [_ [Hd Ha]].
  assert (HD : (0 < List.length sims * N)%nat)
    by (destruct sims; [contradiction | cbn [List.length]; lia]).
  pose proof (concat_length_uniform N sims Hrows) as Hlen.
  split; intro H; split.
  - intros i Hi. destruct (Hd i Hi) as [q [E [F _]]].
    exists q. split; [exact E |]. rewrite F.
    assert (Hin : In (nth i sims []) sims) by now apply nth_In.
    rewrite count_exceeding_all by (intros x Hx; now apply (H _ _ Hin)).
    rewrite (Hrows _ Hin). now apply fraction_full.
  - destruct Ha as [q [E [F _]]]. exists q. split; [exact E |]. rewrite F.
    rewrite count_exceeding_all.
    + rewrite Hlen. now apply fraction_full.
    + intros x Hx. apply in_concat in Hx. destruct Hx as [row [Hrow Hx]].
      now apply (H row).
  - intros i Hi. destruct (Hd i Hi) as [q [E [F _]]].
    exists q. split; [exact E |]. rewrite F.
    assert (Hin : In (nth i sims []) sims) by now apply nth_In.
    rewrite count_exceeding_none by (intros x Hx; now apply (H _ _ Hin)).
    apply fraction_zero.
  - destruct Ha as [q [E [F _]]]. exists q. split; [exact E |]. rewrite F.
    rewrite count_exceeding_none; [apply fraction_zero |].
    intros x Hx. apply in_concat in Hx. destruct Hx as [row [Hrow Hx]].
    now apply (H row).
Qed.

Lemma exceedance_extremes_witness :
  exists q, mean_all (exceeds 20 two_by_three) = Fin q /\ q == 1.
Proof.
  assert (HN : (0 < 3)%nat) by lia.
  assert (Hne : two_by_three <> []) by discriminate.
  assert (Hrows : forall row, In row two_by_three -> List.length row = 3%nat)
    by (intros row [<- | [<- | []]]; reflexivity).
  destruct (exceedance_extremes 20 3 two_by_three HN Hne Hrows) as [H _].
  apply H.
  intros row x [<- | [<- | []]] Hx; cbn in Hx;
    repeat (destruct Hx as [<- | Hx]; [unfold Qlt; simpl; lia |]);
    destruct Hx.
Defined.

Lemma Qsum_app (a b : list Q) : Qsum (a ++ b) == Qsum a + Qsum b.
Proof.
  induction a as [| x a IH]; cbn [app Qsum]; [ring | rewrite IH; ring].
Qed.

Lemma day_means_sum (N : nat) (m : list (list bool)) :
  (0 < N)%nat ->
  (forall row, In row m -> List.length row = N) ->
  Qsum (map fin_value (map bool_mean m))
  == Qsum (map b2q (List.concat m)) / inject_Z (Z.of_nat N).
Proof.
  intros HN Hrows.
  assert (HN' : ~ inject_Z (Z.of_nat N) == 0)
    by (change 0 with (inject_Z 0); rewrite inject_Z_injective; lia).
  induction m as [| row m IH]; cbn [map List.concat Qsum].
  - field. exact HN'.
  - rewrite IH by (intros r Hr; apply Hrows; now right).
    rewrite map_app, Qsum_app.
    assert (Hlen : List.length row = N) by (apply Hrows; now left).
    destruct row as [| b row]; [cbn in Hlen; lia |].
    cbn [bool_mean fin_value]. rewrite Hlen. field. exact HN'.
Qed.

(** X8.  With the same number of samples on every day, the pooled
    probability is the plain average of the per-day probabilities. *)
Theorem pooled_probability_is_mean_of_days (T : Q) (N : nat)
    (sims : list (list Q)) :
  (0 < N)%nat -> sims <> [] ->
  (forall row, In row sims -> List.length row = N) ->
  exists q,
    mean_all (exceeds T sims) = Fin q /\
    q == Qsum (map fin_value (mean_axis1 (exceeds T sims)))
         / inject_Z (Z.of_nat (List.length sims)).
Proof.
  intros HN Hne Hrows.
  set (m := exceeds T sims).
  assert (Hm : forall row, In row m -> List.length row = N).
  { intros row Hr. unfold m, exceeds in Hr. apply in_map_iff in Hr.
    destruct Hr as [r [<- Hr]]. rewrite length_map. now apply Hrows. }
  assert (Hlen : List.length (List.concat m) = (List.length sims * N)%nat).
  { unfold m, exceeds. rewrite <- concat_map, length_map.
    now apply concat_length_uniform. }
  assert (HD : (0 < List.length sims)%nat)
    by (destruct sims; [contradiction | cbn [List.length]; lia]).
  unfold mean_all, mean_axis1. fold m.
  destruct (List.concat m) as [| c cells] eqn:Ec.
  - cbn [List.length] in Hlen. nia.
  - eexists. split; [reflexivity |].
    rewrite (day_means_sum N m HN Hm), Ec, Hlen.
    rewrite Nat2Z.inj_mul, inject_Z_mult. field.
    split; change 0 with (inject_Z 0); rewrite inject_Z_injective; lia.
Qed.

Lemma pooled_probability_is_mean_of_days_witness :
  exists q,
    mean_all (exceeds 32 two_by_three) = Fin q /\
    q == Qsum (map fin_value (mean_axis1 (exceeds 32 two_by_three))) / 2.
Proof.
  apply (pooled_probability_is_mean_of_days 32 3 two_by_three).
  - lia.
  - discriminate.
  - intros row [<- | [<- | []]]; reflexivity.
Defined.

End ExceedanceFacts.

(** ** Gap filling in [forecast_multivariate.main] *)

Module GapFilling.

Import Num Calendar CalendarFacts Frames ForecastMultivariate Scenarios.

Lemma ffill_from_length (l : list (option Q)) :
  forall prev, List.length (ffill_from prev l) = List.length l.
Proof.
  induction l as [| [v |] l IH]; intro prev; cbn [ffill_from List.length];
    [reflexivity | |]; now rewrite IH.
Qed.

Lemma bfill_ffill_length (l : list (option Q)) :
  List.length (bfill (ffill l)) = List.length l.
Proof.
  unfold bfill, ffill.
  now rewrite length_rev, ffill_from_length, length_rev, ffill_from_length.
Qed.

Lemma ffill_from_keeps (l : list (option Q)) :
  forall prev i v,
    nth i l None = Some v -> nth i (ffill_from prev l) None = Some v.
Proof.
  induction l as [| c l IH]; intros prev i v H.
  - destruct i; discriminate.
  - destruct i as [| i].
    + cbn [nth] in H. subst c. reflexivity.
    + cbn [nth] in H. destruct c as [w |]; cbn [ffill_from nth]; now apply IH.
Qed.

Lemma nth_some_in_range (l : list (option Q)) (i : nat) (v : Q) :
  nth i l None = Some v -> (i < List.length l)%nat.
Proof.
  intro H. destruct (Nat.lt_ge_cases i (List.length l)) as [Hlt | Hge];
    [exact Hlt |].
  rewrite nth_overflow in H by exact Hge. discriminate.
Qed.

Lemma rev_keeps (l : list (option Q)) (i : nat) (v : Q) :
  nth i l None = Some v ->
  nth (List.length l - S i) (rev l) None = Some v.
Proof.
  intro H. pose proof (nth_some_in_range l i v H) as Hi.
  rewrite rev_nth by lia.
  replace (List.length l - S (List.length l - S i))%nat with i by lia.
  exact H.
Qed.

Lemma bfill_keeps (l : list (option Q)) (i : nat) (v : Q) :
  nth i l None = Some v -> nth i (bfill l) None = Some v.
Proof.
  intro H. pose proof (nth_some_in_range l i v H) as Hi.
  unfold bfill, ffill.
  apply rev_keeps in H.
  apply (ffill_from_keeps _ None) in H.
  apply rev_keeps in H.
  rewrite ffill_from_length, length_rev in H.
  replace (List.length l - S (List.length l - S i))%nat with i in H by lia.
  exact H.
Qed.

Lemma ffill_from_In (l : list (option Q)) :
  forall prev v,
    In (Some v) (ffill_from prev l) -> prev = Some v \/ In (Some v) l.
Proof.
  induction l as [| [w |] l IH]; intros prev v H; cbn [ffill_from] in H.
  - destruct H.
  - destruct H as [H | H]; [right; now left |].
    destruct (IH _ _ H) as [E | E]; right; [left; exact E | now right].
  - destruct H as [H | H]; [now left |].
    destruct (IH _ _ H) as [E | E]; [now left | right; now right].
Qed.

Lemma bfill_ffill_In (l : list (option Q)) (v : Q) :
  In (Some v) (bfill (ffill l)) -> In (Some v) l.
Proof.
  unfold bfill, ffill. intro H.
  apply in_rev in H. apply ffill_from_In in H.
  destruct H as [H | H]; [discriminate |].
  apply in_rev in H. apply ffill_from_In in H.
  destruct H as [H | H]; [discriminate | exact H].
Qed.

Lemma ffill_from_some_full (l : list (option Q)) :
  forall p c, In c (ffill_from (Some p) l) -> c <> None.
Proof.
  induction l as [| [w |] l IH]; intros p c H; cbn [ffill_from] in H.
  - destruct H.
  - destruct H as [<- | H]; [discriminate | eapply IH; exact H].
  - destruct H as [<- | H]; [discriminate | eapply IH; exact H].
Qed.

(** Forward filling leaves missing cells only before the first value. *)
Lemma ffill_shape (l : list (option Q)) :
  exists k t,
    ffill l = repeat None k ++ t /\
    (forall c, In c t -> c <> None) /\
    ((exists v, In (Some v) l) -> t <> []).
Proof.
  unfold ffill. induction l as [| [w |] l IH].
  - exists 0%nat, []. split; [reflexivity |]. split; [intros c [] |].
    intros [v []].
  - exists 0%nat, (ffill_from None (Some w :: l)).
    split; [reflexivity |]. cbn [ffill_from]. split; [| discriminate].
    intros c [<- | H]; [discriminate | eapply ffill_from_some_full; exact H].
  - destruct IH as [k [t [E [Hfull Hne]]]].
    exists (S k), t. cbn [ffill_from repeat app]. rewrite E.
    split; [reflexivity |]. split; [exact Hfull |].
    intros [v [H | H]]; [discriminate |]. apply Hne. now exists v.
Qed.

Lemma bfill_ffill_full (l : list (option Q)) :
  (exists v, In (Some v) l) ->
  forall c, In c (bfill (ffill l)) -> c <> None.
Proof.
  intros Hv c Hc.
  destruct (ffill_shape l) as [k [t [E [Hfull Hne]]]].
  specialize (Hne Hv). unfold bfill in Hc. rewrite E in Hc.
  apply in_rev in Hc. rewrite rev_app_distr in Hc.
  destruct (rev t) as [| a r] eqn:Er.
  - apply (f_equal (@rev _)) in Er. rewrite rev_involutive in Er.
    now contradiction Hne.
  - assert (Ha : a <> None).
    { apply Hfull. apply in_rev. rewrite Er. now left. }
    destruct a as [w |]; [| contradiction].
    unfold ffill in Hc. cbn [app ffill_from] in Hc.
    destruct Hc as [<- | Hc]; [discriminate |].
    eapply ffill_from_some_full. exact Hc.
Qed.

Lemma all_missing_repeat (l : list (option Q)) :
  (forall c, In c l -> c = None) -> l = repeat None (List.length l).
Proof.
  induction l as [| c l IH]; intro H; [reflexivity |].
  cbn [List.length repeat]. rewrite (H c) by now left.
  f_equal. apply IH. intros d Hd. apply H. now right.
Qed.

(** X9.  Forward then backward filling keeps the length of a column and
    every observed value in its place, fills only with values that were
    observed in the column, leaves no missing cell as soon as the column
    has one value, and leaves a column without any value as it is. *)
Theorem fill_closes_gaps (l : list (option Q)) :
  List.length (bfill (ffill l)) = List.length l /\
  (forall i v, nth i l None = Some v -> nth i (bfill (ffill l)) None = Some v) /\
  (forall v, In (Some v) (bfill (ffill l)) -> In (Some v) l) /\
  ((exists v, In (Some v) l) ->
   forall c, In c (bfill (ffill l)) -> c <> None) /\
  ((forall c, In c l -> c = None) -> bfill (ffill l) = l).
Proof.
  split; [apply bfill_ffill_length |].
  split; [intros i v H; apply bfill_keeps; unfold ffill;
          now apply ffill_from_keeps |].
  split; [apply bfill_ffill_In |].
  split; [apply bfill_ffill_full |].
  intro Hnone.
  rewrite (all_missing_repeat l Hnone) at 2.
  rewrite <- bfill_ffill_length.
  apply all_missing_repeat.
  intros [v |] Hc; [| reflexivity].
  apply bfill_ffill_In in Hc. now apply Hnone in Hc.
Qed.

Lemma fill_closes_gaps_witness :
  (exists v, In (Some v) gappy_week) /\
  ~ In None (bfill (ffill gappy_week)).
Proof.
  assert (Hv : exists v, In (Some v) gappy_week)
    by (exists 21; right; now left).
  split; [exact Hv |].
  destruct (fill_closes_gaps gappy_week) as [_ [_ [_ [H _]]]].
  intro Hin. exact (H Hv None Hin eq_refl).
Defined.

Lemma fold_left_min_le (l : list Z) :
  forall a, (fold_left Z.min l a <= a)%Z.
Proof.
  induction l as [| x l IH]; intro a; cbn [fold_left]; [lia |].
  specialize (IH (Z.min a x)). lia.
Qed.

Lemma fold_left_max_le (l : list Z) :
  forall a, (a <= fold_left Z.max l a)%Z.
Proof.
  induction l as [| x l IH]; intro a; cbn [fold_left]; [lia |].
  specialize (IH (Z.max a x)). lia.
Qed.

(** X10.  After the gap filling of [main] the index of a non-empty frame
    without repeated days is the run of consecutive days from its first
    to its last fetched day, whatever gaps the fetched days had, and
    every column keeps its name and has one cell per day of that
    index. *)
Theorem fill_gaps_daily_index (index : list Z)
    (cols : list (string * list (option Q))) :
  index <> [] -> NoDup index ->
  exists lo hi,
    index_min index = Some lo /\
    index_max index = Some hi /\
    (lo <= hi)%Z /\
    fst (fill_gaps (index, cols)) = date_range lo (Z.to_nat (hi - lo + 1)) /\
    contiguous_from lo (fst (fill_gaps (index, cols))) /\
    map fst (snd (fill_gaps (index, cols))) = map fst cols /\
    forall c, In c (snd (fill_gaps (index, cols))) ->
              List.length (snd c) = Z.to_nat (hi - lo + 1).
Proof.
  intros Hne _. destruct index as [| d index]; [contradiction |].
  set (lo := fold_left Z.min index d). set (hi := fold_left Z.max index d).
  exists lo, hi.
  assert (Hlohi : (lo <= hi)%Z).
  { pose proof (fold_left_min_le index d). pose proof (fold_left_max_le index d).
    unfold lo, hi. lia. }
  assert (Hidx : fst (fill_gaps (d :: index, cols))
                 = date_range lo (Z.to_nat (hi - lo + 1))).
  { cbn [fill_gaps fst index_min index_max]. fold lo hi.
    rewrite zrange_date_range. f_equal. lia. }
  split; [reflexivity |]. split; [reflexivity |]. split; [exact Hlohi |].
  split; [exact Hidx |].
  split; [rewrite Hidx; apply date_range_contiguous |].
  cbn [fill_gaps snd]. split.
  - rewrite map_map. reflexivity.
  - intros c Hc. apply in_map_iff in Hc. destruct Hc as [c0 [<- _]].
    cbn [snd]. rewrite bfill_ffill_length.
    unfold reindex. cbn [index_min index_max]. fold lo hi.
    rewrite length_map, zrange_length. f_equal. lia.
Qed.

Lemma fill_gaps_daily_index_witness :
  fst (fill_gaps sparse_fetch) = date_range 738886 5 /\
  forall c, In c (snd (fill_gaps sparse_fetch)) ->
            List.length (snd c) = 5%nat.
Proof.
  destruct (fill_gaps_daily_index (fst sparse_fetch) (snd sparse_fetch))
    as [lo [hi [Hlo [Hhi [_ [Hidx [_ [_ Hlen]]]]]]]].
  - discriminate.
  - repeat constructor; cbn [In fst sparse_fetch]; intuition discriminate.
  - cbn in Hlo, Hhi. injection Hlo as <-. injection Hhi as <-.
    split; [exact Hidx | exact Hlen].
Defined.

End GapFilling.

(** ** More on the fetch routines of [forecast_power] *)

Module FetchFacts.

Import Num NumFacts Frames ForecastPower SentinelHandling Properties Scenarios.

Lemma insert_row_ordered {A : Type} (x : Z * A) (l : list (Z * A)) :
  date_ordered l -> date_ordered (insert_row x l).
Proof.
  unfold date_ordered. induction l as [| y l IH]; intro H; cbn [insert_row].
  - repeat constructor.
  - destruct (fst x <=? fst y)%Z eqn:E.
    + constructor; [exact H |]. constructor. lia.
    + inversion H as [| ? ? Hs Hh]; subst.
      constructor; [now apply IH |].
      destruct l as [| z l]; cbn [insert_row].
      * constructor. lia.
      * destruct (fst x <=? fst z)%Z eqn:E'; constructor;
          [lia | inversion Hh; assumption].
Qed.

Lemma sort_rows_ordered {A : Type} (l : list (Z * A)) :
  date_ordered (sort_rows l).
Proof.
  unfold sort_rows. induction l as [| x l IH]; cbn [fold_right].
  - constructor.
  - now apply insert_row_ordered.
Qed.

Lemma insert_row_perm {A : Type} (x : Z * A) (l : list (Z * A)) :
  Permutation (insert_row x l) (x :: l).
Proof.
  induction l as [| y l IH]; cbn [insert_row]; [reflexivity |].
  destruct (fst x <=? fst y)%Z; [reflexivity |].
  rewrite IH. apply perm_swap.
Qed.

Lemma sort_rows_perm {A : Type} (l : list (Z * A)) :
  Permutation (sort_rows l) l.
Proof.
  unfold sort_rows. induction l as [| x l IH]; cbn [fold_right]; [reflexivity |].
  rewrite insert_row_perm. now constructor.
Qed.

Lemma map_some_ordered (l : frame) :
  date_ordered l ->
  date_ordered (map (fun dv => (fst dv, Some (snd dv))) l).
Proof.
  unfold date_ordered. induction 1 as [| x l Hs IH Hh]; cbn [map].
  - constructor.
  - constructor; [exact IH |].
    destruct Hh as [| y l' Hxy]; cbn [map]; constructor. exact Hxy.
Qed.

(** X11.  Whatever order the provider's days come in,
    [fetch_power_point] returns its rows in date order and without any
    value at or below -900.  On the JSON branch the rows are exactly the
    entries with a readable day key, a null or fill value kept as a
    missing cell; on the CSV branch no row has a missing cell. *)
Theorem fetch_power_point_rows (r : response) (parameter : string)
    (rows : raw_frame) :
  fetch_power_point r parameter = Some rows ->
  date_ordered rows /\
  (forall d v, In (d, Some v) rows -> -900 < v) /\
  (forall data, r = JsonData data ->
                Permutation rows (flat_map json_row data)) /\
  (forall t, r = CsvFallback t -> forall d c, In (d, c) rows -> c <> None).
Proof.
  intro H. split; [| split; [| split]].
  - unfold fetch_power_point in H. destruct r as [data | t].
    + destruct (flat_map json_row data) as [| r0 rest]; [discriminate |].
      injection H as <-. apply (sort_rows_ordered (r0 :: rest)).
    + destruct (find_col _ (csv_cols t)) as [[name cells] |]; [| discriminate].
      injection H as <-. apply map_some_ordered, sort_rows_ordered.
  - exact (fetch_power_point_masks_sentinels r parameter rows H).
  - intros data ->. cbn [fetch_power_point] in H.
    destruct (flat_map json_row data) as [| r0 rest]; [discriminate |].
    injection H as <-. apply (sort_rows_perm (r0 :: rest)).
  - intros t -> d c Hin. cbn [fetch_power_point] in H.
    destruct (find_col _ (csv_cols t)) as [[name cells] |]; [| discriminate].
    injection H as <-. apply in_map_iff in Hin.
    destruct Hin as [dv [E _]]. injection E as _ <-. discriminate.
Qed.

Lemma fetch_power_point_rows_witness :
  fetch_power_point (JsonData unordered_block) "T2M"
  = Some [(738886%Z, None); (738887%Z, None); (738888%Z, Some 22)]
  /\ date_ordered [(738886%Z, @None Q); (738887%Z, None); (738888%Z, Some 22)].
Proof.
  assert (H : fetch_power_point (JsonData unordered_block) "T2M"
              = Some [(738886%Z, None); (738887%Z, None); (738888%Z, Some 22)])
    by (vm_compute; reflexivity).
  split; [exact H |].
  exact (proj1 (fetch_power_point_rows _ _ _ H)).
Defined.

(** *** [fetch_power_point_multi] *)

Lemma multi_json_frame_masks
    (data_block : list (string * option (list (option Z * option Q))))
    (p : string) (rows : raw_frame) :
  multi_json_frame data_block p = Some rows ->
  date_ordered rows /\ rows <> [] /\
  forall d v, In (d, Some v) rows -> -900 < v.
Proof.
  unfold multi_json_frame.
  destruct (resolve_key (map fst data_block) p) as [k |]; [| discriminate].
  destruct (String.eqb k ""); [discriminate |].
  destruct (assoc k data_block) as [[data |] |]; try discriminate.
  destruct (flat_map json_row data) as [| r0 rest] eqn:E; [discriminate |].
  intro H. injection H as <-.
  split; [apply (sort_rows_ordered (r0 :: rest)) |]. split.
  - intro E0. pose proof (sort_rows_perm (r0 :: rest)) as Hp.
    change (insert_row r0 (sort_rows rest)) with (sort_rows (r0 :: rest)) in E0.
    rewrite E0 in Hp. now apply Permutation_nil in Hp.
  - intros d v Hin. apply (sort_rows_In _ (r0 :: rest)) in Hin.
    rewrite <- E in Hin. apply in_flat_map in Hin.
    destruct Hin as [[key c] [_ Hin]].
    destruct key as [dt |]; cbn [json_row] in Hin; [| destruct Hin].
    destruct Hin as [Hin | []]. injection Hin as _ Hmask.
    now apply mask_sentinel_some in Hmask.
Qed.

Lemma multi_csv_frame_masks (t : csv_table) (p : string) (rows : raw_frame) :
  multi_csv_frame t p = Some rows ->
  forall d v, In (d, Some v) rows -> -900 < v.
Proof.
  unfold multi_csv_frame.
  destruct (find_col _ (csv_cols t)) as [[name cells] |]; [| discriminate].
  intro H. injection H as <-. intros d v Hin.
  apply in_map_iff in Hin. destruct Hin as [[d' v'] [E Hin]].
  cbn [fst snd] in E. injection E as -> ->.
  apply dropna_In in Hin. apply in_combine_r in Hin.
  apply in_map_iff in Hin. destruct Hin as [c [Hmask _]].
  now apply mask_sentinel_some in Hmask.
Qed.

(** *** The key look-up of [fetch_power_point_multi] *)

Lemma prefix_refl (s : string) : prefix s s = true.
Proof.
  induction s as [| c s IH]; cbn [prefix]; [reflexivity |].
  destruct (ascii_dec c c) as [_ | N]; [exact IH | contradiction].
Qed.

Lemma assign_In {A : Type} (k : string) (v : A) (d : list (string * A)) :
  forall k' v', In (k', v') (assign k v d) ->
                (k' = k /\ v' = v) \/ In (k', v') d.
Proof.
  induction d as [| [k0 v0] d IH]; intros k' v' H; cbn [assign] in H.
  - destruct H as [H | []]. injection H as <- <-. now left.
  - destruct (String.eqb k0 k) eqn:E.
    + apply String.eqb_eq in E. subst k0.
      destruct H as [H | H]; [injection H as <- <-; now left |].
      right. now right.
    + destruct H as [H | H]; [right; now left |].
      destruct (IH _ _ H) as [H' | H']; [now left | right; now right].
Qed.

Lemma assign_key {A : Type} (k : string) (v : A) (d : list (string * A)) :
  In (k, v) (assign k v d).
Proof.
  induction d as [| [k0 v0] d IH]; cbn [assign]; [now left |].
  destruct (String.eqb k0 k) eqn:E.
  - apply String.eqb_eq in E. subst k0. now left.
  - now right.
Qed.

Lemma assign_other {A : Type} (k : string) (v : A) (d : list (string * A)) :
  forall k', (exists v', In (k', v') d) ->
             exists v', In (k', v') (assign k v d).
Proof.
  induction d as [| [k0 v0] d IH]; intros k' [v' H]; [destruct H |].
  cbn [assign]. destruct (String.eqb k0 k) eqn:E.
  - apply String.eqb_eq in E. subst k0.
    destruct H as [H | H].
    + injection H as <- <-. exists v. now left.
    + exists v'. now right.
  - destruct H as [H | H].
    + exists v'. now left.
    + destruct (IH k' (ex_intro _ v' H)) as [w Hw]. exists w. now right.
Qed.

Lemma returned_keys_sound (all_keys : list string) (keys : list string) :
  forall d,
    (forall k, In k keys -> In k all_keys) ->
    (forall lk k, In (lk, k) d -> lk = lower k /\ In k all_keys) ->
    forall lk k,
      In (lk, k) (fold_left (fun d0 k0 => assign (lower k0) k0 d0) keys d) ->
      lk = lower k /\ In k all_keys.
Proof.
  induction keys as [| k0 keys IH]; intros d Hsub Hd lk k H; cbn [fold_left] in H.
  - now apply Hd.
  - apply (IH (assign (lower k0) k0 d)); [| | exact H].
    + intros k1 H1. apply Hsub. now right.
    + intros lk1 k1 H1. apply assign_In in H1.
      destruct H1 as [[-> ->] | H1]; [| now apply Hd].
      split; [reflexivity | apply Hsub; now left].
Qed.

Lemma returned_keys_kept (keys : list string) :
  forall d lk,
    (exists k, In (lk, k) d) ->
    exists k, In (lk, k) (fold_left (fun d0 k0 => assign (lower k0) k0 d0) keys d).
Proof.
  induction keys as [| k0 keys IH]; intros d lk H; cbn [fold_left]; [exact H |].
  apply IH. now apply assign_other.
Qed.

Lemma returned_keys_complete (keys : list string) :
  forall d k,
    In k keys ->
    exists k', In (lower k, k')
                  (fold_left (fun d0 k0 => assign (lower k0) k0 d0) keys d).
Proof.
  induction keys as [| k0 keys IH]; intros d k H; [destruct H |].
  cbn [fold_left]. destruct H as [-> | H]; [| now apply IH].
  apply returned_keys_kept. exists k. apply assign_key.
Qed.

Lemma assoc_some {A : Type} (k : string) (d : list (string * A)) (v : A) :
  assoc k d = Some v -> In (k, v) d.
Proof.
  unfold assoc. destruct (find _ d) as [[k' v'] |] eqn:E; [| discriminate].
  intro H. injection H as <-. apply find_some in E. destruct E as [Hin E].
  cbn [fst] in E. apply String.eqb_eq in E. now subst k'.
Qed.

Lemma assoc_none {A : Type} (k : string) (d : list (string * A)) :
  assoc k d = None -> forall v, ~ In (k, v) d.
Proof.
  unfold assoc. destruct (find _ d) as [kv |] eqn:E; [discriminate |].
  intros _ v Hin. pose proof (find_none _ _ E _ Hin) as H.
  cbn [fst] in H. now rewrite String.eqb_refl in H.
Qed.

(** X13.  The key that serves a requested parameter is always a key of
    the provider's block that starts with the parameter's name, case
    ignored; it is a key equal to the name, case ignored, whenever the
    block has one (so [PRECTOT] is served by [PRECTOTCORR] only when
    there is no [PRECTOT]); and no key is found exactly when no key of
    the block starts with the name. *)
Theorem resolve_key_spec (keys : list string) (p : string) :
  (forall k, resolve_key keys p = Some k ->
             In k keys /\ prefix (lower p) (lower k) = true) /\
  (forall k, In k keys -> lower k = lower p ->
             exists k', resolve_key keys p = Some k' /\ lower k' = lower p) /\
  (resolve_key keys p = None <->
   forall k, In k keys -> prefix (lower p) (lower k) = false).
Proof.
  assert (Hsound : forall lk k, In (lk, k) (returned_keys keys) ->
                                lk = lower k /\ In k keys).
  { intros lk k H. unfold returned_keys in H.
    apply (returned_keys_sound keys keys [] (fun _ Hk => Hk)) in H;
      [exact H | intros ? ? []]. }
  assert (Hcomplete : forall k, In k keys ->
                                exists k', In (lower k, k') (returned_keys keys)).
  { intros k Hk. unfold returned_keys. now apply returned_keys_complete. }
  unfold resolve_key. split; [| split].
  - intros k H.
    destruct (assoc (lower p) (returned_keys keys)) as [k0 |] eqn:Ea.
    + injection H as <-. apply assoc_some in Ea.
      destruct (Hsound _ _ Ea) as [E Hin]. split; [exact Hin |].
      rewrite <- E. apply prefix_refl.
    + destruct (find _ (returned_keys keys)) as [[lk k1] |] eqn:Ef;
        [| discriminate].
      injection H as <-. apply find_some in Ef. destruct Ef as [Hin Hp].
      cbn [fst] in Hp. destruct (Hsound _ _ Hin) as [E Hk].
      split; [exact Hk | now rewrite <- E].
  - intros k Hk E.
    destruct (Hcomplete k Hk) as [k' Hk']. rewrite E in Hk'.
    destruct (assoc (lower p) (returned_keys keys)) as [k0 |] eqn:Ea.
    + exists k0. split; [reflexivity |]. apply assoc_some in Ea.
      symmetry. exact (proj1 (Hsound _ _ Ea)).
    + exfalso. exact (assoc_none _ _ Ea k' Hk').
  - split.
    + intros H k Hk.
      destruct (assoc (lower p) (returned_keys keys)) as [k0 |] eqn:Ea;
        [discriminate |].
      destruct (find _ (returned_keys keys)) as [kv |] eqn:Ef; [discriminate |].
      destruct (Hcomplete k Hk) as [k' Hk'].
      exact (find_none _ _ Ef _ Hk').
    + intro H.
      destruct (assoc (lower p) (returned_keys keys)) as [k0 |] eqn:Ea.
      * apply assoc_some in Ea. destruct (Hsound _ _ Ea) as [E Hk].
        specialize (H k0 Hk). rewrite <- E, prefix_refl in H. discriminate.
      * destruct (find _ (returned_keys keys)) as [[lk k1] |] eqn:Ef;
          [| reflexivity].
        apply find_some in Ef. destruct Ef as [Hin Hp]. cbn [fst] in Hp.
        destruct (Hsound _ _ Hin) as [E Hk].
        specialize (H k1 Hk). rewrite <- E, Hp in H. discriminate.
Qed.

Lemma resolve_key_spec_witness :
  resolve_key (map fst block_with_alias) "prectot" = Some "PRECTOTCORR"%string
  /\ In "PRECTOTCORR"%string (map fst block_with_alias).
Proof.
  assert (H : resolve_key (map fst block_with_alias) "prectot"
              = Some "PRECTOTCORR"%string) by (vm_compute; reflexivity).
  split; [exact H |].
  exact (proj1 (proj1 (resolve_key_spec (map fst block_with_alias) "prectot")
                      _ H)).
Defined.

(** *** The [results] dictionary of [fetch_power_point_multi] *)

Lemma assign_keys_in {A : Type} (k : string) (v : A) (d : list (string * A)) :
  forall k', In k' (map fst (assign k v d)) <-> k' = k \/ In k' (map fst d).
Proof.
  induction d as [| [k0 v0] d IH]; intro k'; cbn [assign map fst In].
  - split; [intros [H | []]; now left | intros [H | []]; now left].
  - destruct (String.eqb k0 k) eqn:E; cbn [map fst In].
    + apply String.eqb_eq in E. subst k0. intuition congruence.
    + rewrite IH. intuition congruence.
Qed.

Lemma assign_keys_nodup {A : Type} (k : string) (v : A) (d : list (string * A)) :
  NoDup (map fst d) -> NoDup (map fst (assign k v d)).
Proof.
  induction d as [| [k0 v0] d IH]; intro H; cbn [assign map fst].
  - constructor; [intros [] | constructor].
  - cbn [map fst] in H. inversion H as [| ? ? Hnin Hnd]; subst.
    destruct (String.eqb k0 k) eqn:E; cbn [map fst].
    + now constructor.
    + constructor; [| now apply IH].
      intro Hin. apply assign_keys_in in Hin.
      destruct Hin as [-> | Hin]; [| contradiction].
      rewrite String.eqb_refl in E. discriminate.
Qed.

Lemma assign_fresh {A : Type} (k : string) (v : A) (d : list (string * A)) :
  ~ In k (map fst d) -> assign k v d = d ++ [(k, v)].
Proof.
  induction d as [| [k0 v0] d IH]; intro H; cbn [assign app]; [reflexivity |].
  cbn [map fst In] in H.
  destruct (String.eqb k0 k) eqn:E.
  - apply String.eqb_eq in E. subst k0. exfalso. apply H. now left.
  - f_equal. apply IH. intro Hin. apply H. now right.
Qed.

Lemma assoc_assign_same {A : Type} (k : string) (v : A) (d : list (string * A)) :
  assoc k (assign k v d) = Some v.
Proof.
  unfold assoc.
  induction d as [| [k0 v0] d IH]; cbn [assign find fst].
  - now rewrite String.eqb_refl.
  - destruct (String.eqb k0 k) eqn:E; cbn [find fst]; rewrite E;
      [reflexivity | exact IH].
Qed.

Lemma assoc_assign_other {A : Type} (k k' : string) (v : A)
    (d : list (string * A)) :
  k' <> k -> assoc k' (assign k v d) = assoc k' d.
Proof.
  intro Hne. unfold assoc.
  induction d as [| [k0 v0] d IH]; cbn [assign find fst].
  - destruct (String.eqb k k') eqn:E; [| reflexivity].
    apply String.eqb_eq in E. congruence.
  - destruct (String.eqb k0 k) eqn:E; cbn [find fst].
    + apply String.eqb_eq in E. subst k0.
      destruct (String.eqb k k') eqn:E'; [| reflexivity].
      apply String.eqb_eq in E'. congruence.
    + destruct (String.eqb k0 k'); [reflexivity | exact IH].
Qed.

Lemma assign_all_keys_in {A : Type} (f : string -> A) (ps : list string) :
  forall d k,
    In k (map fst (fold_left (fun res p => assign p (f p) res) ps d))
    <-> In k (map fst d) \/ In k ps.
Proof.
  induction ps as [| p ps IH]; intros d k; cbn [fold_left In].
  - tauto.
  - rewrite IH, assign_keys_in. intuition congruence.
Qed.

Lemma assign_all_keys_nodup {A : Type} (f : string -> A) (ps : list string) :
  forall d,
    NoDup (map fst d) ->
    NoDup (map fst (fold_left (fun res p => assign p (f p) res) ps d)).
Proof.
  induction ps as [| p ps IH]; intros d H; cbn [fold_left]; [exact H |].
  apply IH. now apply assign_keys_nodup.
Qed.

Lemma assign_all_values {A : Type} (f : string -> A) (ps : list string) :
  forall d k v,
    In (k, v) (fold_left (fun res p => assign p (f p) res) ps d) ->
    In (k, v) d \/ (In k ps /\ v = f k).
Proof.
  induction ps as [| p ps IH]; intros d k v H; cbn [fold_left] in H.
  - now left.
  - apply IH in H. destruct H as [H | [H ->]].
    + apply assign_In in H. destruct H as [[-> ->] | H]; [| now left].
      right. split; [now left | reflexivity].
    + right. split; [now right | reflexivity].
Qed.

Lemma assign_all_keeps {A : Type} (f : string -> A) (ps : list string) :
  forall d k,
    assoc k d = Some (f k) ->
    assoc k (fold_left (fun res p => assign p (f p) res) ps d) = Some (f k).
Proof.
  induction ps as [| p ps IH]; intros d k H; cbn [fold_left]; [exact H |].
  apply IH. destruct (string_dec k p) as [-> | Hne].
  - apply assoc_assign_same.
  - now rewrite assoc_assign_other.
Qed.

Lemma assign_all_assoc {A : Type} (f : string -> A) (ps : list string) :
  forall d k,
    In k ps ->
    assoc k (fold_left (fun res p => assign p (f p) res) ps d) = Some (f k).
Proof.
  induction ps as [| p ps IH]; intros d k H; [destruct H |].
  cbn [fold_left]. destruct (string_dec k p) as [-> | Hne].
  - apply assign_all_keeps, assoc_assign_same.
  - destruct H as [-> | H]; [contradiction | now apply IH].
Qed.

Lemma assign_all_fresh {A : Type} (f : string -> A) (ps : list string) :
  forall d,
    NoDup ps ->
    (forall k, In k ps -> ~ In k (map fst d)) ->
    map fst (fold_left (fun res p => assign p (f p) res) ps d)
    = map fst d ++ ps.
Proof.
  induction ps as [| p ps IH]; intros d Hnd Hfresh; cbn [fold_left].
  - now rewrite app_nil_r.
  - inversion Hnd as [| ? ? Hnin Hnd']; subst.
    rewrite IH; [| exact Hnd' |].
    + rewrite assign_fresh by (apply Hfresh; now left).
      rewrite map_app, <- app_assoc. reflexivity.
    + intros k Hk Hin. apply assign_keys_in in Hin.
      destruct Hin as [-> | Hin]; [contradiction |].
      apply (Hfresh k); [now right | exact Hin].
Qed.

(** X12.  The dictionary [fetch_power_point_multi] returns has exactly
    the requested names as keys, each once however often it was
    requested, in the order requested when no name is repeated; the
    item of a name is what the branch taken computes for that name; no
    frame in it holds a value at or below -900; and a frame returned on
    the JSON branch is in date order and has at least one row. *)
Theorem fetch_power_point_multi_entries (r : multi_response)
    (parameters : list string) :
  let results := fetch_power_point_multi r parameters in
  NoDup (map fst results) /\
  (forall p, In p (map fst results) <-> In p parameters) /\
  (NoDup parameters -> map fst results = parameters) /\
  (forall p,
      In p parameters ->
      assoc p results
      = Some match r with
             | MultiJson data_block => multi_json_frame data_block p
             | MultiOther => None
             | MultiCsv t => multi_csv_frame t p
             end) /\
  (forall p rows,
      In (p, Some rows) results ->
      forall d v, In (d, Some v) rows -> -900 < v) /\
  (forall data_block p rows,
      r = MultiJson data_block ->
      In (p, Some rows) results ->
      date_ordered rows /\ rows <> []).
Proof.
  intro results. unfold results.
  pose (f := fun p : string =>
               match r with
               | MultiJson data_block => multi_json_frame data_block p
               | MultiOther => None
               | MultiCsv t => multi_csv_frame t p
               end).
  assert (E : fetch_power_point_multi r parameters
              = fold_left (fun res p => assign p (f p) res) parameters [])
    by (destruct r; reflexivity).
  rewrite E. clear E.
  split; [| split; [| split; [| split; [| split]]]].
  - apply (assign_all_keys_nodup f). constructor.
  - intro p. rewrite (assign_all_keys_in f). cbn [map In]. tauto.
  - intro Hnd. now rewrite (assign_all_fresh f parameters [] Hnd).
  - intros p Hin. exact (assign_all_assoc f parameters [] p Hin).
  - intros p rows Hin. apply (assign_all_values f) in Hin.
    destruct Hin as [[] | [_ E]]. unfold f in E. destruct r as [data_block | | t].
    + now apply (multi_json_frame_masks data_block p).
    + discriminate.
    + now apply (multi_csv_frame_masks t p).
  - intros data_block p rows -> Hin. apply (assign_all_values f) in Hin.
    destruct Hin as [[] | [_ E]]. unfold f in E. symmetry in E.
    destruct (multi_json_frame_masks data_block p rows E) as [H1 [H2 _]].
    now split.
Qed.

Lemma fetch_power_point_multi_entries_witness :
  fetch_power_point_multi (MultiJson block_with_alias)
                          ["PRECTOT"%string; "PRECTOT"%string]
  = [("PRECTOT"%string, Some [(738886%Z, None); (738887%Z, Some 3)])]
  /\ forall d v, In (d, Some v) [(738886%Z, @None Q); (738887%Z, Some 3)] ->
                 -900 < v.
Proof.
  assert (H : fetch_power_point_multi (MultiJson block_with_alias)
                                      ["PRECTOT"%string; "PRECTOT"%string]
              = [("PRECTOT"%string, Some [(738886%Z, None); (738887%Z, Some 3)])])
    by (vm_compute; reflexivity).
  split; [exact H |].
  destruct (fetch_power_point_multi_entries (MultiJson block_with_alias)
              ["PRECTOT"%string; "PRECTOT"%string]) as [_ [_ [_ [_ [Hmask _]]]]].
  apply (Hmask "PRECTOT"%string). rewrite H. now left.
Defined.

End FetchFacts.

(** ** More on the climatology sampler *)

Module SamplerFacts.

Import Num NumFacts Calendar CalendarFacts Frames ForecastPower Shrinkage
       Properties Scenarios.

Lemma flat_map_length_le {A B : Type} (f : A -> list B) (w : nat) (l : list A) :
  (forall x, List.length (f x) <= w)%nat ->
  (List.length (flat_map f l) <= List.length l * w)%nat.
Proof.
  intro H. induction l as [| x l IH]; cbn [flat_map List.length]; [lia |].
  rewrite length_app. specialize (H x). lia.
Qed.

Lemma window_of_year_length (rows : frame) (t : civil) (b y : Z) :
  (List.length (window_of_year rows t b y) <= Z.to_nat (2 * b + 1))%nat.
Proof.
  unfold window_of_year.
  eapply Nat.le_trans.
  - apply (flat_map_length_le _ 1).
    intro off. destruct (timestamp y (month t) (day t)); [| cbn; lia].
    destruct (lookup _ rows); cbn; lia.
  - rewrite zrange_length. lia.
Qed.

(** X14.  With a buffer of [b >= 0] days the day window holds at most
    [2b+1] values per year of the range, every one of them a value of
    the frame; it is empty for a missing or empty frame and for a year
    range that ends before it starts. *)
Theorem sample_day_window_bounds (df : option frame) (target_dt : civil)
    (b start_yr end_yr : Z) :
  (0 <= b)%Z ->
  (forall v, In v (sample_day_window df target_dt b start_yr end_yr) ->
             exists rows, df = Some rows /\ In v (values rows)) /\
  (List.length (sample_day_window df target_dt b start_yr end_yr)
   <= Z.to_nat (end_yr + 1 - start_yr) * Z.to_nat (2 * b + 1))%nat /\
  ((end_yr < start_yr)%Z ->
   sample_day_window df target_dt b start_yr end_yr = []) /\
  (df = None \/ df = Some [] ->
   sample_day_window df target_dt b start_yr end_yr = []).
Proof.
  intro Hb. split; [| split; [| split]].
  - intros v Hv. now apply sample_day_window_In in Hv.
  - unfold sample_day_window.
    destruct df as [[| r rows] |]; [apply Nat.le_0_l | | apply Nat.le_0_l].
    eapply Nat.le_trans.
    + apply (flat_map_length_le _ (Z.to_nat (2 * b + 1))).
      intro y. apply window_of_year_length.
    + rewrite zrange_length. lia.
  - intro H. unfold sample_day_window. destruct df as [[| r rows] |];
      try reflexivity.
    unfold zrange. replace (Z.to_nat (end_yr + 1 - start_yr)) with 0%nat by lia.
    reflexivity.
  - intros [-> | ->]; reflexivity.
Qed.

Lemma sample_day_window_bounds_witness :
  (List.length (sample_day_window wet_january second_of_january 3 2024 2024)
   <= 7)%nat.
Proof.
  assert (Hb : (0 <= 3)%Z) by lia.
  exact (proj1 (proj2 (sample_day_window_bounds wet_january second_of_january
                         3 2024 2024 Hb))).
Defined.

Lemma flat_map_filter {A B : Type} (f : A -> list B) (keep : A -> bool)
    (l : list A) :
  (forall x, keep x = false -> f x = []) ->
  flat_map f l = flat_map f (filter keep l).
Proof.
  intro H. induction l as [| x l IH]; cbn [flat_map filter]; [reflexivity |].
  destruct (keep x) eqn:E; cbn [flat_map]; [now rewrite IH |].
  now rewrite (H x E), IH.
Qed.

Lemma no_leap_day_in_common_year (y : Z) :
  is_leap y = false -> timestamp y 2 29 = None.
Proof.
  intro H. unfold timestamp, days_in_month. rewrite H. reflexivity.
Qed.

(** X15.  For a target day of 29 February the window takes its values
    from leap years only: a common year contributes nothing, not even
    its 26 to 28 February or 1 to 3 March, so a range without a leap
    year gives an empty sample. *)
Theorem leap_day_window_skips_common_years (df : option frame) (yy b : Z)
    (start_yr end_yr : Z) :
  let target_dt := mkCivil yy 2 29 in
  (forall rows y, is_leap y = false ->
                  window_of_year rows target_dt b y = []) /\
  (forall r rows,
      df = Some (r :: rows) ->
      sample_day_window df target_dt b start_yr end_yr
      = flat_map (window_of_year (r :: rows) target_dt b)
                 (filter is_leap (zrange start_yr (end_yr + 1)))) /\
  ((forall y, (start_yr <= y <= end_yr)%Z -> is_leap y = false) ->
   sample_day_window df target_dt b start_yr end_yr = []).
Proof.
  intro target_dt.
  assert (Hcommon : forall rows y, is_leap y = false ->
                                   window_of_year rows target_dt b y = []).
  { intros rows y Hy. unfold window_of_year, target_dt. cbn [month day].
    rewrite (no_leap_day_in_common_year y Hy).
    induction (zrange (- b) (b + 1)) as [| off l IH]; [reflexivity | exact IH]. }
  split; [exact Hcommon |]. split.
  - intros r rows ->. cbn [sample_day_window].
    apply flat_map_filter. intros y Hy. now apply Hcommon.
  - intro Hall. unfold sample_day_window.
    destruct df as [[| r rows] |]; try reflexivity.
    rewrite (flat_map_filter _ is_leap) by (intros y Hy; now apply Hcommon).
    rewrite ForecastPaths.filter_all_false; [reflexivity |].
    intros y Hy. apply Hall.
    rewrite zrange_date_range in Hy. apply date_range_bounds in Hy. lia.
Qed.

Lemma leap_day_window_skips_common_years_witness :
  sample_day_window leap_day_neighbours (mkCivil 2025 2 29) 3 2025 2027 = [].
Proof.
  destruct (leap_day_window_skips_common_years leap_day_neighbours 2025 3
              2025 2027) as [_ [_ H]].
  apply H. intros y Hy.
  assert (E : y = 2025%Z \/ y = 2026%Z \/ y = 2027%Z) by lia.
  destruct E as [-> | [-> | ->]]; reflexivity.
Defined.

End SamplerFacts.

(** ** The statistics record and the sparkline *)

Module StatsFacts.

Import Num NumFacts Frames ForecastPower Properties Scenarios.

Lemma insert_sorted_ascending (x : Q) (l : list Q) :
  Sorted Qle l -> Sorted Qle (insert_sorted x l).
Proof.
  induction l as [| y l IH]; intro H; cbn [insert_sorted].
  - repeat constructor.
  - destruct (Qle_bool x y) eqn:E.
    + apply Qle_bool_iff in E. constructor; [exact H |]. now constructor.
    + apply Qle_bool_gt in E. inversion H as [| ? ? Hs Hh]; subst.
      constructor; [now apply IH |].
      destruct l as [| z l]; cbn [insert_sorted].
      * constructor. lra.
      * destruct (Qle_bool x z); constructor;
          [lra | inversion Hh; assumption].
Qed.

Lemma sort_ascending (l : list Q) : StronglySorted Qle (sort l).
Proof.
  apply Sorted_StronglySorted; [exact Qle_trans |].
  unfold sort. induction l as [| x l IH]; cbn [fold_right];
    [constructor | now apply insert_sorted_ascending].
Qed.

Lemma insert_sorted_perm (x : Q) (l : list Q) :
  Permutation (insert_sorted x l) (x :: l).
Proof.
  induction l as [| y l IH]; cbn [insert_sorted]; [reflexivity |].
  destruct (Qle_bool x y); [reflexivity |].
  rewrite IH. apply perm_swap.
Qed.

Lemma sort_perm (l : list Q) : Permutation (sort l) l.
Proof.
  unfold sort. induction l as [| x l IH]; cbn [fold_right]; [reflexivity |].
  rewrite insert_sorted_perm. now constructor.
Qed.

Lemma sorted_snoc {A : Type} (R : A -> A -> Prop) (l : list A) (x : A) :
  StronglySorted R l -> Forall (fun y => R y x) l ->
  StronglySorted R (l ++ [x]).
Proof.
  induction 1 as [| a l Hs IH Ha]; intro Hx; cbn [app].
  - repeat constructor.
  - inversion Hx as [| ? ? Hax Hlx]; subst.
    constructor; [now apply IH |].
    apply Forall_app. split; [exact Ha | now constructor].
Qed.

Lemma sorted_rev {A : Type} (R : A -> A -> Prop) (l : list A) :
  StronglySorted R l -> StronglySorted (fun a b => R b a) (rev l).
Proof.
  induction 1 as [| a l Hs IH Ha]; cbn [rev]; [constructor |].
  apply sorted_snoc; [exact IH |]. now apply Forall_rev.
Qed.

Lemma sorted_split {A : Type} (R : A -> A -> Prop) (n : nat) (l : list A) :
  StronglySorted R l ->
  StronglySorted R (firstn n l) /\
  forall x y, In x (firstn n l) -> In y (skipn n l) -> R x y.
Proof.
  intro H. revert n. induction H as [| a l Hs IH Ha]; intro n.
  - rewrite firstn_nil, skipn_nil. split; [constructor | intros x y []].
  - destruct n as [| n]; cbn [firstn skipn].
    + split; [constructor | intros x y []].
    + destruct (IH n) as [IH1 IH2]. split.
      * constructor; [exact IH1 |].
        rewrite Forall_forall in Ha |- *. intros x Hx. apply Ha.
        rewrite <- (firstn_skipn n l). apply in_or_app. now left.
      * intros x y [<- | Hx] Hy.
        -- rewrite Forall_forall in Ha. apply Ha.
           rewrite <- (firstn_skipn n l). apply in_or_app. now right.
        -- now apply IH2.
Qed.

(** X16.  For a non-empty sample the statistics record counts the
    sample, and its [top5] holds the five largest values (all of them
    for a smaller sample) in descending order: the sample is [top5]
    together with values that are all at most every value of [top5].
    An empty sample has no record. *)
Theorem hist_stats_top5 (arr : list Q) :
  hist_stats_from_array [] = None /\
  (arr <> [] ->
   exists st,
     hist_stats_from_array arr = Some st /\
     count st = List.length arr /\
     List.length (top5 st) = Nat.min 5 (List.length arr) /\
     StronglySorted (fun a b => b <= a) (top5 st) /\
     exists rest,
       Permutation arr (top5 st ++ rest) /\
       forall x y, In x (top5 st) -> In y rest -> y <= x).
Proof.
  split; [reflexivity |]. intro Hne.
  destruct arr as [| v arr]; [contradiction |].
  set (a := v :: arr) in *.
  eexists. split; [reflexivity |]. cbn [count top5].
  pose proof (sorted_rev Qle (sort a) (sort_ascending a)) as Hdesc.
  destruct (sorted_split _ 5 _ Hdesc) as [Htop Hrest].
  split; [reflexivity |].
  split.
  - rewrite length_firstn, length_rev.
    now rewrite (Permutation_length (sort_perm a)).
  - split; [exact Htop |].
    exists (skipn 5 (rev (sort a))). split; [| exact Hrest].
    rewrite firstn_skipn, <- Permutation_rev. symmetry. apply sort_perm.
Qed.

Lemma hist_stats_top5_witness :
  exists st,
    hist_stats_from_array [3; 9; 1; 7; 5; 8; 2] = Some st /\
    List.length (top5 st) = 5%nat /\
    StronglySorted (fun a b => b <= a) (top5 st).
Proof.
  destruct (hist_stats_top5 [3; 9; 1; 7; 5; 8; 2]) as [_ H].
  destruct H as [st [Hst [_ [Hlen [Hsorted _]]]]]; [discriminate |].
  exists st. split; [exact Hst |]. split; [exact Hlen | exact Hsorted].
Defined.

(** *** The sparkline *)

Lemma Qmin_choice (a b : Q) : Qmin a b = a \/ Qmin a b = b.
Proof.
  unfold Qmin, GenericMinMax.gmin. destruct (a ?= b); tauto.
Qed.

Lemma Qmax_choice (a b : Q) : Qmax a b = a \/ Qmax a b = b.
Proof.
  unfold Qmax, GenericMinMax.gmax. destruct (a ?= b); tauto.
Qed.

Lemma fold_min_spec (l : list Q) :
  forall a,
    fold_left Qmin l a <= a /\
    (forall x, In x l -> fold_left Qmin l a <= x) /\
    (fold_left Qmin l a = a \/ In (fold_left Qmin l a) l).
Proof.
  induction l as [| y l IH]; intro a; cbn [fold_left].
  - split; [lra |]. split; [intros x [] | now left].
  - destruct (IH (Qmin a y)) as [H1 [H2 H3]].
    pose proof (Q.le_min_l a y). pose proof (Q.le_min_r a y).
    split; [lra |]. split.
    + intros x [<- | Hx]; [lra | now apply H2].
    + destruct H3 as [E | Hin]; [| right; now right].
      rewrite E. destruct (Qmin_choice a y) as [-> | ->];
        [now left | right; now left].
Qed.

Lemma fold_max_spec (l : list Q) :
  forall a,
    a <= fold_left Qmax l a /\
    (forall x, In x l -> x <= fold_left Qmax l a).
Proof.
  induction l as [| y l IH]; intro a; cbn [fold_left].
  - split; [lra | intros x []].
  - destruct (IH (Qmax a y)) as [H1 H2].
    pose proof (Q.le_max_l a y). pose proof (Q.le_max_r a y).
    split; [lra |].
    intros x [<- | Hx]; [lra | now apply H2].
Qed.

Lemma nanmin_spec (vals : list Q) :
  vals <> [] ->
  In (nanmin vals) vals /\ forall x, In x vals -> nanmin vals <= x.
Proof.
  intro Hne. destruct vals as [| v l]; [contradiction |]. cbn [nanmin].
  destruct (fold_min_spec l v) as [H1 [H2 H3]]. split.
  - destruct H3 as [-> | H]; [now left | now right].
  - intros x [<- | Hx]; [exact H1 | now apply H2].
Qed.

Lemma nanmax_spec (vals : list Q) :
  forall x, In x vals -> x <= nanmax vals.
Proof.
  destruct vals as [| v l]; [intros x [] |]. cbn [nanmax].
  destruct (fold_max_spec l v) as [H1 H2].
  intros x [<- | Hx]; [exact H1 | now apply H2].
Qed.

Lemma normalise_unit (vals : list Q) :
  (forall x, In x (normalise vals) -> 0 <= x <= 1) /\
  (vals <> [] -> exists x, In x (normalise vals) /\ x == 0).
Proof.
  unfold normalise.
  set (rng := py_max sparkline_floor (nanmax vals - nanmin vals)).
  assert (Hrng : 0 < rng /\ nanmax vals - nanmin vals <= rng).
  { destruct (py_max_spec sparkline_floor (nanmax vals - nanmin vals))
      as [H1 [H2 _]].
    fold rng in H1, H2. split; [| exact H2].
    apply Qlt_le_trans with sparkline_floor; [reflexivity | exact H1]. }
  destruct Hrng as [Hpos Hspread]. split.
  - intros x Hx. apply in_map_iff in Hx. destruct Hx as [v [<- Hv]].
    assert (Hne : vals <> []) by (intro E; rewrite E in Hv; destruct Hv).
    destruct (nanmin_spec vals Hne) as [_ Hmin].
    pose proof (Hmin v Hv). pose proof (nanmax_spec vals v Hv). split.
    + apply Qle_shift_div_l; [exact Hpos | lra].
    + apply Qle_shift_div_r; [exact Hpos | lra].
  - intro Hne. destruct (nanmin_spec vals Hne) as [Hin _].
    exists ((nanmin vals - nanmin vals) / rng). split.
    + apply in_map_iff. exists (nanmin vals). now split.
    + field. lra.
Qed.

Lemma tail_nonempty {A : Type} (k : nat) (l : list A) :
  (0 < k)%nat -> l <> [] -> Num.tail k l <> [].
Proof.
  intros Hk Hne E. apply (f_equal (@List.length _)) in E.
  unfold Num.tail in E. rewrite length_skipn in E.
  destruct l; [contradiction | cbn [List.length] in E; lia].
Qed.

(** X17.  A sparkline exists exactly when there is a forecast row or a
    temperature row; it has at most twenty points, all between 0 and 1,
    and its lowest input is drawn at 0. *)
Theorem sparkline_points (fore : list forecast_row) (df_temp : option frame) :
  (sparkline fore df_temp = None <->
   fore = [] /\ (df_temp = None \/ df_temp = Some [])) /\
  (forall points,
      sparkline fore df_temp = Some points ->
      (1 <= List.length points <= 20)%nat /\
      (forall x, In x points -> 0 <= x <= 1) /\
      (exists x, In x points /\ x == 0)).
Proof.
  split.
  - unfold sparkline. destruct fore as [| r fore].
    + destruct df_temp as [[| t rows] |]; split; intro H;
        try discriminate; try reflexivity; try tauto.
      destruct H as [_ [H | H]]; discriminate.
    + split; [discriminate | intros [H _]; discriminate].
  - intros points H.
    assert (Hn : exists vals,
               vals <> [] /\ (List.length vals <= 20)%nat /\
               points = normalise vals).
    { unfold sparkline in H. destruct fore as [| r fore].
      - destruct df_temp as [[| t rows] |]; try discriminate.
        injection H as <-. eexists. split; [| split; [| reflexivity]].
        + apply tail_nonempty; [lia | unfold values; discriminate].
        + unfold Num.tail. rewrite length_skipn. lia.
      - injection H as <-. eexists. split; [| split; [| reflexivity]].
        + discriminate.
        + change (List.length (firstn 20 (map row_mean (r :: fore))) <= 20)%nat.
          apply firstn_le_length. }
    destruct Hn as [vals [Hne [Hlen ->]]].
    destruct (normalise_unit vals) as [Hunit Hzero].
    split; [| split; [exact Hunit | now apply Hzero]].
    unfold normalise. rewrite length_map.
    destruct vals; [contradiction | cbn [List.length] in *; lia].
Qed.

Lemma sparkline_points_witness :
  exists points,
    sparkline two_days None = Some points /\
    forall x, In x points -> 0 <= x <= 1.
Proof.
  eexists. split; [reflexivity |].
  exact (proj1 (proj2 (proj2 (sparkline_points two_days None) _ eq_refl))).
Defined.

End StatsFacts.

(** ** Lag features in training and in forecasting *)

Module LagFeatures.

Import Num Calendar CalendarFacts Frames ForecastMultivariate Properties
       Scenarios.
Import FetchFacts ForecastPaths.

Lemma assign_keys {A : Type} (k : string) (v : A) (d : list (string * A))
    (k' : string) :
  In k' (map fst (assign k v d)) <-> k' = k \/ In k' (map fst d).
Proof.
  split.
  - intro H. apply in_map_iff in H. destruct H as [[k0 v0] [<- H]].
    apply assign_In in H. destruct H as [[-> _] | H]; [now left |].
    right. apply in_map_iff. now exists (k0, v0).
  - intros [-> | H].
    + apply in_map_iff. exists (k, v). split; [reflexivity | apply assign_key].
    + apply in_map_iff in H. destruct H as [[k0 v0] [<- H]].
      destruct (assign_other k v d k0 (ex_intro _ v0 H)) as [w Hw].
      apply in_map_iff. now exists (k0, w).
Qed.

(** The keys after a run of assignments. *)
Lemma fold_assign_keys {A X : Type} (name : X -> string) (val : X -> A)
    (xs : list X) :
  forall (d : list (string * A)) (k : string),
    In k (map fst (fold_left (fun out x => assign (name x) (val x) out) xs d))
    <-> In k (map name xs) \/ In k (map fst d).
Proof.
  induction xs as [| x xs IH]; intros d k; cbn [fold_left map].
  - split; [now right | intros [[] | H]; exact H].
  - rewrite IH, assign_keys. cbn [In]. split.
    + intros [H | [H | H]]; [left; now right | left; now left | now right].
    + intros [[H | H] | H]; [right; now left | now left | right; now right].
Qed.

Lemma lagged_keys (lags : nat) (df : list (string * list (option Q))) :
  forall (d : list (string * list (option Q))) (k : string),
    In k (map fst
            (fold_left
               (fun out c =>
                  fold_left
                    (fun out' lag =>
                       assign (lag_name (fst c) lag) (shift lag (snd c)) out')
                    (seq 1 lags) out)
               df d))
    <-> (exists c, In c df /\ In k (map (lag_name (fst c)) (seq 1 lags)))
        \/ In k (map fst d).
Proof.
  induction df as [| c df IH]; intros d k; cbn [fold_left].
  - split; [now right | intros [[c [[] _]] | H]; exact H].
  - rewrite IH.
    rewrite (fold_assign_keys (lag_name (fst c)) (fun lag => shift lag (snd c))).
    split.
    + intros [[c' [Hc Hk]] | [Hk | Hk]].
      * left. exists c'. split; [now right | exact Hk].
      * left. exists c. split; [now left | exact Hk].
      * now right.
    + intros [[c' [[<- | Hc] Hk]] | Hk].
      * right. now left.
      * left. now exists c'.
      * right. now right.
Qed.

Lemma feature_names_In (lags : nat) (names : list string) (k : string) :
  In k (feature_names lags names)
  <-> exists col, In col names /\
                  (In k (map (lag_name col) (seq 1 lags)) \/ k = curr_name col).
Proof.
  unfold feature_names. rewrite in_flat_map. split.
  - intros [col [Hc Hk]]. exists col. split; [exact Hc |].
    apply in_app_or in Hk. destruct Hk as [Hk | [<- | []]]; [now left | now right].
  - intros [col [Hc [Hk | ->]]]; exists col; (split; [exact Hc |]);
      apply in_or_app; [now left | right; now left].
Qed.

Lemma create_lag_features_names (df : list (string * list (option Q)))
    (lags : nat) (k : string) :
  In k (map fst (create_lag_features df lags))
  <-> In k (feature_names lags (map fst df)).
Proof.
  unfold create_lag_features.
  rewrite (fold_assign_keys (fun c => curr_name (fst c)) snd).
  rewrite lagged_keys, feature_names_In. cbn [map In]. split.
  - intros [Hk | [[c [Hc Hk]] | []]].
    + apply in_map_iff in Hk. destruct Hk as [c [<- Hc]].
      exists (fst c). split; [now apply in_map | now right].
    + exists (fst c). split; [now apply in_map | now left].
  - intros [col [Hc [Hk | ->]]]; apply in_map_iff in Hc;
      destruct Hc as [c [<- Hc]].
    + right. left. now exists c.
    + left. apply in_map_iff. now exists c.
Qed.

(** X18.  The feature columns [create_lag_features] builds for training
    carry exactly the names [iterative_forecast] assigns in its feature
    row, so a forecast over at least one day from a frame whose columns
    are not empty never misses a feature: it returns one row per
    requested day. *)
Theorem trained_features_are_served (predict : list Q -> Q) (index : list Z)
    (df_hist : columns) (days : Z) (lags : nat) (last : Z) :
  (forall k,
      In k (map fst (create_lag_features (to_cells df_hist) lags))
      <-> In k (feature_names lags (map fst df_hist))) /\
  ((1 <= days)%Z ->
   index_max index = Some last ->
   (forall c, In c df_hist -> snd c <> []) ->
   exists p,
     iterative_forecast predict index df_hist days
       (map fst (create_lag_features (to_cells df_hist) lags)) lags = Some p /\
     List.length p = Z.to_nat days).
Proof.
  assert (Hnames : forall k,
             In k (map fst (create_lag_features (to_cells df_hist) lags))
             <-> In k (feature_names lags (map fst df_hist))).
  { intro k. rewrite create_lag_features_names.
    unfold to_cells. rewrite map_map. cbn [fst]. reflexivity. }
  split; [exact Hnames |].
  intros Hdays Hlast Hne.
  destruct (iterative_forecast_dates predict index df_hist days
              (map fst (create_lag_features (to_cells df_hist) lags))
              lags last Hdays Hlast Hne) as [p [Hp Hd]].
  { intros f Hf. now apply Hnames. }
  exists p. split; [exact Hp |].
  rewrite <- (length_map fst), Hd. apply date_range_length.
Qed.

Lemma trained_features_are_served_witness :
  exists p,
    iterative_forecast average_of_lags [738886%Z; 738887%Z; 738888%Z]
      two_columns 4
      (map fst (create_lag_features (to_cells two_columns) 2)) 2 = Some p /\
    List.length p = 4%nat.
Proof.
  destruct (trained_features_are_served average_of_lags
              [738886%Z; 738887%Z; 738888%Z] two_columns 4 2 738888)
    as [_ H].
  apply H.
  - lia.
  - reflexivity.
  - intros c [<- | [<- | []]]; discriminate.
Defined.

Lemma py_index_from_end (vals : list Q) (k : nat) :
  (1 <= k <= List.length vals)%nat ->
  py_index vals (- Z.of_nat k) = nth_error vals (List.length vals - k).
Proof.
  intro H. unfold py_index.
  replace (- Z.of_nat k <? 0)%Z with true by (symmetry; apply Z.ltb_lt; lia).
  replace ((0 <=? Z.of_nat (List.length vals) + - Z.of_nat k)
           && (Z.of_nat (List.length vals) + - Z.of_nat k
               <? Z.of_nat (List.length vals)))%Z%bool
    with true by (symmetry; apply andb_true_iff; split; lia).
  f_equal. lia.
Qed.

Lemma shift_nth (k : nat) (cells : list (option Q)) (i : nat) :
  (k <= i < List.length cells)%nat ->
  nth_error (shift k cells) i = nth_error cells (i - k).
Proof.
  intro H. unfold shift.
  rewrite nth_error_firstn.
  replace (i <? List.length cells)%nat with true
    by (symmetry; apply Nat.ltb_lt; lia).
  rewrite nth_error_app2 by (rewrite repeat_length; lia).
  now rewrite repeat_length.
Qed.

(** X19.  In the row that [iterative_forecast] builds, lag [k] of a
    column is its [k]-th value from the end, so that lag 1 repeats the
    current value, and a lag longer than the history is the oldest
    value; in the last row of the training table that
    [create_lag_features] builds, lag [k] is the value [k] days before
    the last, one day older than the forecasting row's. *)
Theorem lag_of_forecast_and_training (vals : list Q) (k : nat) :
  let n := List.length vals in
  lag_value vals 1 = py_index vals (-1) /\
  ((1 <= k <= n)%nat -> lag_value vals k = nth_error vals (n - k)) /\
  ((n < k)%nat -> lag_value vals k = nth_error vals 0) /\
  ((1 <= k < n)%nat ->
   nth_error (shift k (map Some vals)) (n - 1)
   = option_map Some (nth_error vals (n - 1 - k))).
Proof.
  intro n. split; [| split; [| split]].
  - unfold lag_value. cbn [Z.of_nat Pos.of_succ_nat Z.opp Z.abs].
    destruct (1 <=? Z.of_nat (List.length vals))%Z eqn:E; [reflexivity |].
    apply Z.leb_gt in E. destruct vals; [reflexivity | cbn [List.length] in E; lia].
  - intro H. unfold lag_value.
    replace (Z.abs (- Z.of_nat k) <=? Z.of_nat (List.length vals))%Z with true
      by (symmetry; apply Z.leb_le; lia).
    now apply py_index_from_end.
  - intro H. unfold lag_value.
    replace (Z.abs (- Z.of_nat k) <=? Z.of_nat (List.length vals))%Z with false
      by (symmetry; apply Z.leb_gt; lia).
    unfold py_index. cbn [Z.ltb Z.compare Z.to_nat].
    destruct vals as [| v vals]; [reflexivity |].
    replace ((0 <=? 0) && (0 <? Z.of_nat (List.length (v :: vals))))%Z%bool
      with true
      by (symmetry; apply andb_true_iff; split;
          [reflexivity | apply Z.ltb_lt; cbn [List.length]; lia]).
    reflexivity.
  - intro H. rewrite shift_nth by (rewrite length_map; fold n; lia).
    apply nth_error_map.
Qed.

Lemma lag_of_forecast_and_training_witness :
  lag_value [20; 21; 22; 23] 2 = Some 22 /\
  nth_error (shift 2 (map Some [20; 21; 22; 23])) 3 = Some (Some 21).
Proof.
  destruct (lag_of_forecast_and_training [20; 21; 22; 23] 2)
    as [_ [Hf [_ Ht]]].
  split.
  - apply Hf. cbn [List.length]. lia.
  - apply Ht. cbn [List.length]. lia.
Defined.

(** *** When [iterative_forecast] returns *)

Lemma sequence_some_all {A : Type} (l : list (option A)) (xs : list A) :
  sequence l = Some xs -> forall x, In x l -> x <> None.
Proof.
  revert xs. induction l as [| [a |] l IH]; intros xs H x Hx; cbn in H.
  - destruct Hx.
  - destruct (sequence l) as [ys |]; [| discriminate].
    destruct Hx as [<- | Hx]; [discriminate | now apply (IH ys)].
  - discriminate.
Qed.

Lemma column_features_empty (lags : nat) (col : string) :
  column_features lags (col, []) = None.
Proof.
  unfold column_features.
  destruct (sequence _) as [entries |] eqn:Es; [| reflexivity].
  exfalso. apply (sequence_some_all _ _ Es None); [| reflexivity].
  apply in_or_app. right. now left.
Qed.

Lemma feature_row_columns (lags : nat) (history : columns)
    (row : list (string * Q)) :
  feature_row lags history = Some row ->
  forall c, In c history -> snd c <> [].
Proof.
  unfold feature_row.
  destruct (sequence (map (column_features lags) history)) as [blocks |] eqn:E;
    [| discriminate].
  intros _ [col vals] Hc Hempty. cbn [snd] in Hempty. subst vals.
  apply (sequence_some_all _ _ E (column_features lags (col, []))).
  - now apply in_map.
  - apply column_features_empty.
Qed.

Lemma dict_get_key (row : list (string * Q)) (c : string) (v : Q) :
  dict_get row c = Some v -> In c (map fst row).
Proof.
  unfold dict_get.
  destruct (find _ (rev row)) as [[k w] |] eqn:E; [| discriminate].
  intros _. apply find_some in E. destruct E as [Hin Hk].
  cbn [fst] in Hk. apply String.eqb_eq in Hk. subst k.
  apply in_rev in Hin. apply in_map_iff. now exists (c, w).
Qed.

Lemma feature_vector_keys (row : list (string * Q)) (features_cols : list string)
    (x : list Q) :
  feature_vector row features_cols = Some x ->
  forall c, In c features_cols -> In c (map fst row).
Proof.
  unfold feature_vector. intros H c Hc.
  pose proof (sequence_some_all _ _ H (dict_get row c) (in_map _ _ _ Hc)) as Hv.
  destruct (dict_get row c) as [v |] eqn:E; [| contradiction].
  now apply dict_get_key in E.
Qed.

(** X20.  [iterative_forecast] returns a frame exactly when the
    historical index is not empty, the horizon is at least one day, no
    column is empty and every name of the feature list is one of the
    lag or current-value names of the columns; in every other case it
    raises (a horizon of zero days raises as well, it does not give an
    empty frame). *)
Theorem iterative_forecast_returns_iff (predict : list Q -> Q) (index : list Z)
    (df_hist : columns) (days : Z) (features_cols : list string) (lags : nat) :
  iterative_forecast predict index df_hist days features_cols lags <> None
  <-> index <> [] /\
      (1 <= days)%Z /\
      (forall c, In c df_hist -> snd c <> []) /\
      (forall f, In f features_cols ->
                 In f (feature_names lags (map fst df_hist))).
Proof.
  split.
  - unfold iterative_forecast.
    destruct (index_max index) as [last |] eqn:Elast;
      [| intro H; now contradiction H].
    assert (Hidx : index <> []) by (intro E; rewrite E in Elast; discriminate).
    destruct (Z_lt_le_dec days 1) as [Hlt | Hge].
    + unfold zrange. replace (Z.to_nat (days + 1 - 1)) with 0%nat by lia.
      cbn [seq map forecast_loop]. intro H. now contradiction H.
    + rewrite zrange_date_range.
      replace (Z.to_nat (days + 1 - 1)) with (S (Z.to_nat (days - 1))) by lia.
      rewrite date_range_cons. cbn [forecast_loop].
      destruct (feature_row lags df_hist) as [row |] eqn:Erow;
        [| intro H; now contradiction H].
      destruct (feature_vector row features_cols) as [x |] eqn:Ex;
        [| intro H; now contradiction H].
      intros _.
      pose proof (feature_row_columns lags df_hist row Erow) as Hne.
      split; [exact Hidx |]. split; [exact Hge |]. split; [exact Hne |].
      intros f Hf.
      destruct (feature_row_keys lags df_hist Hne) as [row' [Erow' Hkeys]].
      rewrite Erow in Erow'. injection Erow' as <-.
      rewrite <- Hkeys. now apply (feature_vector_keys row features_cols x).
  - intros [Hidx [Hdays [Hne Hfeat]]].
    destruct (index_max index) as [last |] eqn:Elast.
    + destruct (iterative_forecast_dates predict index df_hist days
                  features_cols lags last Hdays Elast Hne Hfeat) as [p [Hp _]].
      rewrite Hp. discriminate.
    + destruct index; [contradiction | discriminate].
Qed.

Lemma iterative_forecast_returns_iff_witness :
  iterative_forecast average_of_lags [738886%Z; 738887%Z; 738888%Z] two_columns
                     0 three_features 2 = None.
Proof.
  destruct (iterative_forecast average_of_lags [738886%Z; 738887%Z; 738888%Z]
              two_columns 0 three_features 2) as [p |] eqn:E; [| reflexivity].
  exfalso.
  assert (H : iterative_forecast average_of_lags
                [738886%Z; 738887%Z; 738888%Z] two_columns 0 three_features 2
              <> None) by (rewrite E; discriminate).
  apply iterative_forecast_returns_iff in H. lia.
Defined.

End LagFeatures.

(** ** What [forecast_prophet] returns in general *)

Module ProphetWindow.

Import Num Calendar CalendarFacts Frames ForecastPower ForecastPaths
       Properties Scenarios.
Local Open Scope Z_scope.

Lemma date_range_increasing (n : nat) :
  forall s, StronglySorted Z.lt (date_range s n).
Proof.
  induction n as [| n IH]; intro s.
  - constructor.
  - rewrite date_range_cons. constructor; [apply IH |].
    apply Forall_forall. intros d Hd. apply date_range_bounds in Hd. lia.
Qed.

Lemma sorted_app (l1 l2 : list Z) :
  StronglySorted Z.lt l1 -> StronglySorted Z.lt l2 ->
  (forall x y, In x l1 -> In y l2 -> x < y) ->
  StronglySorted Z.lt (l1 ++ l2).
Proof.
  induction 1 as [| a l1 Hs IH Ha]; intros H2 Hlt; cbn [app]; [exact H2 |].
  constructor.
  - apply IH; [exact H2 |]. intros x y Hx Hy. apply Hlt; [now right | exact Hy].
  - apply Forall_app. split; [exact Ha |].
    apply Forall_forall. intros y Hy. apply Hlt; [now left | exact Hy].
Qed.

Lemma sorted_filter (keep : Z -> bool) (l : list Z) :
  StronglySorted Z.lt l -> StronglySorted Z.lt (filter keep l).
Proof.
  induction 1 as [| a l Hs IH Ha]; cbn [filter]; [constructor |].
  destruct (keep a); [| exact IH].
  constructor; [exact IH |].
  rewrite Forall_forall in Ha |- *. intros x Hx.
  apply Ha. apply filter_In in Hx. tauto.
Qed.

(** Strictly increasing days inside a window are no more than the
    window is long. *)
Lemma sorted_window_length (l : list Z) :
  StronglySorted Z.lt l ->
  forall a b, (forall d, In d l -> a <= d <= b) ->
              Z.of_nat (List.length l) <= Z.max 0 (b - a + 1).
Proof.
  induction 1 as [| d l Hs IH Hd]; intros a b Hw; cbn [List.length]; [lia |].
  assert (Hda : a <= d <= b) by (apply Hw; now left).
  specialize (IH (d + 1) b).
  assert (Hl : forall e, In e l -> d + 1 <= e <= b).
  { intros e He. rewrite Forall_forall in Hd. specialize (Hd e He).
    specialize (Hw e (or_intror He)). lia. }
  specialize (IH Hl). lia.
Qed.

Lemma slice_dates_of (m : prophet_model) (g : Simulation.rng_state) (a b : Z)
    (fut dates : list Z) :
  path_dates
    (filter (in_slice a b)
       (map (fun d => mkRow d (yhat m d)
                            (fst (yhat_interval m g fut d))
                            (snd (yhat_interval m g fut d))) dates))
  = filter (fun d => (a <=? d) && (d <=? b))%bool dates.
Proof.
  unfold path_dates. induction dates as [| d dates IH]; cbn [map filter];
    [reflexivity |].
  unfold in_slice at 1. cbn [row_date].
  destruct ((a <=? d) && (d <=? b))%bool; cbn [map row_date];
    [now rewrite IH | exact IH].
Qed.

Lemma slice_dates (m : prophet_model) (g : Simulation.rng_state) (a b : Z)
    (future : list Z) :
  path_dates (filter (in_slice a b) (fst (predict m g future)))
  = filter (fun d => (a <=? d) && (d <=? b))%bool future.
Proof. apply slice_dates_of. Qed.

Lemma predict_dates (m : prophet_model) (g : Simulation.rng_state)
    (future : list Z) (r : forecast_row) :
  In r (fst (predict m g future)) -> In (row_date r) future.
Proof.
  unfold predict. cbn [fst]. intro H. apply in_map_iff in H.
  destruct H as [d [<- Hd]]. exact Hd.
Qed.

(** X21.  For a history in strictly increasing date order that Prophet
    can fit, [forecast_prophet] returns rows with strictly increasing
    dates, all inside the requested window
    [start, start + steps - 1], hence at most [steps] rows; and it
    returns no row at all when the window begins more than [steps] days
    after the last historical day. *)
Theorem forecast_prophet_window (caps : capabilities)
    (g : Simulation.rng_state) (history : frame)
    (start steps last : Z) (m : prophet_model) :
  StronglySorted Z.lt (index history) ->
  prophet_fit caps history = Some m ->
  index_max (index history) = Some last ->
  0 <= steps ->
  exists p g',
    forecast_prophet caps g history start steps = Some (p, g') /\
    StronglySorted Z.lt (path_dates p) /\
    (forall d, In d (path_dates p) -> start <= d <= start + steps - 1) /\
    Z.of_nat (List.length p) <= steps /\
    (last + steps < start -> p = []).
Proof.
  intros Hsorted Hfit Hlast Hsteps.
  unfold forecast_prophet. rewrite Hfit.
  unfold make_future_dataframe. rewrite Hlast.
  destruct (steps + 1 <? 0) eqn:Eneg; [lia |].
  set (future := index history ++ date_range (last + 1) (Z.to_nat steps)).
  rewrite (surjective_pairing (predict m g future)).
  eexists. eexists. split; [reflexivity |].
  assert (Hfuture : StronglySorted Z.lt future).
  { apply sorted_app; [exact Hsorted | apply date_range_increasing |].
    intros x y Hx Hy. pose proof (index_max_upper _ _ Hlast x Hx).
    apply date_range_bounds in Hy. lia. }
  assert (Hdates : StronglySorted Z.lt
                     (path_dates
                        (filter (in_slice start (start + (steps - 1)))
                                (fst (predict m g future)))))
    by (rewrite slice_dates; now apply sorted_filter).
  assert (Hwin : forall d,
             In d (path_dates
                     (filter (in_slice start (start + (steps - 1)))
                             (fst (predict m g future)))) ->
             start <= d <= start + steps - 1).
  { intros d Hd. rewrite slice_dates in Hd. apply filter_In in Hd.
    destruct Hd as [_ Hd]. apply andb_true_iff in Hd. lia. }
  split; [exact Hdates |]. split; [exact Hwin |]. split.
  - pose proof (sorted_window_length _ Hdates start (start + steps - 1) Hwin)
      as Hlen.
    unfold path_dates in Hlen. rewrite length_map in Hlen. lia.
  - intro Hlate. apply filter_all_false.
    intros r Hr. apply predict_dates in Hr.
    unfold in_slice.
    assert (row_date r <= last + steps).
    { unfold future in Hr. apply in_app_or in Hr. destruct Hr as [Hd | Hd].
      - pose proof (index_max_upper _ _ Hlast _ Hd). lia.
      - apply date_range_bounds in Hd. lia. }
    apply andb_false_iff. left. apply Z.leb_gt. lia.
Qed.

Lemma forecast_prophet_window_witness :
  exists g',
    forecast_prophet caps_prophet_only every_second recent_history 738895 3
    = Some ([], g').
Proof.
  assert (Hsorted : StronglySorted Z.lt (index recent_history)).
  { repeat constructor. }
  destruct (forecast_prophet_window caps_prophet_only every_second
              recent_history 738895 3 738888 sampling_model
              Hsorted eq_refl eq_refl)
    as [p [g' [Hp [_ [_ [_ Hempty]]]]]]; [lia |].
  exists g'. rewrite Hp. f_equal. f_equal. apply Hempty. lia.
Defined.

End ProphetWindow.

(** ** How the stages of [forecast_power.main] compose *)

Module Composition.

Import Num NumFacts Calendar CalendarFacts Frames Simulation ForecastPower
       ForecastPaths Properties Scenarios.

(** X22.  When SARIMAX cannot be fitted, Prophet can, the horizon is
    not negative and the forecast start lies more than [forecast_days]
    days after the last historical day, forecasting and simulation do
    not fail: they yield an empty forecast frame, no per-day probability
    and not-a-number as the pooled exceedance probability.  (With a
    horizon below -1 Prophet's future frame cannot be built and the run
    ends.) *)
Theorem stale_history_gives_nan (caps : capabilities) (a : cli) (today : Z)
    (g : rng_state) (df : frame) (m : prophet_model) (last : Z) :
  fit_sarimax caps (values df) = None ->
  prophet_fit caps df = Some m ->
  index_max (index df) = Some last ->
  (0 <= forecast_days a)%Z ->
  (last + forecast_days a < start_of a today)%Z ->
  forecast_and_simulate caps a today g df = Some ([], mkExceedance [] NaN) /\
  forall b, (forecast_days b < -1)%Z ->
            forecast_prophet caps g df (start_of b today) (forecast_days b)
            = None.
Proof.
  intros Hsar Hfit Hlast Hdays Hlate. split.
  - unfold forecast_and_simulate, forecast_stage. rewrite Hsar.
    assert (HP : exists fit, Prophet caps = Some fit).
    { unfold prophet_fit in Hfit. destruct (Prophet caps) as [fit |];
        [now exists fit | discriminate]. }
    destruct HP as [fit HP]. rewrite HP.
    unfold forecast_prophet. rewrite Hfit.
    unfold make_future_dataframe. rewrite Hlast.
    destruct (forecast_days a + 1 <? 0)%Z eqn:Eneg; [lia |].
    unfold predict.
    rewrite filter_all_false; [reflexivity |].
    intros r Hr. apply in_map_iff in Hr. destruct Hr as [d [<- Hd]].
    unfold in_slice. cbn [row_date].
    destruct ((start_of a today <=? d)
              && (d <=? start_of a today + (forecast_days a - 1)))%Z eqn:E;
      [| reflexivity].
    exfalso. apply andb_true_iff in E. destruct E as [E1 E2].
    apply Z.leb_le in E1. apply Z.leb_le in E2.
    apply in_app_or in Hd. destruct Hd as [Hd | Hd].
    + pose proof (index_max_upper _ _ Hlast d Hd). lia.
    + apply date_range_bounds in Hd. lia.
  - intros b Hb. unfold forecast_prophet. rewrite Hfit.
    unfold make_future_dataframe.
    destruct (forecast_days b + 1 <? 0)%Z eqn:Eneg; [reflexivity | lia].
Qed.

Lemma stale_history_gives_nan_witness :
  forecast_and_simulate caps_prophet_only cli_no_override 738895 every_second
                        recent_history
  = Some ([], mkExceedance [] NaN).
Proof.
  apply (stale_history_gives_nan caps_prophet_only cli_no_override 738895
           every_second recent_history sampling_model 738888).
  - reflexivity.
  - reflexivity.
  - reflexivity.
  - vm_compute. discriminate.
  - vm_compute. reflexivity.
Defined.

(** X24.  The risk score of the compact summary is always the score of
    the displayed precipitation: a displayed value exists whenever an
    adjusted or a raw one does, so the fall-backs of the candidate are
    never taken.  Without precipitation rows nothing is displayed and
    the summary reports score 0 and "Low Risk". *)
Theorem risk_score_follows_display (df_temp df_prec df_wind : option frame)
    (tomorrow : civil) (start_yr end_yr : Z) :
  let c := compact_summary df_temp df_prec df_wind tomorrow start_yr end_yr in
  climate_risk_score c = score_of (forecast_precip c) /\
  compact_risk_label c = risk_label (score_of (forecast_precip c)) /\
  (forecast_precip c = None <-> df_prec = None \/ df_prec = Some []) /\
  (df_prec = None \/ df_prec = Some [] ->
   forecast_raw_precip c = None /\
   forecast_adjusted_precip c = None /\
   climate_risk_score c = 0%Z /\
   compact_risk_label c = "Low Risk"%string).
Proof.
  intro c.
  assert (Hscore : climate_risk_score c = score_of (forecast_precip c)).
  { unfold c, compact_summary, compact_of_samples.
    cbn [climate_risk_score forecast_precip].
    set (sample := sample_day_window df_prec tomorrow buffer start_yr end_yr).
    set (fp := recent_mean df_prec).
    set (adj := adjusted_prec fp (recent_prec_var df_prec)
                  (prior_mean_prec (hist_stats_from_array sample)
                                   (hist_avg sample df_prec))
                  (prior_prec_var sample (hist_stats_from_array sample))).
    destruct (display_prec adj fp (hist_stats_from_array sample)
                           (hist_avg sample df_prec)) as [x |] eqn:Ed;
      [reflexivity |].
    unfold display_prec in Ed.
    destruct (first_some adj fp) as [bp |].
    - destruct (display_bounds _ _) as [[lo hi] |]; discriminate.
    - reflexivity. }
  assert (Hnone : forecast_precip c = None
                  <-> df_prec = None \/ df_prec = Some []).
  { unfold c, compact_summary, compact_of_samples. cbn [forecast_precip].
    unfold display_prec. split.
    - destruct df_prec as [[| r rows] |]; [tauto | | tauto].
      cbn [recent_mean adjusted_prec].
      destruct (ensure_non_negative _) as [x |]; cbn [first_some];
        destruct (display_bounds _ _) as [[lo hi] |]; discriminate.
    - intros [-> | ->]; reflexivity. }
  split; [exact Hscore |].
  split; [unfold c, compact_summary, compact_of_samples in *; cbn [compact_risk_label];
          cbn [climate_risk_score forecast_precip] in Hscore;
          now rewrite Hscore |].
  split; [exact Hnone |].
  intros [-> | ->]; repeat split; reflexivity.
Qed.

Lemma risk_score_follows_display_witness :
  climate_risk_score
    (compact_summary wet_january None wet_january second_of_january 2024 2024)
  = 0%Z.
Proof.
  destruct (risk_score_follows_display wet_january None wet_january
              second_of_january 2024 2024) as [_ [_ [_ H]]].
  destruct (H (or_introl eq_refl)) as [_ [_ [Hs _]]]. exact Hs.
Defined.

Lemma map_snd_combine {A B : Type} (l : list A) :
  forall l' : list B, List.length l = List.length l' -> map snd (combine l l') = l'.
Proof.
  induction l as [| a l IH]; intros [| b l'] H; cbn in *; try reflexivity;
    try discriminate.
  f_equal. apply IH. lia.
Qed.

(** The numbers of a forecast row. *)
Lemma to_row_values (d : Z) (p : Q * Q * Q) :
  (row_mean (to_row d p), row_lower (to_row d p), row_upper (to_row d p)) = p.
Proof. destruct p as [[m lo] hi]. reflexivity. Qed.

(** X25.  For a horizon of at least one day the start date only labels
    the rows of [forecast_sarimax]: row [i] carries the fitted model's
    prediction [i+1] steps after the end of the series it was fitted on,
    whatever the start date is, so two start dates give the same means
    and intervals. *)
Theorem forecast_sarimax_values (res : fitted) (start other steps : Z) :
  (1 <= steps)%Z ->
  exists p q,
    forecast_sarimax res start steps = Some p /\
    forecast_sarimax res other steps = Some q /\
    map (fun r => (row_mean r, row_lower r, row_upper r)) p
    = map (predict_step res) (seq 1 (Z.to_nat steps)) /\
    map (fun r => (row_mean r, row_lower r, row_upper r)) q
    = map (fun r => (row_mean r, row_lower r, row_upper r)) p.
Proof.
  intro Hsteps.
  assert (Hvals : forall s,
             map (fun r => (row_mean r, row_lower r, row_upper r))
                 (map (fun dp => to_row (fst dp) (snd dp))
                      (combine (date_range s (Z.to_nat steps))
                               (get_forecast res steps)))
             = map (predict_step res) (seq 1 (Z.to_nat steps))).
  { intro s. rewrite map_map.
    erewrite map_ext; [| intro dp; apply to_row_values].
    apply map_snd_combine. unfold get_forecast.
    now rewrite date_range_length, length_map, length_seq. }
  unfold forecast_sarimax.
  destruct (steps <? 1)%Z eqn:E; [lia |].
  eexists. eexists. split; [reflexivity |]. split; [reflexivity |].
  split; [apply Hvals | now rewrite !Hvals].
Qed.

Lemma forecast_sarimax_values_witness :
  exists p q,
    forecast_sarimax flat_model 738889 3 = Some p /\
    forecast_sarimax flat_model 738895 3 = Some q /\
    map (fun r => (row_mean r, row_lower r, row_upper r)) q
    = map (fun r => (row_mean r, row_lower r, row_upper r)) p.
Proof.
  destruct (forecast_sarimax_values flat_model 738889 738895 3)
    as [p [q [Hp [Hq [_ H]]]]]; [lia |].
  exists p, q. split; [exact Hp |]. split; [exact Hq | exact H].
Defined.

End Composition.

(** ** The order of the quartiles *)

Module Quartiles.

Import Num NumFacts Frames ForecastPower StatsFacts Properties Scenarios.

Lemma percentile_interpolate (l : list Q) (pct : Q) :
  percentile l pct = interpolate (sort l) ((Qlen l - 1) * pct / 100).
Proof. reflexivity. Qed.

Lemma sorted_nth_le (s : list Q) :
  StronglySorted Qle s ->
  forall i j, (i <= j < List.length s)%nat -> nth i s 0 <= nth j s 0.
Proof.
  induction 1 as [| a s Hs IH Ha]; intros i j H; cbn [List.length] in H; [lia |].
  destruct j as [| j]; [replace i with 0%nat by lia; cbn; lra |].
  destruct i as [| i]; cbn [nth].
  - rewrite Forall_forall in Ha. apply Ha. apply nth_In. lia.
  - apply IH. lia.
Qed.

Lemma floor_in_range (s : list Q) (pos : Q) :
  0 <= pos <= Qlen s - 1 ->
  (0 <= Qfloor pos)%Z /\ (Z.to_nat (Qfloor pos) < List.length s)%nat /\
  0 <= pos - inject_Z (Qfloor pos) < 1.
Proof.
  intros [H0 H1].
  pose proof (Qfloor_le pos) as Hlo. pose proof (Qlt_floor pos) as Hhi.
  rewrite inject_Z_plus in Hhi. change (inject_Z 1) with 1 in Hhi.
  assert (Hf0 : (0 <= Qfloor pos)%Z).
  { change 0%Z with (Qfloor 0). now apply Qfloor_resp_le. }
  split; [exact Hf0 |]. split; [| lra].
  assert (Hlt : inject_Z (Qfloor pos) < inject_Z (Z.of_nat (List.length s))).
  { unfold Qlen in H1. lra. }
  rewrite <- Zlt_Qlt in Hlt. lia.
Qed.

Lemma interpolate_between (s : list Q) (pos : Q) :
  StronglySorted Qle s -> 0 <= pos <= Qlen s - 1 ->
  nth (Z.to_nat (Qfloor pos)) s 0 <= interpolate s pos /\
  interpolate s pos
  <= nth (S (Z.to_nat (Qfloor pos))) s (nth (Z.to_nat (Qfloor pos)) s 0) /\
  nth (Z.to_nat (Qfloor pos)) s 0
  <= nth (S (Z.to_nat (Qfloor pos))) s (nth (Z.to_nat (Qfloor pos)) s 0).
Proof.
  intros Hs Hpos. destruct (floor_in_range s pos Hpos) as [Hf0 [Hi Hfrac]].
  unfold interpolate.
  set (i := Z.to_nat (Qfloor pos)) in *.
  set (t := pos - inject_Z (Qfloor pos)) in *.
  set (a := nth i s 0). set (b := nth (S i) s a).
  assert (Hab : a <= b).
  { unfold b. destruct (Nat.lt_ge_cases (S i) (List.length s)) as [Hlt | Hge].
    - rewrite (nth_indep s a 0 Hlt). apply sorted_nth_le; [exact Hs | lia].
    - rewrite nth_overflow by exact Hge. lra. }
  assert (H1 : 0 <= t * (b - a)) by (apply Qmult_le_0_compat; lra).
  assert (H2 : 0 <= (1 - t) * (b - a)) by (apply Qmult_le_0_compat; lra).
  split; [lra |]. split; [| exact Hab].
  setoid_replace (a + t * (b - a)) with (b - (1 - t) * (b - a)) by ring. lra.
Qed.

Lemma interpolate_monotone (s : list Q) (p1 p2 : Q) :
  StronglySorted Qle s -> 0 <= p1 -> p1 <= p2 -> p2 <= Qlen s - 1 ->
  interpolate s p1 <= interpolate s p2.
Proof.
  intros Hs H0 H12 H2.
  assert (Hp1 : 0 <= p1 <= Qlen s - 1) by lra.
  assert (Hp2 : 0 <= p2 <= Qlen s - 1) by lra.
  destruct (floor_in_range s p1 Hp1) as [Hf1 [Hi1 Hfrac1]].
  destruct (floor_in_range s p2 Hp2) as [Hf2 [Hi2 Hfrac2]].
  pose proof (Qfloor_resp_le _ _ H12) as Hfl.
  destruct (Z.eq_dec (Qfloor p1) (Qfloor p2)) as [E | E].
  - destruct (interpolate_between s p1 Hs Hp1) as [_ [_ Hab]].
    unfold interpolate. rewrite <- E in *.
    set (a := nth (Z.to_nat (Qfloor p1)) s 0) in *.
    set (b := nth (S (Z.to_nat (Qfloor p1))) s a) in *.
    assert (H : 0 <= (p2 - p1) * (b - a)) by (apply Qmult_le_0_compat; lra).
    setoid_replace (a + (p2 - inject_Z (Qfloor p1)) * (b - a))
      with (a + (p1 - inject_Z (Qfloor p1)) * (b - a) + (p2 - p1) * (b - a))
      by ring.
    lra.
  - destruct (interpolate_between s p1 Hs Hp1) as [_ [Hup _]].
    destruct (interpolate_between s p2 Hs Hp2) as [Hlow _].
    assert (Hidx : (S (Z.to_nat (Qfloor p1)) <= Z.to_nat (Qfloor p2))%nat) by lia.
    rewrite (nth_indep s _ 0) in Hup by lia.
    pose proof (sorted_nth_le s Hs (S (Z.to_nat (Qfloor p1)))
                  (Z.to_nat (Qfloor p2)) (conj Hidx Hi2)).
    lra.
Qed.

Lemma Qlen_sort (l : list Q) : Qlen (sort l) = Qlen l.
Proof.
  unfold Qlen. now rewrite (Permutation_length (sort_perm l)).
Qed.

Lemma Qlen_at_least_one (l : list Q) : l <> [] -> 1 <= Qlen l.
Proof.
  intro H. unfold Qlen. change 1 with (inject_Z 1). rewrite <- Zle_Qle.
  destruct l; [contradiction | cbn [List.length]; lia].
Qed.

Lemma percentile_monotone (l : list Q) (p1 p2 : Q) :
  l <> [] -> 0 <= p1 -> p1 <= p2 -> p2 <= 100 ->
  percentile l p1 <= percentile l p2.
Proof.
  intros Hne H0 H12 H2. rewrite !percentile_interpolate.
  pose proof (Qlen_at_least_one l Hne) as Hn.
  assert (Hn0 : 0 <= Qlen l - 1) by lra.
  assert (Ha : 0 <= (Qlen l - 1) * p1) by (apply Qmult_le_0_compat; lra).
  assert (Hb : 0 <= (Qlen l - 1) * (p2 - p1)) by (apply Qmult_le_0_compat; lra).
  assert (Hc : 0 <= (Qlen l - 1) * (100 - p2)) by (apply Qmult_le_0_compat; lra).
  apply interpolate_monotone.
  - apply sort_ascending.
  - apply Qle_shift_div_l; [reflexivity | lra].
  - apply Qle_shift_div_l; [reflexivity |].
    setoid_replace ((Qlen l - 1) * p1 / 100 * 100) with ((Qlen l - 1) * p1)
      by field.
    setoid_replace ((Qlen l - 1) * p2)
      with ((Qlen l - 1) * p1 + (Qlen l - 1) * (p2 - p1)) by ring.
    lra.
  - rewrite Qlen_sort. apply Qle_shift_div_r; [reflexivity |].
    setoid_replace ((Qlen l - 1) * 100)
      with ((Qlen l - 1) * p2 + (Qlen l - 1) * (100 - p2)) by ring.
    lra.
Qed.

Lemma floor_unique (x : Q) (z : Z) :
  inject_Z z <= x -> x < inject_Z z + 1 -> Qfloor x = z.
Proof.
  intros Hlo Hhi.
  pose proof (Qfloor_le x) as Flo. pose proof (Qlt_floor x) as Fhi.
  rewrite inject_Z_plus in Fhi. change (inject_Z 1) with 1 in Fhi.
  assert (H1 : inject_Z z < inject_Z (Qfloor x + 1)).
  { rewrite inject_Z_plus. change (inject_Z 1) with 1. lra. }
  assert (H2 : inject_Z (Qfloor x) < inject_Z (z + 1)).
  { rewrite inject_Z_plus. change (inject_Z 1) with 1. lra. }
  rewrite <- Zlt_Qlt in H1, H2. lia.
Qed.

Lemma half_of_odd (n : nat) :
  Nat.even n = false -> n = (2 * (n / 2) + 1)%nat.
Proof.
  intro H. pose proof (Nat.div_mod_eq n 2) as E.
  assert (Hodd : Nat.odd n = true) by (unfold Nat.odd; now rewrite H).
  apply Nat.odd_spec in Hodd. destruct Hodd as [k Hk].
  pose proof (Nat.mod_upper_bound n 2). lia.
Qed.

Lemma half_of_even (n : nat) :
  Nat.even n = true -> n = (2 * (n / 2))%nat.
Proof.
  intro H. apply Nat.even_spec in H. destruct H as [k Hk].
  pose proof (Nat.div_mod_eq n 2). pose proof (Nat.mod_upper_bound n 2). lia.
Qed.

(** The median is the 50th percentile. *)
Lemma median_is_percentile_50 (l : list Q) :
  l <> [] -> Num.median l == percentile l 50.
Proof.
  intro Hne. rewrite percentile_interpolate. unfold Num.median.
  assert (Hlen : List.length (sort l) = List.length l)
    by apply (Permutation_length (sort_perm l)).
  set (n := List.length l) in *. set (h := (n / 2)%nat).
  assert (Hn : (1 <= n)%nat)
    by (unfold n; destruct l; [contradiction | cbn [List.length]; lia]).
  unfold Qlen. fold n.
  destruct (Nat.even n) eqn:Ev.
  - pose proof (half_of_even n Ev) as E. fold h in E.
    assert (Hh : (1 <= h)%nat) by lia.
    assert (Hpos : (inject_Z (Z.of_nat n) - 1) * 50 / 100
                   == inject_Z (Z.of_nat h - 1) + (1 # 2)).
    { rewrite E at 1. rewrite Nat2Z.inj_mul, inject_Z_mult.
      unfold Z.sub. rewrite inject_Z_plus.
      change (inject_Z (Z.of_nat 2)) with 2. change (inject_Z (- (1))) with (- (1)).
      field. }
    assert (Hfloor : Qfloor ((inject_Z (Z.of_nat n) - 1) * 50 / 100)
                     = (Z.of_nat h - 1)%Z)
      by (apply floor_unique; rewrite Hpos; lra).
    unfold interpolate. rewrite Hfloor.
    replace (Z.to_nat (Z.of_nat h - 1)) with (h - 1)%nat by lia.
    replace (S (h - 1)) with h by lia.
    rewrite (nth_indep (sort l) (nth (h - 1) (sort l) 0) 0)
      by (rewrite Hlen; lia).
    rewrite Hpos. field.
  - pose proof (half_of_odd n Ev) as E. fold h in E.
    assert (Hpos : (inject_Z (Z.of_nat n) - 1) * 50 / 100
                   == inject_Z (Z.of_nat h)).
    { rewrite E at 1. rewrite Nat2Z.inj_add, Nat2Z.inj_mul.
      rewrite inject_Z_plus, inject_Z_mult.
      change (inject_Z (Z.of_nat 2)) with 2. change (inject_Z (Z.of_nat 1)) with 1.
      field. }
    assert (Hfloor : Qfloor ((inject_Z (Z.of_nat n) - 1) * 50 / 100)
                     = Z.of_nat h)
      by (apply floor_unique; rewrite Hpos; lra).
    unfold interpolate. rewrite Hfloor, Nat2Z.id, Hpos. ring.
Qed.

(** X23.  The quartiles of a non-empty sample are in order,
    [p25 <= median <= p75], so the interval the display value is clamped
    into is exactly [p25, p75]: the [min] and [max] of the two quartiles
    change nothing. *)
Theorem quartiles_in_order (arr : list Q) (hist_avg_prec : option Q) :
  arr <> [] ->
  exists st,
    hist_stats_from_array arr = Some st /\
    p25 st <= median st <= p75 st /\
    exists lo hi,
      display_bounds (Some st) hist_avg_prec = Some (lo, hi) /\
      lo == p25 st /\ hi == p75 st.
Proof.
  intro Hne. destruct arr as [| v arr]; [contradiction |].
  set (a := v :: arr) in *.
  eexists. split; [reflexivity |]. cbn [p25 p75 median].
  assert (H2575 : percentile a 25 <= percentile a 75)
    by (apply percentile_monotone; [exact Hne | lra | lra | lra]).
  split.
  - rewrite (median_is_percentile_50 a Hne). split;
      (apply percentile_monotone; [exact Hne | lra | lra | lra]).
  - cbn [display_bounds p25 p75]. eexists. eexists.
    split; [reflexivity |].
    rewrite Shrinkage.py_min_Qmin, Shrinkage.py_max_Qmax.
    split; [now apply Q.min_l | now apply Q.max_r].
Qed.

Lemma quartiles_in_order_witness :
  exists st,
    hist_stats_from_array [3; 9; 1; 7; 5; 8; 2] = Some st /\
    p25 st <= median st <= p75 st.
Proof.
  destruct (quartiles_in_order [3; 9; 1; 7; 5; 8; 2] None) as [st [Hst [H _]]];
    [discriminate |].
  exists st. split; [exact Hst | exact H].
Defined.

End Quartiles.

(** ** The frame [forecast_multivariate.main] trains and forecasts on *)

Module TrainingFrame.

Import Num Calendar Frames Simulation ForecastMultivariate.
Import GapFilling FetchFacts ForecastPaths LagFeatures.

Lemma string_length_append (a s : string) :
  String.length (a ++ s) = (String.length a + String.length s)%nat.
Proof.
  induction a as [| c a IH]; cbn [append String.length]; [reflexivity |].
  now rewrite IH.
Qed.

Lemma append_inj_l (s : string) :
  forall a b : string, (a ++ s)%string = (b ++ s)%string -> a = b.
Proof.
  induction a as [| c a IH]; intros [| c' b] H; cbn [append] in H.
  - reflexivity.
  - exfalso. apply (f_equal String.length) in H.
    cbn [String.length] in H. rewrite string_length_append in H. lia.
  - exfalso. apply (f_equal String.length) in H.
    cbn [String.length] in H. rewrite string_length_append in H. lia.
  - injection H as -> H. f_equal. now apply IH.
Qed.

Lemma curr_name_inj (a b : string) : curr_name a = curr_name b -> a = b.
Proof. apply append_inj_l. Qed.

Lemma nodup_names_eq {A : Type} (cols : list (string * A)) :
  NoDup (map fst cols) ->
  forall x y, In x cols -> In y cols -> fst x = fst y -> x = y.
Proof.
  induction cols as [| c cols IH]; intros Hnd x y Hx Hy E; [destruct Hx |].
  cbn [map] in Hnd. inversion Hnd as [| ? ? Hnin Hnd']; subst.
  destruct Hx as [-> | Hx]; destruct Hy as [-> | Hy].
  - reflexivity.
  - exfalso. apply Hnin. rewrite E. now apply in_map.
  - exfalso. apply Hnin. rewrite <- E. now apply in_map.
  - now apply IH.
Qed.

Lemma fold_assign_keeps {A X : Type} (key : X -> string) (val : X -> A)
    (xs : list X) (k : string) (v : A) :
  (forall y, In y xs -> key y = k -> val y = v) ->
  forall d,
    assoc k d = Some v ->
    assoc k (fold_left (fun out x => assign (key x) (val x) out) xs d) = Some v.
Proof.
  induction xs as [| x xs IH]; intros Hval d H; cbn [fold_left]; [exact H |].
  apply IH; [intros y Hy; apply Hval; now right |].
  destruct (string_dec k (key x)) as [E | Hne].
  - rewrite (Hval x (or_introl eq_refl) (eq_sym E)) in *.
    rewrite E. apply assoc_assign_same.
  - now rewrite assoc_assign_other.
Qed.

Lemma fold_assign_assoc {A X : Type} (key : X -> string) (val : X -> A)
    (xs : list X) (x : X) :
  In x xs ->
  (forall y, In y xs -> key y = key x -> val y = val x) ->
  forall d,
    assoc (key x) (fold_left (fun out c => assign (key c) (val c) out) xs d)
    = Some (val x).
Proof.
  induction xs as [| c xs IH]; intros Hin Hval d; [destruct Hin |].
  cbn [fold_left].
  destruct (string_dec (key x) (key c)) as [E | Hne].
  - apply fold_assign_keeps; [intros y Hy; apply Hval; now right |].
    rewrite (eq_sym (Hval c (or_introl eq_refl) (eq_sym E))), E.
    apply assoc_assign_same.
  - destruct Hin as [-> | Hin]; [contradiction |].
    apply IH; [exact Hin |]. intros y Hy. apply Hval. now right.
Qed.

(** Every column of the frame is among the features, under its
    current-value name. *)
Lemma current_values_are_features (df : list (string * list (option Q)))
    (lags : nat) (c : string * list (option Q)) :
  NoDup (map fst df) -> In c df ->
  In (curr_name (fst c), snd c) (create_lag_features df lags).
Proof.
  intros Hnd Hin. apply assoc_some. unfold create_lag_features.
  apply (fold_assign_assoc (fun c0 => curr_name (fst c0)) snd df c Hin).
  intros y Hy E. apply curr_name_inj in E.
  now rewrite (nodup_names_eq df Hnd y c Hy Hin E).
Qed.

Lemma training_table_row (features : list (string * list (option Q)))
    (y : list (option Q)) :
  training_table features y <> [] ->
  exists i, forall c, In c features -> nth i (snd c) None <> None.
Proof.
  unfold training_table. intro H.
  destruct (flat_map _ (seq 0 (List.length y))) as [| r rest] eqn:E;
    [contradiction |].
  assert (Hr : In r (flat_map
                       (fun i => match complete_row features y i with
                                 | Some r0 => [r0]
                                 | None => []
                                 end) (seq 0 (List.length y))))
    by (rewrite E; now left).
  apply in_flat_map in Hr. destruct Hr as [i [_ Hi]].
  exists i. intros c Hc. unfold complete_row in Hi.
  destruct (sequence (map (fun c0 => nth i (snd c0) None) features))
    as [x |] eqn:Es; [| destruct (nth i y None); destruct Hi].
  apply (sequence_some_all _ _ Es). apply in_map_iff. now exists c.
Qed.

Lemma train_test_split_nonempty {A : Type} (rows train test : list A) :
  train_test_split rows = Some (train, test) -> rows <> [].
Proof.
  unfold train_test_split. intros H ->. cbn in H. discriminate.
Qed.

Lemma sequence_full {A : Type} (l : list (option A)) :
  (forall c, In c l -> c <> None) -> sequence l <> None.
Proof.
  induction l as [| [a |] l IH]; intro H; cbn [sequence].
  - discriminate.
  - destruct (sequence l) eqn:E; [discriminate |].
    exfalso. apply IH; [| reflexivity]. intros c Hc. apply H. now right.
  - exfalso. apply (H None); [now left | reflexivity].
Qed.

Lemma rename_first_names (test : string -> bool) (name : string)
    (cols : list (string * list (option Q))) :
  NoDup (map fst cols) -> ~ In name (map fst cols) ->
  NoDup (map fst (rename_first test name cols)).
Proof.
  induction cols as [| c cols IH]; intros Hnd Hnin; cbn [rename_first];
    [constructor |].
  cbn [map] in Hnd, Hnin. inversion Hnd as [| ? ? Hc Hnd']; subst.
  destruct (test (fst c)); cbn [map fst].
  - constructor; [| exact Hnd']. intro H. apply Hnin. now right.
  - constructor.
    + intro H. apply in_map_iff in H. destruct H as [c' [E Hc']].
      assert (Hsub : forall l : list (string * list (option Q)),
                 forall x, In x (rename_first test name l) ->
                           fst x = name \/ In (fst x) (map fst l)).
      { induction l as [| z l IHl]; intros x Hx; cbn [rename_first] in Hx;
          [destruct Hx |].
        destruct (test (fst z)).
        - destruct Hx as [<- | Hx]; [now left |].
          right. right. now apply in_map.
        - destruct Hx as [<- | Hx]; [right; now left |].
          destruct (IHl x Hx) as [H1 | H1]; [now left | right; now right]. }
      destruct (Hsub cols c' Hc') as [H1 | H1].
      * apply Hnin. left. congruence.
      * apply Hc. now rewrite <- E.
    + apply IH; [exact Hnd' |]. intro H. apply Hnin. now right.
Qed.

Lemma rename_target_names (cols : list (string * list (option Q))) :
  NoDup (map fst cols) -> NoDup (map fst (rename_target cols)).
Proof.
  intro Hnd. unfold rename_target.
  destruct (existsb (fun c => String.eqb (fst c) "T2M") cols) eqn:E;
    [exact Hnd |].
  apply rename_first_names; [exact Hnd |].
  intro Hin. apply in_map_iff in Hin. destruct Hin as [c [Hc Hin]].
  assert (existsb (fun c0 => String.eqb (fst c0) "T2M") cols = true).
  { apply existsb_exists. exists c. split; [exact Hin |].
    now apply String.eqb_eq. }
  congruence.
Qed.

(** The frame [train_model] accepted in [main] has no missing cell: a
    row survives [dropna] only when every column has a value on it, and
    a filled column with one value has no gap.  So [iterative_forecast]
    reads numbers only. *)
Lemma trained_frame_is_complete (lib : option sklearn) (g : rng_state)
    (t : csv_table) (vars : list string) (lags : nat) :
  let fetched := fetch_power_csv t vars in
  let df := fill_gaps (fst fetched, rename_target (snd fetched)) in
  train_model lib g (snd df) "T2M" lags <> None ->
  to_columns (snd df) <> None.
Proof.
  intros fetched df Htrain.
  assert (Hnames : NoDup (map fst (snd df))).
  { unfold df, fill_gaps. cbn [snd]. rewrite map_map. cbn [fst].
    apply rename_target_names. unfold fetched, fetch_power_csv. cbn [snd].
    apply (assign_all_keys_nodup (fetch_column t)). constructor. }
  unfold train_model in Htrain.
  destruct lib as [sk |]; [| contradiction].
  destruct (assoc "T2M" (snd df)) as [target |]; [| contradiction].
  destruct (train_test_split
              (training_table (create_lag_features (snd df) lags)
                              (shift_back target)))
    as [[train test] |] eqn:Esplit; [| contradiction].
  apply train_test_split_nonempty in Esplit.
  apply training_table_row in Esplit. destruct Esplit as [i Hi].
  unfold to_columns. apply sequence_full.
  intros cell Hcell. apply in_map_iff in Hcell.
  destruct Hcell as [c [<- Hc]].
  pose proof (Hi _ (current_values_are_features (snd df) lags c Hnames Hc))
    as Hsome. cbn [snd] in Hsome.
  assert (Hfull : forall x, In x (snd c) -> x <> None).
  { unfold df, fill_gaps in Hc. cbn [snd] in Hc.
    apply in_map_iff in Hc. destruct Hc as [c0 [<- Hc0]]. cbn [snd] in *.
    destruct (nth i (bfill (ffill (reindex (fst fetched) (snd c0)))) None)
      as [v |] eqn:Env; [| contradiction].
    apply bfill_ffill_full. exists v. apply bfill_ffill_In.
    rewrite <- Env. apply nth_In. now apply (nth_some_in_range _ _ v). }
  pose proof (sequence_full (snd c) Hfull) as Hseq.
  destruct (sequence (snd c)); [discriminate | contradiction].
Qed.

End TrainingFrame.
